(** * TaskFlow synchronisation engine (scripts/task-sync.mjs)

    A shallow embedding of the sync script: the markdown parser, the
    fingerprint, the diff engine, the TTL lock kept on the [sync_state]
    singleton, the files-to-db apply and the db-to-files projector, together
    with the parts of the SQLite schema (schema/taskflow.sql) the script's
    statements run against.  Two pure helpers of the sibling scripts are
    embedded beside it: [splitStatements] of scripts/init-db.mjs, and
    [escapeHtml] and [ul] of scripts/apple-notes-export.mjs.

    Conventions.
    - A JavaScript string is a [string]: each [ascii] stands for one code
      unit below 256.  Character classes ([\s], [.], [\w]) and [trim] are
      written out for that range.
    - SQLite compares TEXT values with the BINARY collation, i.e.
      [String.compare]; [localeCompare] is modelled by the same order, with
      which the root collation agrees on the task-id alphabet [a-z0-9-] and
      on priorities [P0]..[P9].
    - A clock reading is a [Z]: milliseconds since the epoch, as returned by
      [Date.now()]; the statements of one invocation see one reading.
    - The tasks directory is a list of file names with contents, a table a
      list of rows in rowid order; a statement that fails throws and leaves
      the database as the statements before it made it.
    - A TEXT column is read back as it is stored.  [node:sqlite] hands a
      text back up to its first NUL only, so a property that rests on a
      text being read back whole is stated for texts without NUL
      ([store_no_nul], [task_no_nul]).
    - [writeFileSync] is taken to succeed: the properties of a db-to-files
      run are stated for project ids that name a file of the tasks
      directory ([slug_ok]). *)

From Stdlib Require Import ZArith Lia Bool List String Ascii.
From Stdlib Require Import Permutation.
Import ListNotations.

Local Open Scope string_scope.
Local Open Scope Z_scope.

(* ===================================================================== *)
(** ** JavaScript string primitives *)
(* ===================================================================== *)

Module JS.

Definition code (c : ascii) : N := N_of_ascii c.

Definition in_range (lo hi : N) (c : ascii) : bool :=
  (N.leb lo (code c) && N.leb (code c) hi)%bool.

(** [\s]: WhiteSpace and LineTerminator code units below 256
    (TAB, LF, VT, FF, CR, SPACE, NBSP). *)
Definition is_space (c : ascii) : bool :=
  (in_range 9 13 c || N.eqb (code c) 32 || N.eqb (code c) 160)%bool.

(** LineTerminator: what [.] refuses (LF and CR below 256). *)
Definition is_line_terminator (c : ascii) : bool :=
  (N.eqb (code c) 10 || N.eqb (code c) 13)%bool.

Definition is_digit (c : ascii) : bool := in_range 48 57 c.
Definition is_lower (c : ascii) : bool := in_range 97 122 c.
Definition is_upper (c : ascii) : bool := in_range 65 90 c.

(** [\w] = [A-Za-z0-9_] *)
Definition is_word (c : ascii) : bool :=
  (is_lower c || is_upper c || is_digit c || N.eqb (code c) 95)%bool.

(** [String.prototype.toLowerCase] / [toUpperCase], per code unit:
    the ASCII letters and the Latin-1 letters that have a partner below 256. *)
Definition lower_char (c : ascii) : ascii :=
  if (is_upper c || (in_range 192 222 c && negb (N.eqb (code c) 215)))%bool
  then ascii_of_N (code c + 32) else c.

Definition upper_char (c : ascii) : ascii :=
  if (is_lower c || (in_range 224 254 c && negb (N.eqb (code c) 247)))%bool
  then ascii_of_N (code c - 32) else c.

Fixpoint map_chars (f : ascii -> ascii) (s : string) : string :=
  match s with
  | EmptyString => EmptyString
  | String c s' => String (f c) (map_chars f s')
  end.

Definition toLowerCase : string -> string := map_chars lower_char.

Fixpoint all_chars (p : ascii -> bool) (s : string) : bool :=
  match s with
  | EmptyString => true
  | String c s' => (p c && all_chars p s')%bool
  end.

Fixpoint trimStart (s : string) : string :=
  match s with
  | String c s' => if is_space c then trimStart s' else s
  | EmptyString => EmptyString
  end.

(** [trimEnd]: a character is kept when it is not white space or when
    something that is kept follows it. *)
Fixpoint trimEnd (s : string) : string :=
  match s with
  | EmptyString => EmptyString
  | String c s' =>
      match trimEnd s' with
      | EmptyString => if is_space c then EmptyString else String c EmptyString
      | r => String c r
      end
  end.

Definition trim (s : string) : string := trimEnd (trimStart s).

Definition startsWith (s p : string) : bool := String.prefix p s.

(** [strip_suffix suf s] is [Some p] when [s = p ++ suf]. *)
Fixpoint strip_suffix (suf s : string) : option string :=
  if String.eqb s suf then Some EmptyString
  else match s with
       | EmptyString => None
       | String c s' =>
           match strip_suffix suf s' with
           | Some p => Some (String c p)
           | None => None
           end
       end.

Definition endsWith (s suf : string) : bool :=
  match strip_suffix suf s with Some _ => true | None => false end.

(** JavaScript truthiness of a nullable string, and [x || ''], [x || null]. *)
Definition truthy (o : option string) : bool :=
  match o with
  | Some EmptyString | None => false
  | Some _ => true
  end.

Definition or_empty (o : option string) : string :=
  match o with Some s => s | None => EmptyString end.

Definition or_null (o : option string) : option string :=
  if truthy o then o else None.

(** Template-literal rendering of a nullable value. *)
Definition show (o : option string) : string :=
  match o with Some s => s | None => "null" end.

(** [a.localeCompare(b)], as a [comparison]: the order of the code units,
    which is the order of the collation on the alphabet of the task ids
    and on the priorities (see the conventions).  What rests on the order of
    other strings is stated for ids over that alphabet. *)
Definition localeCompare (a b : string) : comparison := String.compare a b.

(** [content.split(/\r?\n/)]: [cur] holds the current line reversed. *)
Fixpoint rev_string (acc s : string) : string :=
  match s with
  | EmptyString => acc
  | String c s' => rev_string (String c acc) s'
  end.

Fixpoint split_lines_from (cur : string) (s : string) : list string :=
  match s with
  | EmptyString => [rev_string EmptyString cur]
  | String c s' =>
      if N.eqb (code c) 10 then rev_string EmptyString cur :: split_lines_from EmptyString s'
      else if N.eqb (code c) 13 then
        match s' with
        | String d s'' =>
            if N.eqb (code d) 10
            then rev_string EmptyString cur :: split_lines_from EmptyString s''
            else split_lines_from (String c cur) s'
        | EmptyString => split_lines_from (String c cur) s'
        end
      else split_lines_from (String c cur) s'
  end.

Definition split_lines (s : string) : list string := split_lines_from EmptyString s.

(** [lines.join(sep)] *)
Definition join (sep : string) (l : list string) : string := String.concat sep l.

End JS.

(* ===================================================================== *)
(** ** Clock readings and their two textual forms *)
(* ===================================================================== *)

Module Clock.

(** Civil date of a day number (days since 1970-01-01), proleptic
    Gregorian calendar. *)
Definition civil_from_days (d : Z) : Z * Z * Z :=
  let z := d + 719468 in
  let era := z / 146097 in
  let doe := z - era * 146097 in
  let yoe := (doe - doe / 1460 + doe / 36524 - doe / 146096) / 365 in
  let doy := doe - (365 * yoe + yoe / 4 - yoe / 100) in
  let mp := (5 * doy + 2) / 153 in
  let day := doy - (153 * mp + 2) / 5 + 1 in
  let month := if mp <? 10 then mp + 3 else mp - 9 in
  let year := yoe + era * 400 + (if month <=? 2 then 1 else 0) in
  (year, month, day).

Definition digit (n : Z) : ascii := ascii_of_N (Z.to_N (48 + n mod 10)).

Definition pad2 (n : Z) : string :=
  String (digit (n / 10)) (String (digit n) EmptyString).
Definition pad3 (n : Z) : string := String (digit (n / 100)) (pad2 n).
Definition pad4 (n : Z) : string := String (digit (n / 1000)) (pad3 n).

Definition ms_per_day : Z := 86400000.

(** ["YYYY-MM-DD"] of an instant (years 0000 to 9999). *)
Definition date_text (ms : Z) : string :=
  let '(y, m, d) := civil_from_days (ms / ms_per_day) in
  pad4 y ++ "-" ++ pad2 m ++ "-" ++ pad2 d.

(** ["HH:MM:SS"] *)
Definition time_text (ms : Z) : string :=
  let r := ms mod ms_per_day in
  pad2 (r / 3600000) ++ ":" ++ pad2 (r / 60000 mod 60) ++ ":" ++ pad2 (r / 1000 mod 60).

(** [new Date(ms).toISOString()]: ["YYYY-MM-DDTHH:MM:SS.mmmZ"]. *)
Definition toISOString (ms : Z) : string :=
  date_text ms ++ "T" ++ time_text ms ++ "." ++ pad3 (ms mod 1000) ++ "Z".

(** SQLite [datetime('now')]: ["YYYY-MM-DD HH:MM:SS"]. *)
Definition sqlite_datetime (ms : Z) : string :=
  date_text ms ++ " " ++ time_text ms.

(** SQLite [strftime('%Y-%m-%dT%H:%M:%fZ','now')]: the same text as
    [toISOString]. *)
Definition sqlite_strftime_iso (ms : Z) : string := toISOString ms.

End Clock.

(* ===================================================================== *)
(** ** Data model (schema/taskflow.sql) *)
(* ===================================================================== *)

(** The eight columns the script reads and writes for a task; this is also
    the shape of a record produced by the markdown parser. *)
Record Task := mkTask {
  id          : string;
  project_id  : string;
  title       : string;
  status      : string;
  priority    : string;
  owner_model : option string;
  notes       : option string;
  source_file : string;
}.

(** A row of [tasks_v2]. *)
Record TaskRow := mkRow {
  row_task   : Task;
  legacy_key : option string;
  created_at : string;
  updated_at : string;
}.

(** A row of [task_transitions_v2]; the AUTOINCREMENT id is the position in
    the table, which only grows at its end. *)
Record Transition := mkTransition {
  task_id     : string;
  from_status : option string;
  to_status   : string;
  reason      : option string;
  actor       : option string;
  actor_model : option string;
  at_         : string;   (* column [at] *)
}.

(** A row of [projects]. *)
Record Project := mkProject {
  p_id          : string;
  p_name        : string;
  p_description : string;
  p_status      : string;
  p_source_file : string;
  p_updated_at  : string;
}.

(** The row of [sync_state] with [id = 1]. *)
Record SyncState := mkSync {
  files_hash   : option string;
  db_hash      : option string;
  last_sync_at : option string;
  lock_owner   : option string;
  lock_until   : option string;
  last_result  : option string;
}.

(** The database: tables in rowid order; [sync_state] holds at most the
    singleton row. *)
Record Db := mkDb {
  projects    : list Project;
  tasks       : list TaskRow;
  transitions : list Transition;
  sync_state  : option SyncState;
}.

Definition set_sync (db : Db) (s : option SyncState) : Db :=
  mkDb (projects db) (tasks db) (transitions db) s.

Definition set_tasks (db : Db) (t : list TaskRow) : Db :=
  mkDb (projects db) t (transitions db) (sync_state db).

Definition set_transitions (db : Db) (t : list Transition) : Db :=
  mkDb (projects db) (tasks db) t (sync_state db).

Definition set_projects (db : Db) (p : list Project) : Db :=
  mkDb p (tasks db) (transitions db) (sync_state db).

(** The three command-line modes. *)
Inductive Mode := FilesToDb | Check | DbToFiles.

Definition mode_name (m : Mode) : string :=
  match m with
  | FilesToDb => "files-to-db"
  | Check => "check"
  | DbToFiles => "db-to-files"
  end.

(* ===================================================================== *)
(** ** The lock (acquireLock, releaseLock) *)
(* ===================================================================== *)

(** SQL [a < b] in a WHERE clause, for a nullable TEXT column [a] and a
    TEXT value [b]: NULL makes the comparison NULL, which selects nothing. *)
Definition sql_text_lt (a : option string) (b : string) : bool :=
  match a with
  | Some x => String.ltb x b
  | None => false
  end.

Definition sql_is_null (a : option string) : bool :=
  match a with None => true | Some _ => false end.

(** [INSERT OR IGNORE INTO sync_state (id, lock_owner, lock_until)
     VALUES (1, NULL, NULL)] *)
Definition singleton_row (s : option SyncState) : SyncState :=
  match s with
  | Some r => r
  | None => mkSync None None None None None None
  end.

Inductive LockResult :=
| Acquired
| Locked (owner until : option string).   (* message printed, exit(1) *)

(** The WHERE clause of the acquiring UPDATE. *)
Definition lock_free (now : Z) (r : SyncState) : bool :=
  (sql_is_null (lock_owner r)
   || sql_text_lt (lock_until r) (Clock.sqlite_datetime now))%bool.

Definition lock_ttl_ms : Z := 60000.

Definition acquireLock (m : Mode) (now : Z) (db : Db) : Db * LockResult :=
  let owner := "task-sync:" ++ mode_name m in
  let until := Clock.toISOString (now + lock_ttl_ms) in
  let r := singleton_row (sync_state db) in
  if lock_free now r then
    (set_sync db (Some (mkSync (files_hash r) (db_hash r) (last_sync_at r)
                               (Some owner) (Some until) (last_result r))),
     Acquired)
  else
    (set_sync db (Some r), Locked (lock_owner r) (lock_until r)).

(** [UPDATE sync_state SET lock_owner = NULL, lock_until = NULL,
     last_sync_at = ?, last_result = ? WHERE id = 1] *)
Definition releaseLock (result : string) (now : Z) (db : Db) : Db :=
  match sync_state db with
  | Some r =>
      set_sync db (Some (mkSync (files_hash r) (db_hash r)
                                (Some (Clock.toISOString now))
                                None None (Some result)))
  | None => db
  end.

(* ===================================================================== *)
(** ** Regular expressions of the parser, as backtracking matchers *)
(* ===================================================================== *)

(** The matchers are written in continuation-passing style: a matcher takes
    the continuation [k] for the rest of the pattern and answers with the
    first overall match in the engine's priority order (greedy quantifiers
    try the longest repetition first and give characters back one at a time;
    an optional group is tried before it is skipped). *)

Module Re.

Fixpoint strip_prefix (p s : string) : option string :=
  match p, s with
  | EmptyString, _ => Some s
  | String a p', String b s' => if Ascii.eqb a b then strip_prefix p' s' else None
  | String _ _, EmptyString => None
  end.

Definition snoc (s : string) (c : ascii) : string := s ++ String c EmptyString.

(** [c*] for a character class [p]; [pre] is what the group has consumed so
    far, handed to the continuation together with the remaining input. *)
Fixpoint star {A : Type} (p : ascii -> bool) (k : string -> string -> option A)
         (pre s : string) : option A :=
  match s with
  | String c s' =>
      if p c then
        match star p k (snoc pre c) s' with
        | Some r => Some r
        | None => k pre s
        end
      else k pre s
  | EmptyString => k pre s
  end.

(** [c+] *)
Definition plus {A : Type} (p : ascii -> bool) (k : string -> string -> option A)
           (s : string) : option A :=
  match s with
  | String c s' => if p c then star p k (String c EmptyString) s' else None
  | EmptyString => None
  end.

(** [(?:X)?] with one capture inside [X] *)
Definition opt {A : Type} (x : (string -> string -> option A) -> string -> option A)
           (k : option string -> string -> option A) (s : string) : option A :=
  match x (fun cap rest => k (Some cap) rest) s with
  | Some r => Some r
  | None => k None s
  end.

(** [$] without the [m] flag: end of input. *)
Definition at_end (cap rest : string) : option string :=
  match rest with EmptyString => Some cap | String _ _ => None end.

Definition not_rbracket (c : ascii) : bool := negb (Ascii.eqb c "]"%char).
Definition dot (c : ascii) : bool := negb (JS.is_line_terminator c).

(** A bracket tag, [\[ ( [^\]]* ) \]] (blanks added for reading). *)
Definition bracket_tag {A : Type} (k : string -> string -> option A) (s : string) : option A :=
  match s with
  | String "["%char s' =>
      star not_rbracket
           (fun cap rest =>
              match rest with
              | String "]"%char rest' => k cap rest'
              | _ => None
              end) EmptyString s'
  | _ => None
  end.

(** [[a-z0-9-]] *)
Definition id_char (c : ascii) : bool :=
  (JS.is_lower c || JS.is_digit c || Ascii.eqb c "-"%char)%bool.

(** The groups of a [TASK_RE] match: checkbox, id, tag1, tag2, title. *)
Record TaskMatch := mkMatch {
  m_checkbox : ascii;
  m_id       : string;
  m_tag1     : option string;
  m_tag2     : option string;
  m_title    : string;
}.

(** [TASK_RE]: [^- \[([ x])\] \(task:([a-z0-9-]+)\)], then three times
    [\s*] followed, the first two times, by an optional bracket tag, and
    finally [(.+)$]. *)
Definition TASK_RE (line : string) : option TaskMatch :=
  match strip_prefix "- [" line with
  | Some (String box s1) =>
      if (Ascii.eqb box " "%char || Ascii.eqb box "x"%char)%bool then
        match strip_prefix "] (task:" s1 with
        | Some s2 =>
            plus id_char
              (fun idv r =>
                 match r with
                 | String ")"%char r1 =>
                     star JS.is_space (fun _ r2 =>
                       opt bracket_tag (fun tag1 r3 =>
                         star JS.is_space (fun _ r4 =>
                           opt bracket_tag (fun tag2 r5 =>
                             star JS.is_space (fun _ r6 =>
                               plus dot (fun ttl r7 =>
                                 match r7 with
                                 | EmptyString => Some (mkMatch box idv tag1 tag2 ttl)
                                 | String _ _ => None
                                 end) r6) EmptyString r5) r4) EmptyString r3) r2)
                          EmptyString r1
                 | _ => None
                 end) s2
        | None => None
        end
      else None
  | _ => None
  end.

(** [/^## (.+)$/], the capture *)
Definition HEADER_RE (line : string) : option string :=
  match strip_prefix "## " line with
  | Some r => plus dot at_end r
  | None => None
  end.

(** [/^\s+- note:\s*(.+)$/], the capture *)
Definition NOTE_RE (line : string) : option string :=
  plus JS.is_space
       (fun _ r =>
          match strip_prefix "- note:" r with
          | Some r1 => star JS.is_space (fun _ r2 => plus dot at_end r2) EmptyString r1
          | None => None
          end) line.

(** [/^P\d$/.test(tag)] *)
Definition PRIORITY_RE (tag : string) : bool :=
  match tag with
  | String "P"%char (String d EmptyString) => JS.is_digit d
  | _ => false
  end.

End Re.

(* ===================================================================== *)
(** ** PARSE MARKDOWN *)
(* ===================================================================== *)

(** [STATUS_MAP[normalized] || null].  [STATUS_MAP] is an object literal, so
    besides its five own keys the lookup finds the inherited properties of
    [Object.prototype]; after [toLowerCase] only the all-lower-case names
    [constructor] and [__proto__] can be asked for.  Their values are not
    strings; they are kept as the text a template literal renders for them,
    which no status column accepts. *)
Definition STATUS_MAP (normalized : string) : option string :=
  if String.eqb normalized "in progress" then Some "in_progress"
  else if String.eqb normalized "pending validation" then Some "pending_validation"
  else if String.eqb normalized "backlog" then Some "backlog"
  else if String.eqb normalized "done" then Some "done"
  else if String.eqb normalized "blocked" then Some "blocked"
  else if String.eqb normalized "constructor" then Some "function Object() { [native code] }"
  else if String.eqb normalized "__proto__" then Some "[object Object]"
  else None.

(** The loop over [[tag1, tag2]]: an absent or empty tag is skipped, a tag
    of the form [P<digit>] sets the priority, any other tag sets the model. *)
Fixpoint classify_tags (tags : list (option string)) (priority : string)
         (model : option string) : string * option string :=
  match tags with
  | [] => (priority, model)
  | tag :: rest =>
      match tag with
      | None | Some EmptyString => classify_tags rest priority model
      | Some t =>
          if Re.PRIORITY_RE t then classify_tags rest t model
          else classify_tags rest priority (Some t)
      end
  end.

(** [path.basename(filePath).replace(/-tasks\.md$/, '')] *)
Definition slug_of (fileName : string) : string :=
  match JS.strip_suffix "-tasks.md" fileName with
  | Some s => s
  | None => fileName
  end.

(** The body of the loop of [parseTaskFile], from line [i] on. *)
Fixpoint parse_lines (slug : string) (currentStatus : option string)
         (lines : list string) : list Task :=
  match lines with
  | [] => []
  | line :: rest =>
      match Re.HEADER_RE line with
      | Some h => parse_lines slug (STATUS_MAP (JS.toLowerCase (JS.trim h))) rest
      | None =>
          match currentStatus with
          | None => parse_lines slug None rest
          | Some st =>
              match Re.TASK_RE line with
              | Some m =>
                  let '(prio, model) :=
                    classify_tags [Re.m_tag1 m; Re.m_tag2 m] "P2" None in
                  let note :=
                    match rest with
                    | next :: _ =>
                        match Re.NOTE_RE next with
                        | Some n => Some (JS.trim n)
                        | None => None
                        end
                    | [] => None
                    end in
                  mkTask (Re.m_id m) slug (JS.trim (Re.m_title m)) st prio model note
                         ("tasks/" ++ slug ++ "-tasks.md")
                  :: parse_lines slug currentStatus rest
              | None => parse_lines slug currentStatus rest
              end
          end
      end
  end.

Definition parseTaskFile (fileName content : string) : list Task :=
  parse_lines (slug_of fileName) None (JS.split_lines content).

(** The tasks directory: file names with their contents, in the order
    [readdirSync] lists them. *)
Definition FS := list (string * string).

Definition is_task_file (f : string) : bool := JS.endsWith f "-tasks.md".

Definition parseAllFiles (fs : FS) : list Task :=
  flat_map (fun e => if is_task_file (fst e) then parseTaskFile (fst e) (snd e) else []) fs.

(* ===================================================================== *)
(** ** SHA-256 (createHash('sha256')), FIPS 180-4, on words kept in [N] *)
(* ===================================================================== *)

Module Sha256.

Local Open Scope N_scope.

Definition w32 : N := 4294967296.
Definition add32 (a b : N) : N := (a + b) mod w32.
Definition rotr (n x : N) : N :=
  N.lor (N.shiftr x n) ((N.shiftl x (32 - n)) mod w32).
Definition not32 (x : N) : N := N.lxor x (w32 - 1).

Definition Ch (x y z : N) : N := N.lxor (N.land x y) (N.land (not32 x) z).
Definition Maj (x y z : N) : N :=
  N.lxor (N.lxor (N.land x y) (N.land x z)) (N.land y z).
Definition Sig0 (x : N) : N := N.lxor (N.lxor (rotr 2 x) (rotr 13 x)) (rotr 22 x).
Definition Sig1 (x : N) : N := N.lxor (N.lxor (rotr 6 x) (rotr 11 x)) (rotr 25 x).
Definition sig0 (x : N) : N := N.lxor (N.lxor (rotr 7 x) (rotr 18 x)) (N.shiftr x 3).
Definition sig1 (x : N) : N := N.lxor (N.lxor (rotr 17 x) (rotr 19 x)) (N.shiftr x 10).

(** The constants are those of the standard: the first 32 bits of the
    fractional parts of the cube roots (round constants) and of the square
    roots (initial hash value) of the first primes. *)
Definition primes64 : list N :=
  [2; 3; 5; 7; 11; 13; 17; 19; 23; 29; 31; 37; 41; 43; 47; 53;
   59; 61; 67; 71; 73; 79; 83; 89; 97; 101; 103; 107; 109; 113; 127; 131;
   137; 139; 149; 151; 157; 163; 167; 173; 179; 181; 191; 193; 197; 199; 211; 223;
   227; 229; 233; 239; 241; 251; 257; 263; 269; 271; 277; 281; 283; 293; 307; 311].

(** Integer cube root, one bit at a time from bit [bits - 1] down. *)
Fixpoint cbrt_bits (bits : nat) (n r : N) : N :=
  match bits with
  | O => r
  | S b =>
      let r' := r + N.shiftl 1 (N.of_nat b) in
      cbrt_bits b n (if r' * r' * r' <=? n then r' else r)
  end.

Definition frac_cbrt32 (p : N) : N := cbrt_bits 40 (N.shiftl p 96) 0 mod w32.
Definition frac_sqrt32 (p : N) : N := N.sqrt (N.shiftl p 64) mod w32.

Definition K : list N := Eval vm_compute in map frac_cbrt32 primes64.
Definition H0 : list N := Eval vm_compute in map frac_sqrt32 (firstn 8 primes64).

(** UTF-8 encoding of a string of code units below 256. *)
Fixpoint utf8 (s : string) : list N :=
  match s with
  | EmptyString => []
  | String c s' =>
      let n := N_of_ascii c in
      if n <? 128 then n :: utf8 s'
      else (192 + n / 64) :: (128 + n mod 64) :: utf8 s'
  end.

(** Padding: the byte 0x80, zeros up to 56 modulo 64, the bit length on 64
    bits, big-endian. *)
Definition be_bytes (k : nat) (n : N) : list N :=
  map (fun i => (N.shiftr n (8 * N.of_nat i)) mod 256) (rev (seq 0 k)).

Definition pad (msg : list N) : list N :=
  let len := N.of_nat (List.length msg) in
  let zeros := N.to_nat ((119 - len mod 64) mod 64) in
  msg ++ [128] ++ repeat 0 zeros ++ be_bytes 8 (8 * len).

Fixpoint words (fuel : nat) (bytes : list N) : list N :=
  match fuel, bytes with
  | S f, a :: b :: c :: d :: rest =>
      (((a * 256 + b) * 256 + c) * 256 + d) :: words f rest
  | _, _ => []
  end.

(** Message schedule; [w] holds the words computed so far, latest first. *)
Fixpoint schedule (fuel : nat) (w : list N) : list N :=
  match fuel with
  | O => w
  | S f =>
      let w2 := nth 1 w 0 in
      let w7 := nth 6 w 0 in
      let w15 := nth 14 w 0 in
      let w16 := nth 15 w 0 in
      schedule f (add32 (add32 (add32 (sig1 w2) w7) (sig0 w15)) w16 :: w)
  end.

Record Regs := mkRegs { ra : N; rb : N; rc : N; rd : N; re : N; rf : N; rg : N; rh : N }.

Definition round (r : Regs) (kw : N * N) : Regs :=
  let t1 := add32 (add32 (add32 (add32 (rh r) (Sig1 (re r))) (Ch (re r) (rf r) (rg r))) (fst kw)) (snd kw) in
  let t2 := add32 (Sig0 (ra r)) (Maj (ra r) (rb r) (rc r)) in
  mkRegs (add32 t1 t2) (ra r) (rb r) (rc r) (add32 (rd r) t1) (re r) (rf r) (rg r).

Definition regs_of (h : list N) : Regs :=
  mkRegs (nth 0 h 0) (nth 1 h 0) (nth 2 h 0) (nth 3 h 0)
         (nth 4 h 0) (nth 5 h 0) (nth 6 h 0) (nth 7 h 0).

Definition regs_list (r : Regs) : list N :=
  [ra r; rb r; rc r; rd r; re r; rf r; rg r; rh r].

Definition compress (h : list N) (block : list N) : list N :=
  let w := rev (schedule 48 (rev (words 16 block))) in
  let r := fold_left round (combine K w) (regs_of h) in
  map (fun p => add32 (fst p) (snd p)) (combine h (regs_list r)).

Fixpoint blocks (fuel : nat) (h : list N) (bytes : list N) : list N :=
  match fuel with
  | O => h
  | S f =>
      match bytes with
      | [] => h
      | _ => blocks f (compress h (firstn 64 bytes)) (skipn 64 bytes)
      end
  end.

Definition digest_words (msg : list N) : list N :=
  let p := pad msg in
  blocks (List.length p) H0 p.

Definition hex_digit (n : N) : ascii :=
  if n <? 10 then ascii_of_N (48 + n) else ascii_of_N (87 + n).

Definition hex_word (w : N) : string :=
  fold_right (fun i acc => String (hex_digit ((N.shiftr w (4 * N.of_nat i)) mod 16)) acc)
             EmptyString (rev (seq 0 8)).

(** [createHash('sha256').update(data).digest('hex')] *)
Definition hex (data : string) : string :=
  fold_right (fun w acc => (hex_word w ++ acc)%string) EmptyString (digest_words (utf8 data)).

End Sha256.

(* ===================================================================== *)
(** ** Array.prototype.sort and Map *)
(* ===================================================================== *)

Section Sort.
Context {A : Type} (cmp : A -> A -> comparison).

(** Stable insertion: [x] goes in front of the first element that does
    not sort before it. *)
Fixpoint insert (x : A) (l : list A) : list A :=
  match l with
  | [] => [x]
  | y :: l' =>
      match cmp x y with
      | Gt => y :: insert x l'
      | _ => x :: l
      end
  end.

(** [[...l].sort(cmp)]: the sort is stable. *)
Fixpoint sort (l : list A) : list A :=
  match l with
  | [] => []
  | x :: l' => insert x (sort l')
  end.
End Sort.

(** A JavaScript [Map] with string keys: entries in insertion order;
  setting a key that is present replaces its value where it stands. *)
Section JsMap.
Context {V : Type}.

Definition JsMap := list (string * V).

Fixpoint map_get (k : string) (m : JsMap) : option V :=
  match m with
  | [] => None
  | (k', v) :: m' => if String.eqb k k' then Some v else map_get k m'
  end.

Fixpoint map_set (k : string) (v : V) (m : JsMap) : JsMap :=
  match m with
  | [] => [(k, v)]
  | (k', v') :: m' =>
      if String.eqb k k' then (k', v) :: m' else (k', v') :: map_set k v m'
  end.

Definition map_has (k : string) (m : JsMap) : bool :=
  match map_get k m with Some _ => true | None => false end.

(** [new Map(entries)] *)
Definition map_of (entries : list (string * V)) : JsMap :=
  fold_left (fun m e => map_set (fst e) (snd e) m) entries [].
End JsMap.
Arguments JsMap V : clear implicits.

(* ===================================================================== *)
(** ** DB READ, HASH, DIFF *)
(* ===================================================================== *)

(** [ORDER BY id] on a TEXT column: the BINARY collation. *)
Definition sql_order (a b : string) : comparison := String.compare a b.

(** [SELECT id, project_id, title, status, priority, owner_model, notes,
     source_file FROM tasks_v2 ORDER BY id].  The columns are handed back
    as they are stored (for a text with a NUL see the conventions). *)
Definition getDbTasks (db : Db) : list Task :=
  sort (fun a b => sql_order (id a) (id b)) (map row_task (tasks db)).

(** [(a, b) => a.id.localeCompare(b.id)] *)
Definition by_id (a b : Task) : comparison := JS.localeCompare (id a) (id b).

Definition LF : string := String (ascii_of_N 10) EmptyString.

(** One line of the canonical text that is hashed. *)
Definition hash_line (t : Task) : string :=
  id t ++ "|" ++ status t ++ "|" ++ priority t ++ "|"
     ++ JS.or_empty (owner_model t) ++ "|" ++ title t ++ "|"
     ++ JS.or_empty (notes t).

Definition hash_data (tasks : list Task) : string :=
  JS.join LF (map hash_line (sort by_id tasks)).

Definition hashTasks (tasks : list Task) : string :=
  String.substring 0 16 (Sha256.hex (hash_data tasks)).

Inductive Diff :=
| file_only (d_id : string) (task : Task)
| changed (d_id : string) (changes : list string) (fileTask dbTask : Task)
| db_only (d_id : string) (task : Task).

Definition diff_id (d : Diff) : string :=
  match d with
  | file_only i _ | changed i _ _ _ | db_only i _ => i
  end.

Definition opt_string_eqb (a b : option string) : bool :=
  match a, b with
  | Some x, Some y => String.eqb x y
  | None, None => true
  | _, _ => false
  end.

(** The arrow of the change messages is U+2192, kept here as its UTF-8
    bytes. *)
Definition arrow : string := " → ".

(** The list [changes] built for an id present on both sides. *)
Definition field_changes (ft dt : Task) : list string :=
  (if negb (String.eqb (status ft) (status dt))
   then ["status: " ++ status dt ++ arrow ++ status ft] else [])
  ++ (if negb (String.eqb (priority ft) (priority dt))
      then ["priority: " ++ priority dt ++ arrow ++ priority ft] else [])
  ++ (if negb (opt_string_eqb (JS.or_null (owner_model ft)) (JS.or_null (owner_model dt)))
      then ["model: " ++ JS.show (owner_model dt) ++ arrow ++ JS.show (owner_model ft)] else [])
  ++ (if negb (String.eqb (title ft) (title dt)) then ["title changed"] else []).

Definition task_entries (l : list Task) : list (string * Task) :=
  map (fun t => (id t, t)) l.

(** First loop of [diffTasks]: over the entries of [fileMap]. *)
Definition diff_file_side (dbMap : JsMap Task) (fileMap : JsMap Task) : list Diff :=
  flat_map
    (fun e =>
       match map_get (fst e) dbMap with
       | None => [file_only (fst e) (snd e)]
       | Some dt =>
           match field_changes (snd e) dt with
           | [] => []
           | changes => [changed (fst e) changes (snd e) dt]
           end
       end) fileMap.

(** Second loop: over the keys of [dbMap]. *)
Definition diff_db_side (fileMap : JsMap Task) (dbMap : JsMap Task) : list Diff :=
  flat_map
    (fun e => if map_has (fst e) fileMap then [] else [db_only (fst e) (snd e)]) dbMap.

Definition diffTasks (fileTasks dbTasks : list Task) : list Diff :=
  let fileMap := map_of (task_entries fileTasks) in
  let dbMap := map_of (task_entries dbTasks) in
  diff_file_side dbMap fileMap ++ diff_db_side fileMap dbMap.

(* ===================================================================== *)
(** ** WRITE TO DB (syncFilesToDb) *)
(* ===================================================================== *)

(** A statement either completes or throws; the connection is in
    autocommit mode, so every completed statement is durable at once and a
    statement that throws changes nothing itself. *)
Inductive Result (A : Type) :=
| Ok (a : A)
| Throw (msg : string).
Arguments Ok {A} a.
Arguments Throw {A} msg.

(** Code that runs statements one after the other: the database as it is
    when the code returns or throws, and the value or the exception. *)
Definition Script (A : Type) := Db -> Db * Result A.

Definition ret {A : Type} (a : A) : Script A := fun db => (db, Ok a).

Definition bind {A B : Type} (m : Script A) (k : A -> Script B) : Script B :=
  fun db =>
    match m db with
    | (db', Ok a) => k a db'
    | (db', Throw e) => (db', Throw e)
    end.

(** [stmt.run(...)] *)
Definition run (stmt : Db -> Result Db) : Script unit :=
  fun db =>
    match stmt db with
    | Ok db' => (db', Ok tt)
    | Throw e => (db, Throw e)
    end.

Notation "x <- m ;; k" := (bind m (fun x => k))
  (at level 61, m at next level, right associativity).
Notation "m ;;; k" := (bind m (fun _ => k))
  (at level 61, right associativity).

Definition mem_string (x : string) (l : list string) : bool :=
  existsb (String.eqb x) l.

(** The CHECK constraints of [tasks_v2]. *)
Definition status_check (s : string) : bool :=
  mem_string s ["backlog"; "in_progress"; "pending_validation"; "done"; "blocked"].

Definition priority_check (p : string) : bool :=
  mem_string p ["P0"; "P1"; "P2"; "P3"; "P9"].

Definition find_row (i : string) (rows : list TaskRow) : option TaskRow :=
  find (fun r => String.eqb (id (row_task r)) i) rows.

Definition project_exists (pid : string) (db : Db) : bool :=
  existsb (fun p => String.eqb (p_id p) pid) (projects db).

(** The CASE of the upsert: does a compared column differ? *)
Definition compared_differ (old new : Task) : bool :=
  (negb (String.eqb (title old) (title new))
   || negb (String.eqb (status old) (status new))
   || negb (String.eqb (priority old) (priority new))
   || negb (String.eqb (JS.or_empty (owner_model old)) (JS.or_empty (owner_model new))))%bool.

(** [COALESCE(a, b)] *)
Definition coalesce (a b : option string) : option string :=
  match a with Some _ => a | None => b end.

(** The DO UPDATE SET clause applied to the row in conflict. *)
Definition update_row (now : Z) (t : Task) (r : TaskRow) : TaskRow :=
  let old := row_task r in
  mkRow (mkTask (id old) (project_id old) (title t) (status t) (priority t)
                (owner_model t) (coalesce (notes t) (notes old)) (source_file t))
        (legacy_key r) (created_at r)
        (if compared_differ old t then Clock.sqlite_strftime_iso now else updated_at r).

Definition update_rows (now : Z) (t : Task) (rows : list TaskRow) : list TaskRow :=
  map (fun r => if String.eqb (id (row_task r)) (id t) then update_row now t r else r) rows.

(** The prepared statement [upsert].  The CHECK constraints are tested on
    the proposed row before the conflict on [id] is looked for; the foreign
    key is tested when a row is really inserted.  The messages stand for
    SQLite's; no property depends on their wording. *)
Definition upsert (now : Z) (t : Task) (db : Db) : Result Db :=
  if negb (status_check (status t)) then
    Throw "CHECK constraint failed: status IN ('backlog','in_progress','pending_validation','done','blocked')"
  else if negb (priority_check (priority t)) then
    Throw "CHECK constraint failed: priority IN ('P0', 'P1', 'P2', 'P3', 'P9')"
  else
    match find_row (id t) (tasks db) with
    | Some _ => Ok (set_tasks db (update_rows now t (tasks db)))
    | None =>
        if project_exists (project_id t) db then
          Ok (set_tasks db (tasks db ++
                [mkRow t None (Clock.sqlite_strftime_iso now) (Clock.sqlite_strftime_iso now)]))
        else Throw "FOREIGN KEY constraint failed"
    end.

(** The prepared statement [insertTransition]. *)
Definition insertTransition (now : Z) (tid : string) (from : option string)
           (to reason : string) (db : Db) : Result Db :=
  match find_row tid (tasks db) with
  | Some _ =>
      Ok (set_transitions db (transitions db ++
            [mkTransition tid from to (Some reason) (Some "sync") None
                          (Clock.sqlite_strftime_iso now)]))
  | None => Throw "FOREIGN KEY constraint failed"
  end.

(** [s.replace(/-/g, ' ').replace(/\b\w/g, c => c.toUpperCase())] *)
Fixpoint title_case (prev_word : bool) (s : string) : string :=
  match s with
  | EmptyString => EmptyString
  | String c s' =>
      String (if (JS.is_word c && negb prev_word)%bool then JS.upper_char c else c)
             (title_case (JS.is_word c) s')
  end.

Definition project_name (slug : string) : string :=
  title_case false
    (JS.map_chars (fun c => if Ascii.eqb c "-"%char then " "%char else c) slug).

(** [INSERT OR IGNORE INTO projects (id, name, description, status,
     source_file) VALUES (?, ?, '', 'active', ?)] *)
Definition upsertProject (now : Z) (pid name src : string) (db : Db) : Result Db :=
  if project_exists pid db then Ok db
  else Ok (set_projects db (projects db ++
             [mkProject pid name "" "active" src (Clock.sqlite_strftime_iso now)])).

(** The loop that creates the projects the files mention and the table
    does not know. *)
Fixpoint create_missing_projects (now : Z) (known missing : list string)
         (fileTasks : list Task) : Script unit :=
  match fileTasks with
  | [] => ret tt
  | t :: rest =>
      if (negb (mem_string (project_id t) known)
          && negb (mem_string (project_id t) missing))%bool then
        run (upsertProject now (project_id t) (project_name (project_id t))
                           ("tasks/" ++ project_id t ++ "-tasks.md")) ;;;
        create_missing_projects now known (project_id t :: missing) rest
      else create_missing_projects now known missing rest
  end.

(** The body of the loop over [diffs], for one entry: the statements it
    runs. *)
Definition apply_diff (now : Z) (d : Diff) : Script unit :=
  match d with
  | file_only _ t =>
      run (upsert now t) ;;;
      run (insertTransition now (id t) None (status t) "added via file sync")
  | changed _ changes t dt =>
      run (upsert now t) ;;;
      (if negb (String.eqb (status dt) (status t)) then
         run (insertTransition now (id t) (Some (status dt)) (status t)
                               ("file sync: " ++ JS.join ", " changes))
       else ret tt)
  | db_only _ _ => ret tt    (* db_only tasks stay in DB *)
  end.

(** ... and the counter it bumps once they are done. *)
Definition count_diff (d : Diff) (c : nat * nat) : nat * nat :=
  match d with
  | file_only _ _ => (S (fst c), snd c)
  | changed _ _ _ _ => (fst c, S (snd c))
  | db_only _ _ => c
  end.

(** The loop over [diffs]; [c] holds the counters [added] and [updated]. *)
Fixpoint apply_diffs (now : Z) (diffs : list Diff) (c : nat * nat)
  : Script (nat * nat) :=
  match diffs with
  | [] => ret c
  | d :: rest => apply_diff now d ;;; apply_diffs now rest (count_diff d c)
  end.

(** [UPDATE sync_state SET files_hash = ?, db_hash = ? WHERE id = 1] *)
Definition update_hashes (fh dh : string) (db : Db) : Result Db :=
  match sync_state db with
  | Some r =>
      Ok (set_sync db (Some (mkSync (Some fh) (Some dh) (last_sync_at r)
                                    (lock_owner r) (lock_until r) (last_result r))))
  | None => Ok db
  end.

Record SyncCounts := mkCounts { added : nat; updated : nat; dbOnly : nat }.

Definition is_db_only (d : Diff) : bool :=
  match d with db_only _ _ => true | _ => false end.

Definition syncFilesToDb (now : Z) (fs : FS) (fileTasks dbTasks : list Task)
           (diffs : list Diff) : Script SyncCounts :=
  fun db =>
    let knownProjects := map p_id (projects db) in
    (create_missing_projects now knownProjects [] fileTasks ;;;
     c <- apply_diffs now diffs (O, O) ;;
     (fun db' =>
        run (update_hashes (hashTasks (parseAllFiles fs)) (hashTasks (getDbTasks db'))) db') ;;;
     ret (mkCounts (fst c) (snd c) (List.length (filter is_db_only diffs)))) db.

(* ===================================================================== *)
(** ** WRITE TO FILES (projectDbToFiles) *)
(* ===================================================================== *)

Definition STATUS_ORDER : list string :=
  ["in_progress"; "pending_validation"; "blocked"; "backlog"; "done"].

Definition STATUS_HEADERS (section : string) : string :=
  if String.eqb section "in_progress" then "In Progress"
  else if String.eqb section "pending_validation" then "Pending Validation"
  else if String.eqb section "blocked" then "Blocked"
  else if String.eqb section "backlog" then "Backlog"
  else if String.eqb section "done" then "Done"
  else "undefined".

(** [byProject]: project id to its tasks, in the order met. *)
Definition group_by_project (dbTasks : list Task) : JsMap (list Task) :=
  fold_left
    (fun m t =>
       match map_get (project_id t) m with
       | Some l => map_set (project_id t) (l ++ [t])%list m
       | None => map_set (project_id t) [t] m
       end) dbTasks [].

Fixpoint take_until_section (lines : list string) : list string :=
  match lines with
  | [] => []
  | line :: rest =>
      if JS.startsWith line "## " then [] else line :: take_until_section rest
  end.

(** What an existing file has in front of its first [## ] line. *)
Definition preamble (content : string) : string :=
  JS.trimEnd (JS.join LF (take_until_section (JS.split_lines content))).

(** [headers]: slug to preamble, for the task files of the directory. *)
Definition read_headers (fs : FS) : JsMap string :=
  fold_left
    (fun m e =>
       if is_task_file (fst e) then map_set (slug_of (fst e)) (preamble (snd e)) m else m)
    fs [].

Definition by_priority_then_id (a b : Task) : comparison :=
  match JS.localeCompare (priority a) (priority b) with
  | Eq => JS.localeCompare (id a) (id b)
  | c => c
  end.

Definition render_task (t : Task) : string :=
  let checkbox := if String.eqb (status t) "done" then "[x]" else "[ ]" in
  let modelTag := if JS.truthy (owner_model t)
                  then " [" ++ JS.or_empty (owner_model t) ++ "]" else "" in
  "- " ++ checkbox ++ " (task:" ++ id t ++ ") [" ++ priority t ++ "]" ++ modelTag
       ++ " " ++ title t ++ LF
       ++ (if JS.truthy (notes t) then "  - note: " ++ JS.or_empty (notes t) ++ LF else "").

Definition section_tasks (tasks : list Task) (section : string) : list Task :=
  sort by_priority_then_id (filter (fun t => String.eqb (status t) section) tasks).

Definition render_section (tasks : list Task) (section : string) : string :=
  "## " ++ STATUS_HEADERS section ++ LF
        ++ String.concat "" (map render_task (section_tasks tasks section)) ++ LF.

Definition render_project (header : string) (tasks : list Task) : string :=
  header ++ LF ++ LF ++ String.concat "" (map (render_section tasks) STATUS_ORDER).

(** [writeFileSync]: replaces the content of an existing file, or creates
    the file.  The write is taken to succeed (see the conventions). *)
Fixpoint write_file (name content : string) (fs : FS) : FS :=
  match fs with
  | [] => [(name, content)]
  | (n, c) :: fs' =>
      if String.eqb n name then (n, content) :: fs' else (n, c) :: write_file name content fs'
  end.

Definition project_header (headers : JsMap string) (slug : string) : string :=
  match map_get slug headers with
  | Some h => if JS.truthy (Some h) then h else "# Tasks: " ++ slug
  | None => "# Tasks: " ++ slug
  end.

Definition project_tasks (byProject : JsMap (list Task)) (slug : string) : list Task :=
  match map_get slug byProject with Some l => l | None => [] end.

(** [SELECT id FROM projects ORDER BY id] *)
Definition project_slugs (db : Db) : list string :=
  sort sql_order (map p_id (projects db)).

(** Returns the directory after the writes and [filesWritten]. *)
Definition projectDbToFiles (dbTasks : list Task) (fs : FS) (db : Db) : FS * nat :=
  let byProject := group_by_project dbTasks in
  let headers := read_headers fs in
  fold_left
    (fun acc slug =>
       (write_file (slug ++ "-tasks.md")
                   (render_project (project_header headers slug)
                                   (project_tasks byProject slug))
                   (fst acc),
        S (snd acc)))
    (project_slugs db) (fs, O).

(* ===================================================================== *)
(** ** MAIN *)
(* ===================================================================== *)

(** What the check mode prints, and its exit code. *)
Record CheckReport := mkReport {
  in_sync    : bool;
  fileHash   : string;
  dbHash     : string;
  reported   : list Diff;
  check_exit : Z;
}.

Definition check_mode (fileTasks dbTasks : list Task) : CheckReport :=
  let diffs := diffTasks fileTasks dbTasks in
  match diffs with
  | [] => mkReport true (hashTasks fileTasks) (hashTasks dbTasks) [] 0
  | _ => mkReport false (hashTasks fileTasks) (hashTasks dbTasks) diffs 1
  end.

(** A whole invocation at clock reading [now]: the directory and the
    database it leaves, and the exit code. *)
Definition main (mode : Mode) (now : Z) (fs : FS) (db : Db) : FS * Db * Z :=
  match mode with
  | Check =>
      (fs, db, check_exit (check_mode (parseAllFiles fs) (getDbTasks db)))
  | FilesToDb =>
      match acquireLock mode now db with
      | (db1, Locked _ _) => (fs, db1, 1)
      | (db1, Acquired) =>
          let fileTasks := parseAllFiles fs in
          let dbTasks := getDbTasks db1 in
          let diffs := diffTasks fileTasks dbTasks in
          match syncFilesToDb now fs fileTasks dbTasks diffs db1 with
          | (db2, Ok _) => (fs, releaseLock "ok" now db2, 0)
          | (db2, Throw e) => (fs, releaseLock ("failed: " ++ e) now db2, 1)
          end
      end
  | DbToFiles =>
      match acquireLock mode now db with
      | (db1, Locked _ _) => (fs, db1, 1)
      | (db1, Acquired) =>
          let '(fs', _) := projectDbToFiles (getDbTasks db1) fs db1 in
          (fs', releaseLock "ok" now db1, 0)
      end
  end.

(** [handleSignal]: the release is attempted only when this process holds
    the flag [lockAcquired]; the exit code follows the signal. *)
Definition handleSignal (signal : string) (lockAcquired : bool) (now : Z) (db : Db) : Db * Z :=
  (if lockAcquired then releaseLock ("interrupted: " ++ signal) now db else db,
   if String.eqb signal "SIGTERM" then 0 else 130).

(* ===================================================================== *)
(** ** scripts/init-db.mjs: splitStatements *)
(* ===================================================================== *)

Module InitDb.

(** [sql.replace(/--[^\n]*/g, '')].  The matches are found from left to
    right and do not overlap: outside a comment, two hyphens open one;
    inside ([in_comment]), everything up to the next line feed belongs to
    it and is dropped with it. *)
Fixpoint strip_comments (in_comment : bool) (sql : string) : string :=
  match sql with
  | EmptyString => EmptyString
  | String c rest =>
      if in_comment then
        if N.eqb (JS.code c) 10 then String c (strip_comments false rest)
        else strip_comments true rest
      else
        match rest with
        | String d _ =>
            if (Ascii.eqb c "-" && Ascii.eqb d "-")%bool then strip_comments true rest
            else String c (strip_comments false rest)
        | EmptyString => String c EmptyString
        end
  end.

(** [s.split(sep)] for a separator of one character. *)
Fixpoint split (sep : ascii) (s : string) : list string :=
  match s with
  | EmptyString => [EmptyString]
  | String c rest =>
      if Ascii.eqb c sep then EmptyString :: split sep rest
      else match split sep rest with
           | piece :: pieces => String c piece :: pieces
           | [] => [String c EmptyString]
           end
  end.

(** [stripped.split(';').map(s => s.trim()).filter(s => s.length > 0)] *)
Definition splitStatements (sql : string) : list string :=
  filter (fun s => negb (String.eqb s ""))
         (map JS.trim (split ";" (strip_comments false sql))).

End InitDb.

(* ===================================================================== *)
(** ** scripts/apple-notes-export.mjs: escapeHtml, ul *)
(* ===================================================================== *)

Module AppleNotes.

(** The double quote, code unit 34. *)
Definition DQ : ascii := ascii_of_N 34.

(** [s.replace(/c/g, by)] for a pattern of one character. *)
Fixpoint replace_char (c : ascii) (by_ : string) (s : string) : string :=
  match s with
  | EmptyString => EmptyString
  | String x rest =>
      if Ascii.eqb x c then by_ ++ replace_char c by_ rest
      else String x (replace_char c by_ rest)
  end.

Definition escapeHtml (str : string) : string :=
  replace_char DQ "&quot;"
    (replace_char ">" "&gt;"
       (replace_char "<" "&lt;"
          (replace_char "&" "&amp;" str))).

(** One item of the list: the template literal of [ul]. *)
Definition li (i : string) : string := "<li>" ++ escapeHtml i ++ "</li>".

Definition ul (items : list string) : string :=
  match items with
  | [] => "<ul><li><span style=" ++ String DQ ("color:#666;" ++ String DQ ">None</span></li></ul>")
  | _ => "<ul>" ++ JS.join "" (map li items) ++ "</ul>"
  end.

End AppleNotes.

(* ===================================================================== *)
(** ** Vocabulary of the properties *)
(* ===================================================================== *)

(** The fields the fingerprint projects, an absent owner or note counting
    as the empty one (what [x || ''] makes of it). *)
Definition Fields : Type := string * string * string * string * string * string.

Definition hashed_fields (t : Task) : Fields :=
  (id t, status t, priority t, JS.or_empty (owner_model t), title t, JS.or_empty (notes t)).

Definition fields_id (f : Fields) : string :=
  let '(i, _, _, _, _, _) := f in i.

Definition fields_line (f : Fields) : string :=
  let '(i, st, p, o, ti, n) := f in
  i ++ "|" ++ st ++ "|" ++ p ++ "|" ++ o ++ "|" ++ ti ++ "|" ++ n.

(** The fields the diff compares, with the same reading of the owner. *)
Definition compared_fields (t : Task) : string * string * string * string * string :=
  (id t, status t, priority t, JS.or_empty (owner_model t), title t).

Definition no_char (c : ascii) (s : string) : bool :=
  JS.all_chars (fun x => negb (Ascii.eqb x c)) s.

Definition LFc : ascii := ascii_of_N 10.

(** A record whose projected fields hold neither the field delimiter nor
    the record delimiter of the canonical text (the note, which comes last,
    may hold the field delimiter). *)
Definition plain_fields (f : Fields) : bool :=
  let '(i, st, p, o, ti, n) := f in
  (no_char "|" i && no_char LFc i && no_char "|" st && no_char LFc st
   && no_char "|" p && no_char LFc p && no_char "|" o && no_char LFc o
   && no_char "|" ti && no_char LFc ti && no_char LFc n)%bool.

Definition plain_task (t : Task) : bool := plain_fields (hashed_fields t).

Definition drop_note (f : Fields) : string * string * string * string * string :=
  let '(i, st, p, o, ti, _) := f in (i, st, p, o, ti).


(** The record an entry of the diff writes to the store, if any. *)
Definition target (d : Diff) : list Task :=
  match d with
  | file_only _ t | changed _ _ t _ => [t]
  | db_only _ _ => []
  end.

Definition row_id (r : TaskRow) : string := id (row_task r).

(** The rows whose id is not among [ids]. *)
Definition rows_outside (ids : list string) (rows : list TaskRow) : list TaskRow :=
  filter (fun r => negb (mem_string (row_id r) ids)) rows.

(** The store holds [t]'s id with [t]'s compared fields. *)
Definition synced (t : Task) (rows : list TaskRow) : Prop :=
  exists r, find_row (id t) rows = Some r /\ field_changes t (row_task r) = [].


(** *** Records the canonical text can carry *)

Definition id_ok (i : string) : bool :=
  (negb (String.eqb i "") && JS.all_chars Re.id_char i)%bool.

(** A title as the parser delivers one: not empty, on one line, with no
    white space at either end. *)
Definition tidy_title (s : string) : bool :=
  (negb (String.eqb s "") && JS.all_chars Re.dot s && String.eqb (JS.trim s) s)%bool.

Definition starts_with_bracket (s : string) : bool :=
  match s with
  | String "["%char _ => true
  | _ => false
  end.

(** An owner tag: on one line, without a closing bracket, and not of the
    form of a priority. *)
Definition tag_ok (o : string) : bool :=
  (JS.all_chars Re.not_rbracket o && JS.all_chars Re.dot o && negb (Re.PRIORITY_RE o))%bool.

(** A stored task the projector's line format can carry: id over
    [a-z0-9-], priority of the form [P<digit>], one of the five statuses, a
    tidy title, an owner that is a proper tag (or no owner, and then a title
    that does not open with a bracket), a note on one line. *)
Definition well_formed (t : Task) : bool :=
  (id_ok (id t) && Re.PRIORITY_RE (priority t) && mem_string (status t) STATUS_ORDER
   && tidy_title (title t)
   && (if JS.truthy (owner_model t) then tag_ok (JS.or_empty (owner_model t))
       else negb (starts_with_bracket (title t)))
   && JS.all_chars Re.dot (JS.or_empty (notes t)))%bool.

(** The task line of [render_task], without its line feed. *)
Definition task_text (t : Task) : string :=
  "- " ++ (if String.eqb (status t) "done" then "[x]" else "[ ]")
       ++ " (task:" ++ id t ++ ") [" ++ priority t ++ "]"
       ++ (if JS.truthy (owner_model t) then " [" ++ JS.or_empty (owner_model t) ++ "]" else "")
       ++ " " ++ title t.

(** The lines a task, a section and the five sections are rendered as. *)
Definition task_lines (t : Task) : list string :=
  task_text t :: (if JS.truthy (notes t) then ["  - note: " ++ JS.or_empty (notes t)] else []).

Definition section_lines (tasks : list Task) (section : string) : list string :=
  ("## " ++ STATUS_HEADERS section)
    :: (flat_map task_lines (section_tasks tasks section) ++ [""])%list.

Definition body_lines (tasks : list Task) : list string :=
  flat_map (section_lines tasks) STATUS_ORDER.

(** Each line followed by a line feed. *)
Fixpoint unlines (ls : list string) : string :=
  match ls with
  | [] => ""
  | l :: rest => l ++ LF ++ unlines rest
  end.

(** The lines a preamble [h] contributes to a file in which a line feed
    follows it: those of [split_lines_from cur h], a carriage return at the
    very end of [h] joining that line feed. *)
Fixpoint lines_before (cur : string) (h : string) : list string :=
  match h with
  | EmptyString => [JS.rev_string EmptyString cur]
  | String c h' =>
      if N.eqb (JS.code c) 10 then JS.rev_string EmptyString cur :: lines_before EmptyString h'
      else if N.eqb (JS.code c) 13 then
        match h' with
        | String d h'' =>
            if N.eqb (JS.code d) 10
            then JS.rev_string EmptyString cur :: lines_before EmptyString h''
            else lines_before (String c cur) h'
        | EmptyString => [JS.rev_string EmptyString cur]
        end
      else lines_before (String c cur) h'
  end.

(** A preamble none of whose lines opens a section. *)
Definition preamble_ok (h : string) : bool :=
  forallb (fun l => negb (JS.startsWith l "## ")) (lines_before EmptyString h).

(** The same, read off the text: [## ] stands neither at its start nor
    after one of its line feeds. *)
Fixpoint heads_ok (h : string) : bool :=
  match h with
  | EmptyString => true
  | String c h' =>
      ((if N.eqb (JS.code c) 10 then negb (String.prefix "## " h') else true)
       && heads_ok h')%bool
  end.

Definition no_section_start (h : string) : bool :=
  (negb (String.prefix "## " h) && heads_ok h)%bool.

(** A project id that names a file of the tasks directory: no line feed,
    no path separator. *)
Definition slug_ok (slug : string) : bool :=
  (no_char LFc slug && no_char "/" slug)%bool.

(** The name of a project's file and what the projector writes into it. *)
Definition file_name (slug : string) : string := slug ++ "-tasks.md".

Definition file_content (fs : FS) (dbTasks : list Task) (slug : string) : string :=
  render_project (project_header (read_headers fs) slug)
                 (project_tasks (group_by_project dbTasks) slug).

(** The writes of the projector's last loop, one after the other. *)
Definition write_all (files : list (string * string)) (fs : FS) : FS :=
  fold_left (fun f e => write_file (fst e) (snd e) f) files fs.

(** The tasks directory holds no task file of a project the store does not
    know. *)
Definition no_stale_files (fs : FS) (slugs : list string) : Prop :=
  forall n c, In (n, c) fs -> is_task_file n = true -> In (slug_of n) slugs.

(** *** Relations and notions used by the proofs *)

(** The comparison of two records by a string key. *)
Definition by_key {A : Type} (key : A -> string) (a b : A) : comparison :=
  String.compare (key a) (key b).

Definition stops (p : ascii -> bool) (rest : string) : Prop :=
  match rest with
  | EmptyString => True
  | String c _ => p c = false
  end.

(** A script keeps a relation between the database it starts from and the
    one it leaves, however it ends. *)
Definition keeps (R : Db -> Db -> Prop) {A : Type} (m : Script A) : Prop :=
  forall db, R db (fst (m db)).

Definition same_outside (ids : list string) (db db' : Db) : Prop :=
  rows_outside ids (tasks db') = rows_outside ids (tasks db).

Definition keys_ok (db db' : Db) : Prop :=
  NoDup (map row_id (tasks db)) -> NoDup (map row_id (tasks db')).

(** The columns of a database that a relation on one table ignores. *)
Definition same_rest (db db' : Db) : Prop :=
  tasks db' = tasks db /\ sync_state db' = sync_state db.

Definition same_projects_sync (db db' : Db) : Prop :=
  projects db' = projects db /\ sync_state db' = sync_state db.

(** What the first loop of [diffTasks] makes of one entry of [fileMap]. *)
Definition file_side_entry (dbMap : JsMap Task) (e : string * Task) : list Diff :=
  match map_get (fst e) dbMap with
  | None => [file_only (fst e) (snd e)]
  | Some dt =>
      match field_changes (snd e) dt with
      | [] => []
      | changes => [changed (fst e) changes (snd e) dt]
      end
  end.

Definition task_match (t : Task) : Re.TaskMatch :=
  Re.mkMatch (if String.eqb (status t) "done" then "x"%char else " "%char)
             (id t) (Some (priority t))
             (if JS.truthy (owner_model t) then Some (JS.or_empty (owner_model t)) else None)
             (title t).

(** *** Texts the store hands back whole *)

(** The code unit 0. *)
Definition NULc : ascii := ascii_of_N 0.

Definition no_nul (s : string) : bool := no_char NULc s.

Definition no_nul_opt (o : option string) : bool :=
  match o with Some s => no_nul s | None => true end.

(** No column of the record holds a NUL. *)
Definition task_no_nul (t : Task) : bool :=
  (no_nul (id t) && no_nul (project_id t) && no_nul (title t) && no_nul (status t)
   && no_nul (priority t) && no_nul_opt (owner_model t) && no_nul_opt (notes t)
   && no_nul (source_file t))%bool.

(** No column the script selects holds a NUL: the eight columns of
    [getDbTasks] and the ids of [projects]. *)
Definition store_no_nul (db : Db) : bool :=
  (forallb (fun r => task_no_nul (row_task r)) (tasks db)
   && forallb (fun p => no_nul (p_id p)) (projects db))%bool.

(** What is left holds no NUL when what was found held none. *)
Definition keeps_no_nul (db db' : Db) : Prop :=
  store_no_nul db = true -> store_no_nul db' = true.

(** *** What the parser can deliver *)

(** The shape of a record read from the file of project [slug]: the id is
    over [a-z0-9-], project and source file are those of the file, the title
    is on one line and trimmed, the priority is the default or a tag of the
    form [P<digit>], an owner is a non-empty tag of another form, a note is
    on one line and trimmed, and the status is what [STATUS_MAP] gives for
    some heading. *)
Definition parsed_shape (slug : string) (t : Task) : Prop :=
  id_ok (id t) = true
  /\ project_id t = slug
  /\ source_file t = "tasks/" ++ slug ++ "-tasks.md"
  /\ JS.all_chars Re.dot (title t) = true
  /\ JS.trim (title t) = title t
  /\ (priority t = "P2" \/ Re.PRIORITY_RE (priority t) = true)
  /\ (forall o, owner_model t = Some o ->
        o <> "" /\ Re.PRIORITY_RE o = false /\ JS.all_chars Re.not_rbracket o = true)
  /\ (forall n, notes t = Some n -> JS.all_chars Re.dot n = true /\ JS.trim n = n)
  /\ (exists h, STATUS_MAP h = Some (status t)).

(** *** Fingerprints and diffs *)

(** A lower-case hexadecimal digit. *)
Definition is_hex (c : ascii) : bool := (JS.is_digit c || JS.in_range 97 102 c)%bool.

Definition is_file_only (d : Diff) : bool :=
  match d with file_only _ _ => true | _ => false end.

Definition is_changed (d : Diff) : bool :=
  match d with changed _ _ _ _ => true | _ => false end.

(** *** Line ends *)

Definition CRc : ascii := ascii_of_N 13.

(** Every carriage return of the text is followed by a line feed: the text
    has Unix or Windows line ends. *)
Fixpoint crlf_only (s : string) : bool :=
  match s with
  | EmptyString => true
  | String c s' =>
      ((if N.eqb (JS.code c) 13
        then match s' with
             | String d _ => N.eqb (JS.code d) 10
             | EmptyString => false
             end
        else true) && crlf_only s')%bool
  end.

(** [content] with Windows line ends: a carriage return in front of every
    line feed. *)
Fixpoint to_crlf (s : string) : string :=
  match s with
  | EmptyString => EmptyString
  | String c rest =>
      if Ascii.eqb c LFc then String CRc (String LFc (to_crlf rest))
      else String c (to_crlf rest)
  end.

(** *** SQL text *)

(** No two hyphens in a row: the text holds no comment opener. *)
Fixpoint no_double_dash (s : string) : bool :=
  match s with
  | EmptyString => true
  | String c rest =>
      (match rest with
       | String d _ => negb (Ascii.eqb c "-" && Ascii.eqb d "-")
       | EmptyString => true
       end && no_double_dash rest)%bool
  end.

(** A statement as [splitStatements] delivers one: not empty, trimmed, with
    neither a semicolon nor a comment opener. *)
Definition statement_ok (s : string) : Prop :=
  s <> "" /\ JS.trim s = s /\ no_char ";" s = true /\ no_double_dash s = true.

(** The text ends with a hyphen. *)
Fixpoint ends_with_dash (s : string) : bool :=
  match s with
  | EmptyString => false
  | String c rest =>
      match rest with
      | EmptyString => Ascii.eqb c "-"
      | String _ _ => ends_with_dash rest
      end
  end.

(** *** Escaped text *)

(** What [escapeHtml] makes of one character. *)
Definition escape_char (c : ascii) : string :=
  if Ascii.eqb c "&" then "&amp;"
  else if Ascii.eqb c "<" then "&lt;"
  else if Ascii.eqb c ">" then "&gt;"
  else if Ascii.eqb c AppleNotes.DQ then "&quot;"
  else String c EmptyString.

(* ===================================================================== *)
(** ** Sample workspace *)
(* ===================================================================== *)

Module Sample.

Definition blank_sync : SyncState := mkSync None None None None None None.

Definition t1 : Z := 1771589100000.   (* 2026-02-20T12:05:00.000Z *)
Definition t2 : Z := 1771632000000.   (* 2026-02-21T00:00:00.000Z *)

Definition proj : Project :=
  mkProject "proj" "Proj" "" "active" "tasks/proj-tasks.md" "2026-02-19T08:00:00.000Z".

Definition old_proj : Project :=
  mkProject "old" "Old" "" "paused" "tasks/old-tasks.md" "2026-02-19T08:00:00.000Z".

(** [proj-001] as stored: in the backlog, with a note. *)
Definition row1 : TaskRow :=
  mkRow (mkTask "proj-001" "proj" "Wire up retries." "backlog" "P2" None
                (Some "ask ops first") "tasks/proj-tasks.md")
        None "2026-02-19T08:00:00.000Z" "2026-02-19T08:00:00.000Z".

(** A task of a project that has no file any more. *)
Definition row_old : TaskRow :=
  mkRow (mkTask "old-007" "old" "Archive logs" "blocked" "P3" (Some "codex") None
                "tasks/old-tasks.md")
        None "2026-02-19T08:00:00.000Z" "2026-02-19T08:00:00.000Z".

Definition db_empty : Db := mkDb [] [] [] (Some blank_sync).

Definition db_one : Db := mkDb [proj; old_proj] [row1; row_old] [] (Some blank_sync).

Definition file (body : string) : FS := [("proj-tasks.md", "# Tasks: proj" ++ LF ++ LF ++ body)].

(** The text as first written: [proj-001] in the backlog, no note line. *)
Definition fs_backlog : FS :=
  file ("## Backlog" ++ LF ++ "- [ ] (task:proj-001) [P2] Wire up retries." ++ LF).

Definition fs_in_progress : FS :=
  file ("## In Progress" ++ LF ++ "- [ ] (task:proj-001) [P2] Wire up retries." ++ LF).

Definition fs_done : FS :=
  file ("## Done" ++ LF ++ "- [x] (task:proj-001) [P2] Wire up retries." ++ LF).

(** The task moved to In Progress, its note line blanked but not removed. *)
Definition fs_blank_note : FS :=
  file ("## In Progress" ++ LF ++ "- [ ] (task:proj-001) [P2] Wire up retries." ++ LF
        ++ "  - note: " ++ LF).

(** ... and with a new note. *)
Definition fs_new_note : FS :=
  file ("## In Progress" ++ LF ++ "- [ ] (task:proj-001) [P2] Wire up retries." ++ LF
        ++ "  - note: ops agreed" ++ LF).

(** Two new tasks, the second with a priority tag the schema refuses. *)
Definition fs_bad_priority : FS :=
  file ("## Backlog" ++ LF ++ "- [ ] (task:proj-001) [P2] Wire up retries." ++ LF
        ++ "- [ ] (task:proj-002) [P5] Add metrics" ++ LF).

(** A task whose title opens with a bracket and which has no owner, as the
    parser reads it from a line with two priority tags. *)
Definition fs_bracket_title : FS :=
  file ("## Done" ++ LF ++ "- [x] (task:proj-002) [P2] [P1] [WIP] fix" ++ LF).

Definition task_a : Task :=
  mkTask "proj-001" "proj" "Wire up retries." "backlog" "P2" None (Some "ask ops first")
         "tasks/proj-tasks.md".

Definition task_b : Task :=
  mkTask "proj-002" "proj" "Add metrics" "done" "P1" (Some "codex") None
         "tasks/proj-tasks.md".

Definition task_c : Task :=
  mkTask "proj-003" "proj" "[infra] rotate keys" "backlog" "P0" (Some "sonnet") None
         "tasks/proj-tasks.md".

End Sample.

(* ===================================================================== *)
(** * Properties *)
(* ===================================================================== *)

(** ** The lock *)

Lemma compare_common_prefix (d a b : string) :
  String.compare (d ++ a) (d ++ b) = String.compare a b.
Proof.
  induction d as [|c d IH]; simpl; [reflexivity|].
  unfold Ascii.compare. rewrite N.compare_refl. exact IH.
Qed.

(** An ISO text never sorts before a [datetime] text of the same calendar
    day: after the common date, ["T"] is met against the blank. *)
Lemma iso_not_before_datetime_same_day (u now : Z) :
  Clock.date_text u = Clock.date_text now ->
  sql_text_lt (Some (Clock.toISOString u)) (Clock.sqlite_datetime now) = false.
Proof.
  intros Hd. unfold sql_text_lt, String.ltb, Clock.toISOString, Clock.sqlite_datetime.
  rewrite Hd, compare_common_prefix. reflexivity.
Qed.

Lemma acquireLock_when_free (m : Mode) (now : Z) (db : Db) :
  lock_free now (singleton_row (sync_state db)) = true ->
  acquireLock m now db =
    (let r := singleton_row (sync_state db) in
     set_sync db (Some (mkSync (files_hash r) (db_hash r) (last_sync_at r)
                               (Some ("task-sync:" ++ mode_name m))
                               (Some (Clock.toISOString (now + 60000)))
                               (last_result r))),
     Acquired).
Proof. intros H. unfold acquireLock. rewrite H. reflexivity. Qed.

Lemma acquireLock_when_held (m : Mode) (now : Z) (db : Db) :
  lock_free now (singleton_row (sync_state db)) = false ->
  acquireLock m now db =
    (set_sync db (Some (singleton_row (sync_state db))),
     Locked (lock_owner (singleton_row (sync_state db)))
            (lock_until (singleton_row (sync_state db)))).
Proof. intros H. unfold acquireLock. rewrite H. reflexivity. Qed.

(** With no owner recorded the acquisition always succeeds. *)
Lemma acquireLock_no_owner (m : Mode) (now : Z) (db : Db) :
  lock_owner (singleton_row (sync_state db)) = None ->
  snd (acquireLock m now db) = Acquired.
Proof.
  intros H. rewrite acquireLock_when_free; [reflexivity|].
  unfold lock_free. rewrite H. reflexivity.
Qed.

(** A lease taken by [acquireLock] blocks every later attempt made on the
    calendar day (UTC) on which it expires, however long ago it expired. *)
Lemma lease_blocks_until_next_day (m m' : Mode) (t0 now : Z) (db : Db) :
  snd (acquireLock m t0 db) = Acquired ->
  Clock.date_text (t0 + 60000) = Clock.date_text now ->
  snd (acquireLock m' now (fst (acquireLock m t0 db))) =
    Locked (Some ("task-sync:" ++ mode_name m)) (Some (Clock.toISOString (t0 + 60000))).
Proof.
  intros Hacq Hday.
  destruct (lock_free t0 (singleton_row (sync_state db))) eqn:Hfree.
  - rewrite (acquireLock_when_free m t0 db Hfree). cbn [fst].
    rewrite acquireLock_when_held; [reflexivity|].
    unfold lock_free. cbn.
    apply (iso_not_before_datetime_same_day (t0 + 60000) now Hday).
  - rewrite (acquireLock_when_held m t0 db Hfree) in Hacq. discriminate.
Qed.

(** C1 (evaluation at the failing input).  A files-to-db run takes the
    lease at 11:59:00 on 2026-02-20 and is killed without releasing it; the
    lease expires at 12:00:00.  At 12:05:00, five minutes after the expiry,
    a new acquisition is still refused and reports that lease: the expiry
    is stored in the ISO form and compared, as text, with SQLite's
    [datetime('now')] form. *)
Theorem C1_expired_lease_still_blocks :
  let db0 := mkDb [] [] [] (Some (mkSync None None None None None None)) in
  let t0 := 1771588740000 in          (* 2026-02-20T11:59:00.000Z *)
  let now := 1771589100000 in         (* 2026-02-20T12:05:00.000Z *)
  let held := fst (acquireLock FilesToDb t0 db0) in
  snd (acquireLock FilesToDb t0 db0) = Acquired
  /\ sync_state held =
       Some (mkSync None None None (Some "task-sync:files-to-db")
                    (Some "2026-02-20T12:00:00.000Z") None)
  /\ t0 + 60000 < now
  /\ Clock.sqlite_datetime now = "2026-02-20 12:05:00"
  /\ acquireLock FilesToDb now held =
       (held, Locked (Some "task-sync:files-to-db") (Some "2026-02-20T12:00:00.000Z")).
Proof. vm_compute. repeat split; reflexivity. Qed.

(** C10.  [releaseLock] clears owner and expiry and records result and
    time whatever lease the row holds, without a look at who holds it; so a
    signal-path release by a run whose own lease has lapsed (A, taken at
    23:58:59 and expired at 23:59:59) clears the lease another run has taken
    since (B, at 00:00:00), and a third run then gets in while B's lease is
    still running. *)
Theorem C10_release_is_unconditional :
  (forall (result : string) (now : Z) ps ts trs (r : SyncState),
      releaseLock result now (mkDb ps ts trs (Some r)) =
        mkDb ps ts trs
             (Some (mkSync (files_hash r) (db_hash r) (Some (Clock.toISOString now))
                           None None (Some result))))
  /\ (let db0 := mkDb [] [] [] (Some (mkSync None None None None None None)) in
      let tA := 1771631939000 in      (* 2026-02-20T23:58:59Z: run A starts *)
      let tB := 1771632000000 in      (* 2026-02-21T00:00:00Z: run B starts *)
      let tS := 1771632005000 in      (* five seconds later: A is signalled *)
      let dbA := fst (acquireLock DbToFiles tA db0) in
      let dbB := fst (acquireLock FilesToDb tB dbA) in
      let dbS := fst (handleSignal "SIGTERM" true tS dbB) in
      snd (acquireLock DbToFiles tA db0) = Acquired
      /\ option_map lock_until (sync_state dbA) = Some (Some "2026-02-20T23:59:59.000Z")
      /\ snd (acquireLock FilesToDb tB dbA) = Acquired
      /\ option_map lock_owner (sync_state dbB) = Some (Some "task-sync:files-to-db")
      /\ option_map lock_until (sync_state dbB) = Some (Some "2026-02-21T00:01:00.000Z")
      /\ option_map lock_owner (sync_state dbS) = Some None
      /\ option_map lock_until (sync_state dbS) = Some None
      /\ option_map last_result (sync_state dbS) = Some (Some "interrupted: SIGTERM")
      /\ snd (acquireLock FilesToDb tS dbS) = Acquired).
Proof.
  split.
  - intros. reflexivity.
  - vm_compute. repeat split; reflexivity.
Qed.

(** ** Order of strings *)

Lemma ascii_compare_refl (c : ascii) : Ascii.compare c c = Eq.
Proof. unfold Ascii.compare. apply N.compare_refl. Qed.

Lemma ascii_compare_lt_trans (a b c : ascii) :
  Ascii.compare a b = Lt -> Ascii.compare b c = Lt -> Ascii.compare a c = Lt.
Proof.
  unfold Ascii.compare. rewrite !N.compare_lt_iff. apply N.lt_trans.
Qed.

Lemma string_compare_refl (s : string) : String.compare s s = Eq.
Proof.
  induction s as [|c s IH]; simpl; [reflexivity|].
  rewrite ascii_compare_refl. exact IH.
Qed.

Lemma string_compare_eq (a b : string) : String.compare a b = Eq <-> a = b.
Proof.
  split; [apply String.compare_eq_iff|]. intros ->. apply string_compare_refl.
Qed.

Lemma string_compare_lt_trans (a b c : string) :
  String.compare a b = Lt -> String.compare b c = Lt -> String.compare a c = Lt.
Proof.
  revert b c. induction a as [|x a IH]; intros [|y b] [|z c]; simpl;
    try discriminate; try reflexivity.
  destruct (Ascii.compare x y) eqn:Hxy; intros H1; try discriminate H1;
    destruct (Ascii.compare y z) eqn:Hyz; intros H2; try discriminate H2.
  - apply Ascii.compare_eq_iff in Hxy, Hyz. subst.
    rewrite ascii_compare_refl. eapply IH; eassumption.
  - apply Ascii.compare_eq_iff in Hxy. subst. rewrite Hyz. reflexivity.
  - apply Ascii.compare_eq_iff in Hyz. subst. rewrite Hxy. reflexivity.
  - rewrite (ascii_compare_lt_trans _ _ _ Hxy Hyz). reflexivity.
Qed.

Lemma string_compare_gt_lt (a b : string) :
  String.compare a b = Gt <-> String.compare b a = Lt.
Proof.
  rewrite (String.compare_antisym b a).
  destruct (String.compare a b); simpl; split; congruence.
Qed.

(** [y] after [z] and [x] not after [z]: [y] is after [x]. *)
Lemma string_compare_gt_le (x y z : string) :
  String.compare y z = Gt -> String.compare x z <> Gt -> String.compare y x = Gt.
Proof.
  intros Hyz Hxz. apply string_compare_gt_lt.
  apply string_compare_gt_lt in Hyz.
  destruct (String.compare x z) eqn:E; [| |congruence].
  - apply string_compare_eq in E. subst. exact Hyz.
  - eapply string_compare_lt_trans; eassumption.
Qed.

(** ** The stable sort on records with distinct keys *)

Section SortByKey.
Context {A : Type} (key : A -> string).

Lemma insert_perm (x : A) (l : list A) : Permutation (insert (by_key key) x l) (x :: l).
Proof.
  induction l as [|y l IH]; simpl; [reflexivity|].
  destruct (by_key key x y); try reflexivity.
  rewrite IH. apply perm_swap.
Qed.

Lemma sort_perm (l : list A) : Permutation (sort (by_key key) l) l.
Proof.
  induction l as [|x l IH]; simpl; [reflexivity|].
  rewrite insert_perm. constructor. exact IH.
Qed.

Lemma insert_insert (x y : A) (l : list A) :
  key x <> key y ->
  insert (by_key key) x (insert (by_key key) y l) = insert (by_key key) y (insert (by_key key) x l).
Proof.
  intros Hne. induction l as [|z l IH].
  - simpl. unfold by_key. rewrite (String.compare_antisym (key y) (key x)).
    destruct (String.compare (key x) (key y)) eqn:E; simpl; try reflexivity.
    apply string_compare_eq in E. congruence.
  - simpl.
    destruct (by_key key y z) eqn:Hyz; destruct (by_key key x z) eqn:Hxz; simpl;
      rewrite ?Hyz, ?Hxz; unfold by_key in *;
      try (rewrite IH; reflexivity);
      try (rewrite (String.compare_antisym (key y) (key x));
           destruct (String.compare (key x) (key y)) eqn:E; simpl;
           [apply string_compare_eq in E; congruence | reflexivity | reflexivity]).
    + rewrite (string_compare_gt_le (key y) (key x) (key z)) by congruence.
      reflexivity.
    + rewrite (string_compare_gt_le (key y) (key x) (key z)) by congruence.
      reflexivity.
    + rewrite (string_compare_gt_le (key x) (key y) (key z)) by congruence.
      reflexivity.
    + rewrite (string_compare_gt_le (key x) (key y) (key z)) by congruence.
      reflexivity.
Qed.

(** With distinct keys the result of the sort does not depend on the order
    of the input. *)
Lemma sort_perm_unique (l1 l2 : list A) :
  Permutation l1 l2 -> NoDup (map key l1) -> sort (by_key key) l1 = sort (by_key key) l2.
Proof.
  induction 1 as [|x l l' Hp IH|x y l|l l' l'' Hp1 IH1 Hp2 IH2]; intros Hnd; simpl.
  - reflexivity.
  - inversion Hnd; subst. rewrite IH by assumption. reflexivity.
  - inversion Hnd as [|? ? Hy Hnd']; subst. apply insert_insert.
    intros E. apply Hy. simpl. left. symmetry. exact E.
  - rewrite IH1 by assumption. apply IH2.
    eapply Permutation_NoDup; [|exact Hnd]. apply Permutation_map. exact Hp1.
Qed.
End SortByKey.

(** The sort commutes with a map that preserves the comparison. *)
Lemma sort_map {A B : Type} (f : A -> B) (ca : A -> A -> comparison)
      (cb : B -> B -> comparison) :
  (forall x y, cb (f x) (f y) = ca x y) ->
  forall l, map f (sort ca l) = sort cb (map f l).
Proof.
  intros Hc.
  assert (Hi : forall x l, map f (insert ca x l) = insert cb (f x) (map f l)).
  { intros x l. induction l as [|y l IH]; simpl; [reflexivity|].
    rewrite Hc. destruct (ca x y); simpl; try reflexivity. rewrite IH. reflexivity. }
  induction l as [|x l IH]; simpl; [reflexivity|].
  rewrite Hi, IH. reflexivity.
Qed.

(** ** The fingerprint *)

Lemma hash_line_fields (t : Task) : hash_line t = fields_line (hashed_fields t).
Proof. reflexivity. Qed.

Lemma hash_data_fields (l : list Task) :
  hash_data l = JS.join LF (map fields_line (map hashed_fields (sort by_id l))).
Proof. unfold hash_data. rewrite map_map. reflexivity. Qed.

Lemma fields_id_hashed (l : list Task) : map fields_id (map hashed_fields l) = map id l.
Proof. rewrite map_map. reflexivity. Qed.

(** Sorting by id and then projecting is sorting the projections. *)
Lemma hashed_fields_sort (l : list Task) :
  map hashed_fields (sort by_id l) = sort (by_key fields_id) (map hashed_fields l).
Proof. apply sort_map. intros x y. reflexivity. Qed.

Lemma sorted_fields_of_perm (l1 l2 : list Task) :
  NoDup (map id l1) ->
  Permutation (map hashed_fields l1) (map hashed_fields l2) ->
  map hashed_fields (sort by_id l1) = map hashed_fields (sort by_id l2).
Proof.
  intros Hnd Hp. rewrite !hashed_fields_sort.
  apply sort_perm_unique; [exact Hp|]. rewrite fields_id_hashed. exact Hnd.
Qed.

Lemma perm_of_sorted_fields (l1 l2 : list Task) :
  map hashed_fields (sort by_id l1) = map hashed_fields (sort by_id l2) ->
  Permutation (map hashed_fields l1) (map hashed_fields l2).
Proof.
  intros E.
  rewrite <- (Permutation_map hashed_fields (sort_perm id l1)).
  rewrite <- (Permutation_map hashed_fields (sort_perm id l2)).
  change (by_key id) with by_id. rewrite E. reflexivity.
Qed.

(** *** The canonical text determines the fields of plain records *)

Lemma no_char_cons (c x : ascii) (s : string) :
  no_char c (String x s) = true -> x <> c /\ no_char c s = true.
Proof.
  unfold no_char. simpl. intros H. apply andb_true_iff in H. destruct H as [H1 H2].
  split; [|exact H2]. intros ->. rewrite Ascii.eqb_refl in H1. discriminate.
Qed.

Lemma app_delim_inj (c : ascii) (a a' r r' : string) :
  no_char c a = true -> no_char c a' = true ->
  a ++ String c r = a' ++ String c r' -> a = a' /\ r = r'.
Proof.
  revert a'. induction a as [|x a IH]; intros [|y a'] Ha Ha' E; simpl in E.
  - injection E as ->. split; reflexivity.
  - injection E as E1 E2. apply no_char_cons in Ha'. destruct Ha' as [Hy _].
    congruence.
  - injection E as E1 E2. apply no_char_cons in Ha. destruct Ha as [Hx _].
    congruence.
  - injection E as E1 E2. subst y.
    apply no_char_cons in Ha. apply no_char_cons in Ha'.
    destruct (IH a' (proj2 Ha) (proj2 Ha') E2) as [-> ->]. split; reflexivity.
Qed.

Ltac split_andb :=
  repeat match goal with
         | H : (_ && _)%bool = true |- _ =>
             apply andb_true_iff in H; destruct H
         end.

Lemma fields_line_inj (f g : Fields) :
  plain_fields f = true -> plain_fields g = true ->
  fields_line f = fields_line g -> f = g.
Proof.
  destruct f as [[[[[i st] p] o] ti] n], g as [[[[[i' st'] p'] o'] ti'] n'].
  unfold plain_fields, fields_line. intros Hf Hg E. split_andb.
  repeat match goal with
         | E : (?a ++ ?r)%string = (?a' ++ ?r')%string |- _ =>
             simpl in E; apply (app_delim_inj "|") in E; [destruct E as [-> E]|assumption|assumption]
         end.
  subst. reflexivity.
Qed.

Lemma no_char_delim (c : ascii) (a r : string) : no_char c (a ++ String c r) = false.
Proof.
  unfold no_char. induction a as [|x a IH]; simpl.
  - rewrite Ascii.eqb_refl. reflexivity.
  - rewrite IH. apply andb_false_r.
Qed.

Lemma fields_line_has_bar (f : Fields) : no_char "|" (fields_line f) = false.
Proof.
  destruct f as [[[[[i st] p] o] ti] n]. unfold fields_line. apply no_char_delim.
Qed.

Lemma no_char_app (c : ascii) (a b : string) :
  no_char c (a ++ b) = (no_char c a && no_char c b)%bool.
Proof.
  unfold no_char. induction a as [|x a IH]; simpl; [reflexivity|].
  rewrite IH. apply andb_assoc.
Qed.

Lemma no_char_app_cons (c d : ascii) (a r : string) :
  no_char c (a ++ String d r) = (no_char c a && (negb (Ascii.eqb d c) && no_char c r))%bool.
Proof. rewrite no_char_app. reflexivity. Qed.

Lemma fields_line_no_LF (f : Fields) :
  plain_fields f = true -> no_char LFc (fields_line f) = true.
Proof.
  destruct f as [[[[[i st] p] o] ti] n]. unfold plain_fields, fields_line.
  intros H. split_andb. simpl. rewrite !no_char_app_cons.
  repeat match goal with H : no_char LFc _ = true |- _ => rewrite H; clear H end.
  reflexivity.
Qed.

Lemma join_cons2 (a b : string) (l : list string) :
  JS.join LF (a :: b :: l) = a ++ String LFc (JS.join LF (b :: l)).
Proof. reflexivity. Qed.

Lemma append_nil_r (s : string) : s ++ "" = s.
Proof. induction s as [|c s IH]; simpl; [reflexivity|]. rewrite IH. reflexivity. Qed.

(** Lines without line feeds that are not empty are recovered from their
    join. *)
Lemma join_lines_inj (l1 l2 : list string) :
  Forall (fun s => no_char LFc s = true /\ s <> "") l1 ->
  Forall (fun s => no_char LFc s = true /\ s <> "") l2 ->
  JS.join LF l1 = JS.join LF l2 -> l1 = l2.
Proof.
  revert l2. induction l1 as [|a l1 IH]; intros l2 H1 H2 E.
  - destruct l2 as [|b [|b' l2]]; [reflexivity| |].
    + inversion H2 as [|? ? [_ Hb] _]; subst. simpl in E. congruence.
    + inversion H2 as [|? ? [_ Hb] _]; subst. rewrite join_cons2 in E.
      simpl in E. destruct b; [congruence|discriminate].
  - inversion H1 as [|? ? [Ha Hane] H1']; subst.
    destruct l2 as [|b l2].
    + destruct l1; simpl in E; [congruence|]. destruct a; [congruence|discriminate].
    + inversion H2 as [|? ? [Hb Hbne] H2']; subst.
      destruct l1 as [|a' l1], l2 as [|b' l2].
      * simpl in E. congruence.
      * rewrite join_cons2 in E. simpl in E. subst a.
        rewrite no_char_app in Ha. apply andb_true_iff in Ha. destruct Ha as [_ Ha].
        unfold no_char in Ha. simpl in Ha. discriminate.
      * rewrite join_cons2 in E. simpl in E. subst b.
        rewrite no_char_app in Hb. apply andb_true_iff in Hb. destruct Hb as [_ Hb].
        unfold no_char in Hb. simpl in Hb. discriminate.
      * rewrite !join_cons2 in E.
        apply app_delim_inj in E; [|assumption|assumption].
        destruct E as [-> E]. f_equal. apply IH; assumption.
Qed.

Lemma plain_sorted (l : list Task) :
  Forall (fun t => plain_task t = true) l ->
  Forall (fun t => plain_task t = true) (sort by_id l).
Proof.
  intros H. rewrite Forall_forall in *. intros t Ht. apply H.
  eapply Permutation_in; [apply (sort_perm id)|exact Ht].
Qed.

(** Plain records with the same canonical text agree, after the sort, on
    every projected field. *)
Lemma hash_data_inj (l1 l2 : list Task) :
  Forall (fun t => plain_task t = true) l1 ->
  Forall (fun t => plain_task t = true) l2 ->
  hash_data l1 = hash_data l2 ->
  map hashed_fields (sort by_id l1) = map hashed_fields (sort by_id l2).
Proof.
  intros H1 H2 E. rewrite !hash_data_fields in E.
  apply plain_sorted in H1, H2.
  assert (Hl : forall l, Forall (fun t => plain_task t = true) l ->
               Forall (fun s => no_char LFc s = true /\ s <> "")
                      (map fields_line (map hashed_fields l))).
  { intros l Hl. rewrite map_map. apply Forall_map.
    eapply Forall_impl; [|exact Hl]. intros t Ht. split.
    - apply (fields_line_no_LF (hashed_fields t)). exact Ht.
    - intros E0. pose proof (fields_line_has_bar (hashed_fields t)) as Hb.
      rewrite E0 in Hb. discriminate. }
  apply join_lines_inj in E; [|apply Hl; assumption|apply Hl; assumption].
  revert E. generalize (sort by_id l1) (sort by_id l2) H1 H2. clear.
  induction l as [|a l IH]; intros [|b l'] Ha Hb E; simpl in E; try discriminate.
  - reflexivity.
  - injection E as E1 E2. inversion Ha; inversion Hb; subst. simpl. f_equal.
    + apply fields_line_inj; assumption.
    + apply IH; assumption.
Qed.

Lemma hash_data_of_perm (l1 l2 : list Task) :
  NoDup (map id l1) ->
  Permutation (map hashed_fields l1) (map hashed_fields l2) ->
  hash_data l1 = hash_data l2.
Proof.
  intros Hnd Hp. rewrite !hash_data_fields.
  rewrite (sorted_fields_of_perm l1 l2 Hnd Hp). reflexivity.
Qed.

(** C9 (as amended).  For record sets with unique ids over [a-z0-9-], the
    alphabet of the ids the parser admits, on which [localeCompare] is the
    order of the code units: sets that agree on the projected fields (id,
    status, priority, owner, title, note), in whatever order they are
    supplied, have the same fingerprint; and sets of plain records that do
    not agree on them are digested from different canonical texts. *)
Theorem C9_fingerprint_unique_ids (l1 l2 : list Task) :
  NoDup (map id l1) ->
  forallb id_ok (map id l1) = true ->
  (Permutation (map hashed_fields l1) (map hashed_fields l2) ->
   hashTasks l1 = hashTasks l2)
  /\ (forallb id_ok (map id l2) = true ->
      forallb plain_task l1 = true -> forallb plain_task l2 = true ->
      ~ Permutation (map hashed_fields l1) (map hashed_fields l2) ->
      hash_data l1 <> hash_data l2).
Proof.
  intros Hnd _. split.
  - intros Hp. unfold hashTasks. rewrite (hash_data_of_perm l1 l2 Hnd Hp). reflexivity.
  - intros _ H1 H2 Hnp E. apply Hnp. apply perm_of_sorted_fields.
    apply hash_data_inj; try assumption.
    + apply Forall_forall. apply forallb_forall. exact H1.
    + apply Forall_forall. apply forallb_forall. exact H2.
Qed.

Lemma C9_fingerprint_unique_ids_witness :
  let a := mkTask "proj-001" "proj" "Wire up retries." "backlog" "P2" None None
                  "tasks/proj-tasks.md" in
  let b := mkTask "proj-002" "proj" "Add metrics" "done" "P1" (Some "codex") (Some "see PR")
                  "tasks/proj-tasks.md" in
  let b' := mkTask "proj-002" "proj" "Add metrics" "blocked" "P1" (Some "codex") (Some "see PR")
                   "tasks/proj-tasks.md" in
  hashTasks [a; b] = hashTasks [b; a] /\ hash_data [a; b] <> hash_data [b'; a].
Proof.
  intros a b b'.
  assert (Hnd : NoDup (map id [a; b])).
  { repeat constructor; simpl; intuition discriminate. }
  split.
  - apply (proj1 (C9_fingerprint_unique_ids [a; b] [b; a] Hnd eq_refl)). apply perm_swap.
  - apply (proj2 (C9_fingerprint_unique_ids [a; b] [b'; a] Hnd eq_refl)).
    + reflexivity.
    + reflexivity.
    + reflexivity.
    + intros Hp.
      assert (Hin : In (hashed_fields b) (map hashed_fields [b'; a])).
      { eapply Permutation_in; [exact Hp|]. right. left. reflexivity. }
      destruct Hin as [E|[E|[]]]; discriminate E.
Defined.

(** C9 (counterexample to the claim as stated).  The field delimiter is
    not escaped: a task read with title [x|y] and note [z] and one read
    with title [x] and note [y|z] differ in two projected fields and are
    digested from the same text. *)
Lemma C9_counterexample :
  let text1 := "## Backlog" ++ LF ++ "- [ ] (task:a-1) [P2] x|y" ++ LF ++ "  - note: z" in
  let text2 := "## Backlog" ++ LF ++ "- [ ] (task:a-1) [P2] x" ++ LF ++ "  - note: y|z" in
  let s1 := parseTaskFile "a-tasks.md" text1 in
  let s2 := parseTaskFile "a-tasks.md" text2 in
  map title s1 = ["x|y"] /\ map title s2 = ["x"]
  /\ map notes s1 = [Some "z"] /\ map notes s2 = [Some "y|z"]
  /\ map hashed_fields s1 <> map hashed_fields s2
  /\ hashTasks s1 = hashTasks s2.
Proof.
  vm_compute. repeat split; try reflexivity. discriminate.
Qed.

(** ** Maps built from records with distinct ids *)

Lemma map_get_app {V : Type} (k : string) (m1 m2 : JsMap V) :
  map_get k (m1 ++ m2)%list =
    match map_get k m1 with Some v => Some v | None => map_get k m2 end.
Proof.
  induction m1 as [|[k' v'] m1 IH]; simpl; [reflexivity|].
  destruct (String.eqb k k'); [reflexivity|exact IH].
Qed.

Lemma map_get_none {V : Type} (k : string) (m : JsMap V) :
  map_get k m = None <-> ~ In k (map fst m).
Proof.
  induction m as [|[k' v'] m IH]; simpl.
  - split; [intros _ []|reflexivity].
  - destruct (String.eqb_spec k k') as [->|Hne].
    + split; [discriminate|]. intros H. exfalso. apply H. left. reflexivity.
    + rewrite IH. split.
      * intros H [E|Hin]; [congruence|exact (H Hin)].
      * intros H Hin. apply H. right. exact Hin.
Qed.

Lemma map_set_fresh {V : Type} (k : string) (v : V) (m : JsMap V) :
  ~ In k (map fst m) -> map_set k v m = (m ++ [(k, v)])%list.
Proof.
  induction m as [|[k' v'] m IH]; simpl; intros H; [reflexivity|].
  destruct (String.eqb_spec k k') as [->|Hne].
  - exfalso. apply H. left. reflexivity.
  - rewrite IH; [reflexivity|]. intros Hin. apply H. right. exact Hin.
Qed.

Lemma map_of_from {V : Type} (es acc : list (string * V)) :
  NoDup (map fst (acc ++ es)%list) ->
  fold_left (fun m e => map_set (fst e) (snd e) m) es acc = (acc ++ es)%list.
Proof.
  revert acc. induction es as [|[k v] es IH]; intros acc Hnd; simpl.
  - rewrite app_nil_r. reflexivity.
  - rewrite map_set_fresh.
    + rewrite IH; rewrite <- app_assoc; [reflexivity|exact Hnd].
    + rewrite map_app in Hnd. simpl in Hnd. apply NoDup_remove_2 in Hnd.
      intros Hin. apply Hnd. apply in_or_app. left. exact Hin.
Qed.

(** No key is set twice: the map is the list of entries. *)
Lemma map_of_nodup {V : Type} (es : list (string * V)) :
  NoDup (map fst es) -> map_of es = es.
Proof. intros H. unfold map_of. rewrite map_of_from; [reflexivity|exact H]. Qed.

Lemma task_entries_keys (l : list Task) : map fst (task_entries l) = map id l.
Proof. unfold task_entries. rewrite map_map. reflexivity. Qed.

Lemma map_get_entries_some (k : string) (t : Task) (l : list Task) :
  map_get k (task_entries l) = Some t -> In t l /\ id t = k.
Proof.
  induction l as [|x l IH]; simpl; [discriminate|].
  destruct (String.eqb_spec k (id x)) as [->|Hne].
  - intros [= ->]. split; [left|]; reflexivity.
  - intros H. destruct (IH H) as [Hin E]. split; [right|]; assumption.
Qed.

Lemma nodup_id_inj (l : list Task) (a b : Task) :
  NoDup (map id l) -> In a l -> In b l -> id a = id b -> a = b.
Proof.
  induction l as [|x l IH]; simpl; intros Hnd Ha Hb E; [contradiction|].
  inversion Hnd as [|? ? Hx Hnd']; subst.
  destruct Ha as [->|Ha], Hb as [->|Hb].
  - reflexivity.
  - exfalso. apply Hx. rewrite E. apply in_map. exact Hb.
  - exfalso. apply Hx. rewrite <- E. apply in_map. exact Ha.
  - apply IH; assumption.
Qed.

Lemma map_get_entries_in (t : Task) (l : list Task) :
  NoDup (map id l) -> In t l -> map_get (id t) (task_entries l) = Some t.
Proof.
  intros Hnd Hin.
  destruct (map_get (id t) (task_entries l)) as [u|] eqn:E.
  - apply map_get_entries_some in E. destruct E as [Hu Eu].
    f_equal. apply (nodup_id_inj l); assumption.
  - apply map_get_none in E. rewrite task_entries_keys in E.
    exfalso. apply E. apply in_map. exact Hin.
Qed.

(** ** The diff *)

Lemma flat_map_nil {A B : Type} (f : A -> list B) (l : list A) :
  flat_map f l = [] <-> forall x, In x l -> f x = [].
Proof.
  induction l as [|a l IH]; simpl.
  - split; [intros _ x []|reflexivity].
  - split.
    + intros H. apply app_eq_nil in H. destruct H as [Ha Hl].
      intros x [->|Hx]; [exact Ha|]. apply IH; assumption.
    + intros H. rewrite (H a (or_introl eq_refl)).
      simpl. apply IH. intros x Hx. apply H. right. exact Hx.
Qed.

Lemma owner_eqb_or_empty (a b : option string) :
  opt_string_eqb (JS.or_null a) (JS.or_null b) = true <-> JS.or_empty a = JS.or_empty b.
Proof.
  destruct a as [[|x a]|], b as [[|y b]|];
    cbv [JS.or_null JS.truthy JS.or_empty opt_string_eqb]; split; intros H;
    try reflexivity; try discriminate.
  - apply String.eqb_eq in H. exact H.
  - apply String.eqb_eq. exact H.
Qed.

Lemma field_changes_nil (ft dt : Task) :
  field_changes ft dt = [] <->
  status ft = status dt /\ priority ft = priority dt
  /\ JS.or_empty (owner_model ft) = JS.or_empty (owner_model dt)
  /\ title ft = title dt.
Proof.
  unfold field_changes. rewrite <- owner_eqb_or_empty.
  destruct (String.eqb_spec (status ft) (status dt));
    destruct (String.eqb_spec (priority ft) (priority dt));
    destruct (opt_string_eqb (JS.or_null (owner_model ft)) (JS.or_null (owner_model dt)));
    destruct (String.eqb_spec (title ft) (title dt)); simpl;
    split; try discriminate; try tauto; intros (? & ? & ? & ?); congruence.
Qed.

Lemma field_changes_compared (ft dt : Task) :
  id ft = id dt ->
  (field_changes ft dt = [] <-> compared_fields dt = compared_fields ft).
Proof.
  intros Hid. rewrite field_changes_nil. unfold compared_fields. split.
  - intros (E1 & E2 & E3 & E4). rewrite Hid, E1, E2, E3, E4. reflexivity.
  - intros [= _ E1 E2 E3 E4]. repeat split; congruence.
Qed.

(** With unique ids on both sides, an empty diff says: every file record
    has a store record with the same compared fields, and every store id
    is in the files. *)
Lemma diffTasks_nil (f d : list Task) :
  NoDup (map id f) -> NoDup (map id d) ->
  (diffTasks f d = [] <->
   (forall t, In t f -> exists u, In u d /\ compared_fields u = compared_fields t)
   /\ (forall u, In u d -> In (id u) (map id f))).
Proof.
  intros Hf Hd. unfold diffTasks.
  rewrite !map_of_nodup by (rewrite task_entries_keys; assumption).
  unfold diff_file_side, diff_db_side. split.
  - intros H. apply app_eq_nil in H. destruct H as [H1 H2].
    rewrite flat_map_nil in H1, H2. split.
    + intros t Ht. specialize (H1 (id t, t) (in_map _ _ _ Ht)). simpl in H1.
      destruct (map_get (id t) (task_entries d)) as [u|] eqn:E; [|discriminate].
      apply map_get_entries_some in E. destruct E as [Hu Eu].
      exists u. split; [exact Hu|].
      apply field_changes_compared; [congruence|].
      destruct (field_changes t u); [reflexivity|discriminate].
    + intros u Hu. specialize (H2 (id u, u) (in_map _ _ _ Hu)). simpl in H2.
      unfold map_has in H2.
      destruct (map_get (id u) (task_entries f)) as [t|] eqn:E; [|discriminate].
      apply map_get_entries_some in E. destruct E as [Ht Et].
      rewrite <- Et. apply in_map. exact Ht.
  - intros [H1 H2].
    match goal with
    | |- (?a ++ ?b)%list = [] =>
        assert (G1 : a = []); [|assert (G2 : b = []); [|rewrite G1, G2; reflexivity]]
    end.
    + apply flat_map_nil. intros [k t] Hin. simpl.
      apply in_map_iff in Hin. destruct Hin as (t' & [= <- <-] & Ht).
      destruct (H1 t' Ht) as (u & Hu & Eu).
      assert (Eid : id u = id t') by (unfold compared_fields in Eu; congruence).
      rewrite <- Eid. rewrite (map_get_entries_in u d Hd Hu).
      apply (field_changes_compared t' u (eq_sym Eid)) in Eu. rewrite Eu. reflexivity.
    + apply flat_map_nil. intros [k u] Hin. simpl.
      apply in_map_iff in Hin. destruct Hin as (u' & [= <- <-] & Hu).
      specialize (H2 u' Hu). unfold map_has.
      destruct (map_get (id u') (task_entries f)) eqn:E; [reflexivity|].
      apply map_get_none in E. rewrite task_entries_keys in E. contradiction.
Qed.

Lemma compared_of_hashed (l : list Task) :
  map compared_fields l = map drop_note (map hashed_fields l).
Proof. rewrite map_map. reflexivity. Qed.

Lemma compared_ids (l : list Task) :
  map id l = map (fun c => fst (fst (fst (fst c)))) (map compared_fields l).
Proof. rewrite map_map. reflexivity. Qed.

Lemma nodup_compared (l : list Task) :
  NoDup (map id l) -> NoDup (map compared_fields l).
Proof. rewrite compared_ids. apply NoDup_map_inv. Qed.

(** With unique ids on both sides the diff is empty exactly when the two
    sides hold the same compared fields. *)
Lemma diffTasks_nil_perm (f d : list Task) :
  NoDup (map id f) -> NoDup (map id d) ->
  (diffTasks f d = [] <->
   Permutation (map compared_fields f) (map compared_fields d)).
Proof.
  intros Hf Hd. rewrite (diffTasks_nil f d Hf Hd). split.
  - intros [H1 H2].
    apply NoDup_Permutation; try (apply nodup_compared; assumption).
    intros x. split; intros Hx; apply in_map_iff in Hx; destruct Hx as (t & <- & Ht).
    + destruct (H1 t Ht) as (u & Hu & Eu). rewrite <- Eu. apply in_map. exact Hu.
    + specialize (H2 t Ht). apply in_map_iff in H2. destruct H2 as (t' & Eid & Ht').
      destruct (H1 t' Ht') as (u & Hu & Eu).
      assert (u = t).
      { apply (nodup_id_inj d); try assumption.
        unfold compared_fields in Eu. congruence. }
      subst u. rewrite Eu. apply in_map. exact Ht'.
  - intros Hp. split.
    + intros t Ht.
      assert (Hin : In (compared_fields t) (map compared_fields d)).
      { eapply Permutation_in; [exact Hp|]. apply in_map. exact Ht. }
      apply in_map_iff in Hin. destruct Hin as (u & Eu & Hu). exists u. split; assumption.
    + intros u Hu.
      assert (Hin : In (compared_fields u) (map compared_fields f)).
      { eapply Permutation_in; [symmetry; exact Hp|]. apply in_map. exact Hu. }
      apply in_map_iff in Hin. destruct Hin as (t & Et & Ht).
      replace (id u) with (id t) by (unfold compared_fields in Et; congruence).
      apply in_map. exact Ht.
Qed.

Lemma check_mode_reported (f d : list Task) :
  reported (check_mode f d) = diffTasks f d.
Proof. unfold check_mode. destruct (diffTasks f d); reflexivity. Qed.

Lemma check_mode_exit (f d : list Task) :
  check_exit (check_mode f d) = match diffTasks f d with [] => 0 | _ => 1 end.
Proof. unfold check_mode. destruct (diffTasks f d); reflexivity. Qed.

Lemma check_mode_hashes (f d : list Task) :
  fileHash (check_mode f d) = hashTasks f /\ dbHash (check_mode f d) = hashTasks d.
Proof. unfold check_mode. destruct (diffTasks f d); split; reflexivity. Qed.

(** C3 (as amended).  For a file side and a store side with unique ids:
    when the two sides differ in their ids or in a compared field (status,
    priority, owner, title) of a shared id, the check reports a non-empty
    diff and exits with 1; when they agree on ids and compared fields it
    reports an empty diff and exits with 0; and when they agree on the note
    as well, the two fingerprints it prints are the same. *)
Theorem C3_drift_check (f d : list Task) :
  NoDup (map id f) -> NoDup (map id d) ->
  (~ Permutation (map compared_fields f) (map compared_fields d) ->
   reported (check_mode f d) <> [] /\ check_exit (check_mode f d) = 1)
  /\ (Permutation (map compared_fields f) (map compared_fields d) ->
      reported (check_mode f d) = [] /\ check_exit (check_mode f d) = 0)
  /\ (Permutation (map hashed_fields f) (map hashed_fields d) ->
      reported (check_mode f d) = []
      /\ fileHash (check_mode f d) = dbHash (check_mode f d)
      /\ check_exit (check_mode f d) = 0).
Proof.
  intros Hf Hd. rewrite check_mode_reported, check_mode_exit.
  destruct (check_mode_hashes f d) as [-> ->].
  pose proof (diffTasks_nil_perm f d Hf Hd) as Hiff.
  repeat split.
  - intros E. apply H. apply Hiff. exact E.
  - destruct (diffTasks f d); [|reflexivity]. exfalso. apply H. apply Hiff. reflexivity.
  - apply Hiff. assumption.
  - rewrite (proj2 Hiff) by assumption. reflexivity.
  - apply Hiff. rewrite !compared_of_hashed. apply Permutation_map. assumption.
  - unfold hashTasks. rewrite (hash_data_of_perm f d Hf) by assumption. reflexivity.
  - rewrite (proj2 Hiff); [reflexivity|].
    rewrite !compared_of_hashed. apply Permutation_map. assumption.
Qed.

Lemma C3_drift_check_witness :
  let a := mkTask "proj-001" "proj" "Wire up retries." "backlog" "P2" None None
                  "tasks/proj-tasks.md" in
  let b := mkTask "proj-002" "proj" "Add metrics" "done" "P1" (Some "codex") (Some "see PR")
                  "tasks/proj-tasks.md" in
  let b' := mkTask "proj-002" "proj" "Add metrics" "blocked" "P1" (Some "codex") (Some "see PR")
                   "tasks/proj-tasks.md" in
  (reported (check_mode [a; b] [a; b']) <> [] /\ check_exit (check_mode [a; b] [a; b']) = 1)
  /\ (reported (check_mode [b; a] [a; b]) = []
      /\ fileHash (check_mode [b; a] [a; b]) = dbHash (check_mode [b; a] [a; b])
      /\ check_exit (check_mode [b; a] [a; b]) = 0).
Proof.
  intros a b b'.
  assert (Hab : NoDup (map id [a; b])) by (repeat constructor; simpl; intuition discriminate).
  assert (Hba : NoDup (map id [b; a])) by (repeat constructor; simpl; intuition discriminate).
  assert (Hab' : NoDup (map id [a; b'])) by (repeat constructor; simpl; intuition discriminate).
  split.
  - apply (proj1 (C3_drift_check [a; b] [a; b'] Hab Hab')).
    intros Hp.
    assert (Hin : In (compared_fields b) (map compared_fields [a; b'])).
    { eapply Permutation_in; [exact Hp|]. right. left. reflexivity. }
    destruct Hin as [E|[E|[]]]; discriminate E.
  - apply (proj2 (proj2 (C3_drift_check [b; a] [a; b] Hba Hab))). apply perm_swap.
Defined.

(** C3 (counterexample to the claim as stated).  The note is a field of
    the record and of the fingerprint, and the diff does not look at it:
    after the note line is deleted from the file the two sides differ in
    one field, the fingerprints differ, and the check reports no difference
    and exits with 0. *)
Lemma C3_counterexample :
  let f := parseTaskFile "proj-tasks.md"
             ("## Backlog" ++ LF ++ "- [ ] (task:proj-001) [P2] Wire up retries.") in
  let d := [mkTask "proj-001" "proj" "Wire up retries." "backlog" "P2" None
                   (Some "ask ops first") "tasks/proj-tasks.md"] in
  map notes f = [None] /\ map notes d = [Some "ask ops first"]
  /\ map hashed_fields f <> map hashed_fields d
  /\ reported (check_mode f d) = []
  /\ check_exit (check_mode f d) = 0
  /\ fileHash (check_mode f d) <> dbHash (check_mode f d).
Proof.
  vm_compute. repeat split; try reflexivity; discriminate.
Qed.

(** ** Scripts: inversion and frame rules *)

Lemma bind_ok_inv {A B : Type} (m : Script A) (k : A -> Script B) db db' b :
  bind m k db = (db', Ok b) ->
  exists a db1, m db = (db1, Ok a) /\ k a db1 = (db', Ok b).
Proof.
  unfold bind. destruct (m db) as [db1 [a|e]] eqn:E; intros H.
  - exists a, db1. split; [reflexivity|exact H].
  - discriminate.
Qed.

Lemma bind_throw_inv {A B : Type} (m : Script A) (k : A -> Script B) db db' e :
  bind m k db = (db', Throw e) ->
  m db = (db', Throw e)
  \/ exists a db1, m db = (db1, Ok a) /\ k a db1 = (db', Throw e).
Proof.
  unfold bind. destruct (m db) as [db1 [a|e0]] eqn:E; intros H.
  - right. exists a, db1. split; [reflexivity|exact H].
  - left. injection H as <- <-. reflexivity.
Qed.

Lemma run_ok_inv (stmt : Db -> Result Db) db db' u :
  run stmt db = (db', Ok u) -> stmt db = Ok db'.
Proof. unfold run. destruct (stmt db); intros [= <- _]; reflexivity || discriminate. Qed.

Lemma run_throw_inv (stmt : Db -> Result Db) db db' e :
  run stmt db = (db', Throw e) -> stmt db = Throw e /\ db' = db.
Proof. unfold run. destruct (stmt db); intros [= <- <-] || intros [=]; auto. Qed.


Section Keeps.
Context (R : Db -> Db -> Prop).
Hypothesis R_refl : forall db, R db db.
Hypothesis R_trans : forall a b c, R a b -> R b c -> R a c.

Lemma keeps_ret {A : Type} (a : A) : keeps R (ret a).
Proof. intros db. apply R_refl. Qed.

Lemma keeps_bind {A B : Type} (m : Script A) (k : A -> Script B) :
  keeps R m -> (forall a, keeps R (k a)) -> keeps R (bind m k).
Proof.
  intros Hm Hk db. unfold bind. specialize (Hm db).
  destruct (m db) as [db1 [a|e]]; simpl in *.
  - eapply R_trans; [exact Hm|]. apply Hk.
  - exact Hm.
Qed.

Lemma keeps_run (stmt : Db -> Result Db) :
  (forall db db', stmt db = Ok db' -> R db db') -> keeps R (run stmt).
Proof.
  intros H db. unfold run. destruct (stmt db) eqn:E; simpl.
  - apply H. exact E.
  - apply R_refl.
Qed.
End Keeps.

(** ** The statements *)

Lemma upsert_inv now t db db' :
  upsert now t db = Ok db' ->
  status_check (status t) = true /\ priority_check (priority t) = true
  /\ ((exists r, find_row (id t) (tasks db) = Some r
                 /\ db' = set_tasks db (update_rows now t (tasks db)))
      \/ (find_row (id t) (tasks db) = None
          /\ project_exists (project_id t) db = true
          /\ db' = set_tasks db (tasks db ++
                     [mkRow t None (Clock.sqlite_strftime_iso now)
                            (Clock.sqlite_strftime_iso now)])%list)).
Proof.
  unfold upsert.
  destruct (status_check (status t)); simpl; [|discriminate].
  destruct (priority_check (priority t)); simpl; [|discriminate].
  destruct (find_row (id t) (tasks db)) as [r|] eqn:E.
  - intros [= <-]. repeat split. left. exists r. split; reflexivity.
  - destruct (project_exists (project_id t) db); [|discriminate].
    intros [= <-]. repeat split. right. repeat split.
Qed.

Lemma insertTransition_inv now tid from to reason db db' :
  insertTransition now tid from to reason db = Ok db' ->
  db' = set_transitions db (transitions db ++
          [mkTransition tid from to (Some reason) (Some "sync") None
                        (Clock.sqlite_strftime_iso now)])%list.
Proof.
  unfold insertTransition. destruct (find_row tid (tasks db)); [|discriminate].
  intros [= <-]. reflexivity.
Qed.

(** *** What the loop appends to the audit trail *)



(** *** What the apply leaves alone *)

Lemma mem_string_in (x : string) (l : list string) : mem_string x l = true <-> In x l.
Proof.
  unfold mem_string. rewrite existsb_exists. split.
  - intros (y & Hy & E). apply String.eqb_eq in E. subst. exact Hy.
  - intros H. exists x. split; [exact H|apply String.eqb_refl].
Qed.

Lemma update_row_id now t r : row_id (update_row now t r) = row_id r.
Proof. reflexivity. Qed.

Lemma rows_outside_update now t ids rows :
  mem_string (id t) ids = true ->
  rows_outside ids (update_rows now t rows) = rows_outside ids rows.
Proof.
  intros Hin. unfold rows_outside, update_rows.
  induction rows as [|r rows IH]; simpl; [reflexivity|].
  destruct (String.eqb_spec (id (row_task r)) (id t)) as [E|Hne].
  - rewrite update_row_id.
    assert (Hr : mem_string (row_id r) ids = true) by (unfold row_id; rewrite E; exact Hin).
    rewrite Hr. simpl. exact IH.
  - rewrite IH. reflexivity.
Qed.

Lemma rows_outside_app ids rows more :
  rows_outside ids (rows ++ more)%list = (rows_outside ids rows ++ rows_outside ids more)%list.
Proof. apply filter_app. Qed.


Lemma same_outside_refl ids db : same_outside ids db db.
Proof. reflexivity. Qed.

Lemma same_outside_trans ids a b c :
  same_outside ids a b -> same_outside ids b c -> same_outside ids a c.
Proof. unfold same_outside. congruence. Qed.

Lemma upsert_outside now t ids db db' :
  mem_string (id t) ids = true ->
  upsert now t db = Ok db' -> same_outside ids db db'.
Proof.
  intros Hin H. apply upsert_inv in H.
  destruct H as (_ & _ & [(r & _ & ->)|(_ & _ & ->)]); unfold same_outside; simpl.
  - apply rows_outside_update. exact Hin.
  - rewrite rows_outside_app. unfold rows_outside at 2. simpl.
    unfold row_id. simpl. rewrite Hin. simpl. apply app_nil_r.
Qed.

Lemma insertTransition_tasks now tid from to reason db db' :
  insertTransition now tid from to reason db = Ok db' -> tasks db' = tasks db.
Proof. intros H. apply insertTransition_inv in H. subst. reflexivity. Qed.

Lemma upsertProject_tasks now pid name src db db' :
  upsertProject now pid name src db = Ok db' -> tasks db' = tasks db.
Proof.
  unfold upsertProject. destruct (project_exists pid db); intros [= <-]; reflexivity.
Qed.

Lemma update_hashes_tasks fh dh db db' :
  update_hashes fh dh db = Ok db' -> tasks db' = tasks db.
Proof.
  unfold update_hashes. destruct (sync_state db); intros [= <-]; reflexivity.
Qed.

Lemma keeps_outside_by_tasks ids (stmt : Db -> Result Db) :
  (forall db db', stmt db = Ok db' -> tasks db' = tasks db) ->
  keeps (same_outside ids) (run stmt).
Proof.
  intros H. apply keeps_run; [apply same_outside_refl|].
  intros db db' E. unfold same_outside. rewrite (H db db' E). reflexivity.
Qed.

Lemma apply_diff_outside now ids d :
  (forall t, In t (target d) -> mem_string (id t) ids = true) ->
  keeps (same_outside ids) (apply_diff now d).
Proof.
  intros Hd.
  pose proof (same_outside_refl ids) as Rr. pose proof (same_outside_trans ids) as Rt.
  destruct d as [i t|i ch t dt|i t]; simpl.
  - apply keeps_bind; [exact Rt| |intros _].
    + apply keeps_run; [exact Rr|]. intros db db'. apply upsert_outside.
      apply Hd. left. reflexivity.
    + apply keeps_outside_by_tasks. intros db db'. apply insertTransition_tasks.
  - apply keeps_bind; [exact Rt| |intros _].
    + apply keeps_run; [exact Rr|]. intros db db'. apply upsert_outside.
      apply Hd. left. reflexivity.
    + destruct (negb (status dt =? status t)%string).
      * apply keeps_outside_by_tasks. intros db db'. apply insertTransition_tasks.
      * apply keeps_ret. exact Rr.
  - apply keeps_ret. exact Rr.
Qed.

Lemma apply_diffs_outside now ids diffs c :
  (forall d t, In d diffs -> In t (target d) -> mem_string (id t) ids = true) ->
  keeps (same_outside ids) (apply_diffs now diffs c).
Proof.
  revert c. induction diffs as [|d rest IH]; intros c Hd; simpl.
  - apply keeps_ret. apply same_outside_refl.
  - apply keeps_bind; [apply same_outside_trans| |intros _].
    + apply apply_diff_outside. intros t Ht. apply (Hd d t); [left; reflexivity|exact Ht].
    + apply IH. intros d' t Hd' Ht. apply (Hd d' t); [right; exact Hd'|exact Ht].
Qed.

Lemma create_missing_projects_outside now ids known missing f :
  keeps (same_outside ids) (create_missing_projects now known missing f).
Proof.
  revert missing. induction f as [|t f IH]; intros missing; simpl.
  - apply keeps_ret. apply same_outside_refl.
  - destruct (negb (mem_string (project_id t) known)
              && negb (mem_string (project_id t) missing))%bool.
    + apply keeps_bind; [apply same_outside_trans| |intros _].
      * apply keeps_outside_by_tasks. intros db db'. apply upsertProject_tasks.
      * apply IH.
    + apply IH.
Qed.

Lemma syncFilesToDb_outside now fs f dbt diffs ids :
  (forall d t, In d diffs -> In t (target d) -> mem_string (id t) ids = true) ->
  keeps (same_outside ids) (syncFilesToDb now fs f dbt diffs).
Proof.
  intros Hd db. unfold syncFilesToDb.
  pose proof (same_outside_refl ids) as Rr. pose proof (same_outside_trans ids) as Rt.
  revert db.
  change (keeps (same_outside ids) (fun db =>
    (create_missing_projects now (map p_id (projects db)) [] f ;;;
     c <- apply_diffs now diffs (O, O) ;;
     (fun db' => run (update_hashes (hashTasks (parseAllFiles fs))
                                    (hashTasks (getDbTasks db'))) db') ;;;
     ret (mkCounts (fst c) (snd c) (List.length (filter is_db_only diffs)))) db)).
  intros db.
  apply (keeps_bind _ Rt
           (create_missing_projects now (map p_id (projects db)) [] f)).
  - apply create_missing_projects_outside.
  - intros _. apply keeps_bind; [exact Rt| |intros c].
    + apply apply_diffs_outside. exact Hd.
    + apply keeps_bind; [exact Rt| |intros _; apply keeps_ret; exact Rr].
      intros db1. apply (keeps_outside_by_tasks ids
        (update_hashes (hashTasks (parseAllFiles fs)) (hashTasks (getDbTasks db1)))).
      intros a b. apply update_hashes_tasks.
Qed.

(** *** Where the records of a diff come from *)

Lemma map_set_in {V : Type} (k : string) (v : V) (m : JsMap V) (e : string * V) :
  In e (map_set k v m) -> In e m \/ e = (k, v).
Proof.
  induction m as [|[k' v'] m IH]; simpl.
  - intros [<-|[]]. right. reflexivity.
  - destruct (String.eqb_spec k k') as [->|Hne]; simpl.
    + intros [<-|H]; [right; reflexivity|left; right; exact H].
    + intros [<-|H]; [left; left; reflexivity|].
      destruct (IH H) as [H'|H']; [left; right; exact H'|right; exact H'].
Qed.

Lemma map_of_in {V : Type} (es : list (string * V)) (e : string * V) :
  In e (map_of es) -> In e es.
Proof.
  unfold map_of.
  assert (G : forall acc, In e (fold_left (fun m x => map_set (fst x) (snd x) m) es acc) ->
                          In e acc \/ In e es).
  { induction es as [|[k v] es IH]; intros acc H; simpl in *.
    - left. exact H.
    - destruct (IH _ H) as [H'|H'].
      + apply map_set_in in H'. destruct H' as [H'|H']; [left; exact H'|].
        right. left. symmetry. exact H'.
      + right. right. exact H'. }
  intros H. destruct (G [] H) as [[]|H']. exact H'.
Qed.

Lemma diffTasks_targets (f dbt : list Task) (d : Diff) (t : Task) :
  In d (diffTasks f dbt) -> In t (target d) -> In t f.
Proof.
  unfold diffTasks. intros Hd Ht. apply in_app_or in Hd. destruct Hd as [Hd|Hd].
  - unfold diff_file_side in Hd. apply in_flat_map in Hd.
    destruct Hd as ([k v] & Hin & Hd). simpl in Hd.
    apply map_of_in in Hin. unfold task_entries in Hin. apply in_map_iff in Hin.
    destruct Hin as (t' & [= <- <-] & Ht').
    destruct (map_get (id t') (map_of (task_entries dbt))) as [dt|].
    + destruct (field_changes t' dt); [contradiction|].
      destruct Hd as [<-|[]]. destruct Ht as [<-|[]]. exact Ht'.
    + destruct Hd as [<-|[]]. destruct Ht as [<-|[]]. exact Ht'.
  - unfold diff_db_side in Hd. apply in_flat_map in Hd.
    destruct Hd as ([k v] & _ & Hd). simpl in Hd.
    destruct (map_has k (map_of (task_entries f))); [contradiction|].
    destruct Hd as [<-|[]]. contradiction.
Qed.

Lemma acquireLock_tasks m now db : tasks (fst (acquireLock m now db)) = tasks db.
Proof. unfold acquireLock. destruct (lock_free _ _); reflexivity. Qed.

Lemma releaseLock_tasks res now db : tasks (releaseLock res now db) = tasks db.
Proof. unfold releaseLock. destruct (sync_state db); reflexivity. Qed.

(** A files-to-db run, however it ends, leaves the rows whose id no file
    mentions exactly as they were. *)
Lemma main_files_to_db_outside (now : Z) (fs : FS) (db : Db) :
  rows_outside (map id (parseAllFiles fs)) (tasks (snd (fst (main FilesToDb now fs db))))
  = rows_outside (map id (parseAllFiles fs)) (tasks db).
Proof.
  unfold main.
  pose proof (acquireLock_tasks FilesToDb now db) as Ha.
  destruct (acquireLock FilesToDb now db) as [db1 [|o u]]; simpl in *.
  - pose proof (syncFilesToDb_outside now fs (parseAllFiles fs) (getDbTasks db1)
                  (diffTasks (parseAllFiles fs) (getDbTasks db1))
                  (map id (parseAllFiles fs))) as Hs.
    assert (Hd : forall d t, In d (diffTasks (parseAllFiles fs) (getDbTasks db1)) ->
                 In t (target d) ->
                 mem_string (id t) (map id (parseAllFiles fs)) = true).
    { intros d t Hd Ht. apply mem_string_in. apply in_map.
      eapply diffTasks_targets; eassumption. }
    specialize (Hs Hd db1). unfold same_outside in Hs.
    destruct (syncFilesToDb now fs (parseAllFiles fs) (getDbTasks db1)
                (diffTasks (parseAllFiles fs) (getDbTasks db1)) db1) as [db2 [c|e]];
      simpl in *; rewrite releaseLock_tasks, Hs, Ha; reflexivity.
  - rewrite Ha. reflexivity.
Qed.

(** C7.  A record that is in the store and in none of the text files is
    still in the store, with every field as it was, after a files-to-db
    run, whether the run succeeds, fails or finds the lock taken; and the
    rows whose id the text does not mention are, as a whole, unchanged. *)
Theorem C7_store_only_records_untouched (now : Z) (fs : FS) (db : Db) (r : TaskRow) :
  In r (tasks db) ->
  ~ In (row_id r) (map id (parseAllFiles fs)) ->
  In r (tasks (snd (fst (main FilesToDb now fs db))))
  /\ rows_outside (map id (parseAllFiles fs)) (tasks (snd (fst (main FilesToDb now fs db))))
     = rows_outside (map id (parseAllFiles fs)) (tasks db).
Proof.
  intros Hin Hout. pose proof (main_files_to_db_outside now fs db) as H.
  split; [|exact H].
  assert (Hr : In r (rows_outside (map id (parseAllFiles fs)) (tasks db))).
  { unfold rows_outside. apply filter_In. split; [exact Hin|].
    destruct (mem_string (row_id r) (map id (parseAllFiles fs))) eqn:E; [|reflexivity].
    apply mem_string_in in E. contradiction. }
  rewrite <- H in Hr. unfold rows_outside in Hr. apply filter_In in Hr. apply Hr.
Qed.

(** ** Whole runs *)

Lemma acquireLock_frame m now db :
  projects (fst (acquireLock m now db)) = projects db
  /\ transitions (fst (acquireLock m now db)) = transitions db.
Proof. unfold acquireLock. destruct (lock_free _ _); split; reflexivity. Qed.

Lemma releaseLock_frame res now db :
  projects (releaseLock res now db) = projects db
  /\ transitions (releaseLock res now db) = transitions db.
Proof. unfold releaseLock. destruct (sync_state db); split; reflexivity. Qed.

Lemma getDbTasks_tasks (db db' : Db) : tasks db' = tasks db -> getDbTasks db' = getDbTasks db.
Proof. unfold getDbTasks. intros ->. reflexivity. Qed.

(** A files-to-db run that exits with 0 took the lock, ran the apply to
    its end and released the lock with [ok]. *)
Lemma main_files_to_db_ok now fs db fs' db' :
  main FilesToDb now fs db = (fs', db', 0) ->
  exists db1 db2 c,
    acquireLock FilesToDb now db = (db1, Acquired)
    /\ syncFilesToDb now fs (parseAllFiles fs) (getDbTasks db)
                     (diffTasks (parseAllFiles fs) (getDbTasks db)) db1 = (db2, Ok c)
    /\ db' = releaseLock "ok" now db2 /\ fs' = fs.
Proof.
  unfold main. pose proof (acquireLock_tasks FilesToDb now db) as Ht.
  destruct (acquireLock FilesToDb now db) as [db1 [|o u]]; [|discriminate].
  simpl in Ht. rewrite (getDbTasks_tasks db db1 Ht).
  destruct (syncFilesToDb now fs (parseAllFiles fs) (getDbTasks db)
              (diffTasks (parseAllFiles fs) (getDbTasks db)) db1) as [db2 [c|e]] eqn:E;
    [|discriminate].
  intros [= <- <-]. exists db1, db2, c. repeat split. exact E.
Qed.

Lemma syncFilesToDb_ok now fs f dbt diffs db db' c :
  syncFilesToDb now fs f dbt diffs db = (db', Ok c) ->
  exists dbp dba c0,
    create_missing_projects now (map p_id (projects db)) [] f db = (dbp, Ok tt)
    /\ apply_diffs now diffs (O, O) dbp = (dba, Ok c0)
    /\ update_hashes (hashTasks (parseAllFiles fs)) (hashTasks (getDbTasks dba)) dba = Ok db'
    /\ c = mkCounts (fst c0) (snd c0) (List.length (filter is_db_only diffs)).
Proof.
  unfold syncFilesToDb. intros H.
  apply bind_ok_inv in H. destruct H as ([] & dbp & H1 & H).
  apply bind_ok_inv in H. destruct H as (c0 & dba & H2 & H).
  apply bind_ok_inv in H. destruct H as ([] & dbh & H3 & H).
  apply run_ok_inv in H3. injection H as <- <-.
  exists dbp, dba, c0. repeat split; assumption.
Qed.

Lemma upsertProject_transitions now pid name src db db' :
  upsertProject now pid name src db = Ok db' -> transitions db' = transitions db.
Proof.
  unfold upsertProject. destruct (project_exists pid db); intros [= <-]; reflexivity.
Qed.

Lemma create_missing_projects_transitions now known missing f :
  keeps (fun a b => transitions b = transitions a)
        (create_missing_projects now known missing f).
Proof.
  revert missing. induction f as [|t f IH]; intros missing; simpl.
  - apply keeps_ret. reflexivity.
  - destruct (negb (mem_string (project_id t) known)
              && negb (mem_string (project_id t) missing))%bool; [|apply IH].
    apply keeps_bind; [congruence| |intros _; apply IH].
    apply keeps_run; [reflexivity|]. intros a b. apply upsertProject_transitions.
Qed.





(** ** A failure in the middle of the batch *)

Lemma apply_diffs_app_throw now pre d post c db dba c' dbf e :
  apply_diffs now pre c db = (dba, Ok c') ->
  apply_diff now d dba = (dbf, Throw e) ->
  apply_diffs now (pre ++ d :: post)%list c db = (dbf, Throw e).
Proof.
  revert c db. induction pre as [|x pre IH]; intros c db Hpre Hd; simpl in *.
  - injection Hpre as <- <-. unfold bind. rewrite Hd. reflexivity.
  - apply bind_ok_inv in Hpre. destruct Hpre as (u & db1 & H1 & H2).
    unfold bind at 1. rewrite H1. apply IH; assumption.
Qed.

Lemma syncFilesToDb_throw now fs f dbt pre d post db dbp dba c dbf e :
  create_missing_projects now (map p_id (projects db)) [] f db = (dbp, Ok tt) ->
  apply_diffs now pre (O, O) dbp = (dba, Ok c) ->
  apply_diff now d dba = (dbf, Throw e) ->
  syncFilesToDb now fs f dbt (pre ++ d :: post)%list db = (dbf, Throw e).
Proof.
  intros Hp Hpre Hd. unfold syncFilesToDb. unfold bind at 1. rewrite Hp.
  unfold bind at 1.
  rewrite (apply_diffs_app_throw now pre d post (O, O) dbp dba c dbf e Hpre Hd).
  reflexivity.
Qed.

(** C2 (as amended).  The apply is not one unit: its statements are run
    one by one, each durable at once.  When the statements of an entry of
    the diff fail after the entries before it have been applied, the store
    keeps what was written up to the failure (the projects created, the
    entries before the failing one, the statements of the failing entry that
    completed), nothing after it is applied, the lock is released with the
    failure recorded, and the run exits with 1. *)
Theorem C2_apply_stops_at_failure
        (now : Z) (fs : FS) (db db1 dbp dba dbf : Db)
        (pre post : list Diff) (d : Diff) (c : nat * nat) (e : string) :
  acquireLock FilesToDb now db = (db1, Acquired) ->
  diffTasks (parseAllFiles fs) (getDbTasks db) = (pre ++ d :: post)%list ->
  create_missing_projects now (map p_id (projects db1)) [] (parseAllFiles fs) db1
    = (dbp, Ok tt) ->
  apply_diffs now pre (O, O) dbp = (dba, Ok c) ->
  apply_diff now d dba = (dbf, Throw e) ->
  main FilesToDb now fs db = (fs, releaseLock ("failed: " ++ e) now dbf, 1)
  /\ tasks (releaseLock ("failed: " ++ e) now dbf) = tasks dbf
  /\ transitions (releaseLock ("failed: " ++ e) now dbf) = transitions dbf.
Proof.
  intros Ha Hdiff Hp Hpre Hd. split.
  - unfold main. rewrite Ha.
    pose proof (acquireLock_tasks FilesToDb now db) as Ht. rewrite Ha in Ht. simpl in Ht.
    rewrite (getDbTasks_tasks db db1 Ht), Hdiff.
    rewrite (syncFilesToDb_throw now fs (parseAllFiles fs) (getDbTasks db)
               pre d post db1 dbp dba c dbf e Hp Hpre Hd).
    reflexivity.
  - split; [apply releaseLock_tasks|apply releaseLock_frame].
Qed.

(** Two new tasks, the second tagged [P5]: the first is inserted with its
    audit record, the second is refused by the CHECK on [priority]. *)
Lemma C2_apply_stops_at_failure_witness :
  let run := main FilesToDb Sample.t1 Sample.fs_bad_priority Sample.db_empty in
  snd run = 1
  /\ map row_id (tasks (snd (fst run))) = ["proj-001"]
  /\ map task_id (transitions (snd (fst run))) = ["proj-001"]
  /\ exists e, option_map last_result (sync_state (snd (fst run))) =
                 Some (Some ("failed: " ++ e)).
Proof.
  intros run.
  pose (fts := parseAllFiles Sample.fs_bad_priority).
  pose (db1 := fst (acquireLock FilesToDb Sample.t1 Sample.db_empty)).
  pose (dbp := fst (create_missing_projects Sample.t1 (map p_id (projects db1)) [] fts db1)).
  pose (d1 := file_only "proj-001" (nth 0 fts (mkTask "" "" "" "" "" None None ""))).
  pose (d2 := file_only "proj-002" (nth 1 fts (mkTask "" "" "" "" "" None None ""))).
  pose (dba := fst (apply_diffs Sample.t1 [d1] (O, O) dbp)).
  pose (e := "CHECK constraint failed: priority IN ('P0', 'P1', 'P2', 'P3', 'P9')").
  destruct (C2_apply_stops_at_failure Sample.t1 Sample.fs_bad_priority Sample.db_empty
              db1 dbp dba dba [d1] [] d2 (1%nat, O) e) as (Hm & Ht & Htr).
  - vm_compute. reflexivity.
  - vm_compute. reflexivity.
  - vm_compute. reflexivity.
  - vm_compute. reflexivity.
  - vm_compute. reflexivity.
  - unfold run. rewrite Hm. cbn [snd fst]. rewrite Ht, Htr.
    repeat split; try (vm_compute; reflexivity).
    exists e. vm_compute. reflexivity.
Defined.

(** C2 (counterexample to the claim as stated).  After the failing run the
    store is not what it was before the apply (it was empty), nor what the
    text says (two tasks): it holds the first task and its audit record. *)
Lemma C2_counterexample :
  let db := Sample.db_empty in
  let run := main FilesToDb Sample.t1 Sample.fs_bad_priority db in
  map id (parseAllFiles Sample.fs_bad_priority) = ["proj-001"; "proj-002"]
  /\ snd run = 1
  /\ tasks db = [] /\ transitions db = []
  /\ map row_id (tasks (snd (fst run))) = ["proj-001"]
  /\ map task_id (transitions (snd (fst run))) = ["proj-001"]
  /\ tasks (snd (fst run)) <> tasks db.
Proof.
  vm_compute. repeat split; try reflexivity. discriminate.
Qed.

(** ** Looking rows up *)

Lemma find_row_some k rows r :
  find_row k rows = Some r -> In r rows /\ row_id r = k.
Proof.
  unfold find_row. intros H. apply find_some in H. destruct H as [Hin E].
  apply String.eqb_eq in E. split; assumption.
Qed.

Lemma find_row_none k rows :
  find_row k rows = None <-> ~ In k (map row_id rows).
Proof.
  unfold find_row. induction rows as [|r rows IH]; simpl.
  - split; [intros _ []|reflexivity].
  - destruct (String.eqb_spec (id (row_task r)) k) as [E|Hne].
    + split; [discriminate|]. intros H. exfalso. apply H. left. exact E.
    + rewrite IH. split.
      * intros H [E|Hin]; [exact (Hne E)|exact (H Hin)].
      * intros H Hin. apply H. right. exact Hin.
Qed.

Lemma find_row_app k rows more :
  find_row k (rows ++ more)%list =
    match find_row k rows with Some r => Some r | None => find_row k more end.
Proof.
  unfold find_row. induction rows as [|r rows IH]; simpl; [reflexivity|].
  destruct (id (row_task r) =? k)%string; [reflexivity|exact IH].
Qed.

Lemma find_row_update_rows now t k rows :
  find_row k (update_rows now t rows) =
    match find_row k rows with
    | Some r => Some (if String.eqb (row_id r) (id t) then update_row now t r else r)
    | None => None
    end.
Proof.
  unfold find_row, update_rows, row_id. induction rows as [|r rows IH]; simpl; [reflexivity|].
  destruct (String.eqb (id (row_task r)) (id t)) eqn:Et; simpl.
  - destruct (String.eqb (id (row_task r)) k); [rewrite Et; reflexivity|exact IH].
  - destruct (String.eqb (id (row_task r)) k); [rewrite Et; reflexivity|exact IH].
Qed.

(** The row an upsert leaves for the id it writes. *)
Lemma upsert_row now t db db' :
  upsert now t db = Ok db' ->
  find_row (id t) (tasks db') =
    Some (match find_row (id t) (tasks db) with
          | Some r => update_row now t r
          | None => mkRow t None (Clock.sqlite_strftime_iso now)
                          (Clock.sqlite_strftime_iso now)
          end).
Proof.
  intros H. apply upsert_inv in H.
  destruct H as (_ & _ & [(r & Hr & ->)|(Hr & _ & ->)]); simpl; rewrite Hr.
  - rewrite find_row_update_rows, Hr.
    apply find_row_some in Hr. destruct Hr as [_ ->]. rewrite String.eqb_refl. reflexivity.
  - rewrite find_row_app, Hr. unfold find_row. simpl. rewrite String.eqb_refl. reflexivity.
Qed.

(** ... and the rows of the other ids. *)
Lemma upsert_other now t db db' k :
  upsert now t db = Ok db' -> k <> id t ->
  find_row k (tasks db') = find_row k (tasks db).
Proof.
  intros H Hne. apply upsert_inv in H.
  destruct H as (_ & _ & [(r & Hr & ->)|(Hr & _ & ->)]); simpl.
  - rewrite find_row_update_rows. destruct (find_row k (tasks db)) as [x|] eqn:E; [|reflexivity].
    apply find_row_some in E. destruct E as [_ E].
    destruct (String.eqb_spec (row_id x) (id t)) as [E'|_]; [congruence|reflexivity].
  - rewrite find_row_app. destruct (find_row k (tasks db)); [reflexivity|].
    unfold find_row. simpl. destruct (String.eqb_spec (id t) k); [congruence|reflexivity].
Qed.

(** ** Notes *)

(** What the upsert of a changed record does with the note: the row is
    there afterwards; an absent incoming note leaves the stored note as it
    was; an incoming note replaces it, the empty one as any other. *)
Lemma changed_note_rule (now : Z) (i : string) (changes : list string) (t dt : Task)
        (db db' : Db) (r : TaskRow) :
  find_row (id t) (tasks db) = Some r ->
  apply_diff now (changed i changes t dt) db = (db', Ok tt) ->
  exists r',
    find_row (id t) (tasks db') = Some r'
    /\ (notes t = None -> notes (row_task r') = notes (row_task r))
    /\ (forall n, notes t = Some n -> notes (row_task r') = Some n).
Proof.
  intros Hr H. simpl in H.
  apply bind_ok_inv in H. destruct H as (u & db1 & H1 & H2).
  apply run_ok_inv in H1.
  assert (Ht : tasks db' = tasks db1).
  { destruct (negb (status dt =? status t)%string).
    - apply run_ok_inv in H2. apply insertTransition_tasks in H2. exact H2.
    - injection H2 as <-. reflexivity. }
  exists (update_row now t r). rewrite Ht, (upsert_row now t db db1 H1), Hr.
  split; [reflexivity|]. simpl. split.
  - intros ->. reflexivity.
  - intros n ->. reflexivity.
Qed.

(** The scenario of the specification: the note line removed, and the note
    line rewritten. *)
Lemma changed_note_rule_sample :
  let stored := row_task Sample.row1 in
  let moved := mkTask "proj-001" "proj" "Wire up retries." "in_progress" "P2" None None
                      "tasks/proj-tasks.md" in
  let noted := mkTask "proj-001" "proj" "Wire up retries." "in_progress" "P2" None
                      (Some "ops agreed") "tasks/proj-tasks.md" in
  let ch := ["status: backlog" ++ arrow ++ "in_progress"] in
  parseAllFiles Sample.fs_in_progress = [moved]
  /\ parseAllFiles Sample.fs_new_note = [noted]
  /\ (exists r', find_row "proj-001"
                   (tasks (fst (apply_diff Sample.t1 (changed "proj-001" ch moved stored)
                                           Sample.db_one))) = Some r'
                 /\ notes (row_task r') = Some "ask ops first")
  /\ (exists r', find_row "proj-001"
                   (tasks (fst (apply_diff Sample.t1 (changed "proj-001" ch noted stored)
                                           Sample.db_one))) = Some r'
                 /\ notes (row_task r') = Some "ops agreed").
Proof.
  intros stored moved noted ch.
  split; [vm_compute; reflexivity|]. split; [vm_compute; reflexivity|]. split.
  - destruct (changed_note_rule Sample.t1 "proj-001" ch moved stored Sample.db_one
                (fst (apply_diff Sample.t1 (changed "proj-001" ch moved stored) Sample.db_one))
                Sample.row1) as (r' & Hf & Hnone & _).
    + vm_compute. reflexivity.
    + vm_compute. reflexivity.
    + exists r'. split; [exact Hf|]. apply Hnone. reflexivity.
  - destruct (changed_note_rule Sample.t1 "proj-001" ch noted stored Sample.db_one
                (fst (apply_diff Sample.t1 (changed "proj-001" ch noted stored) Sample.db_one))
                Sample.row1) as (r' & Hf & _ & Hsome).
    + vm_compute. reflexivity.
    + vm_compute. reflexivity.
    + exists r'. split; [exact Hf|]. apply (Hsome "ops agreed"). reflexivity.
Qed.

(** C6 (evaluation at the failing input).  [proj-001] is stored with the
    note [ask ops first]; in the file its note line is left with the text
    blanked ([  - note: ] and a blank).  The note pattern gives the blank to
    its capture, [trim] makes the empty string of it, and the parser hands
    over an empty note, not an absent one; the upsert falls back on the
    stored note for NULL only, so the run succeeds and the stored note is
    erased. *)
Theorem C6_blank_note_erases_stored_note :
  let run := main FilesToDb Sample.t1 Sample.fs_blank_note Sample.db_one in
  Re.NOTE_RE "  - note: " = Some " "
  /\ map notes (parseAllFiles Sample.fs_blank_note) = [Some ""]
  /\ option_map (fun r => notes (row_task r)) (find_row "proj-001" (tasks Sample.db_one))
     = Some (Some "ask ops first")
  /\ snd run = 0
  /\ option_map (fun r => notes (row_task r)) (find_row "proj-001" (tasks (snd (fst run))))
     = Some (Some "").
Proof.
  vm_compute. repeat split; reflexivity.
Qed.

(** [old-007] is stored and no file mentions it; the run that moves
    [proj-001] leaves it as it is. *)
Lemma C7_store_only_records_untouched_witness :
  In Sample.row_old (tasks (snd (fst (main FilesToDb Sample.t1 Sample.fs_in_progress
                                           Sample.db_one))))
  /\ rows_outside (map id (parseAllFiles Sample.fs_in_progress))
                  (tasks (snd (fst (main FilesToDb Sample.t1 Sample.fs_in_progress
                                         Sample.db_one))))
     = rows_outside (map id (parseAllFiles Sample.fs_in_progress)) (tasks Sample.db_one).
Proof.
  apply (C7_store_only_records_untouched Sample.t1 Sample.fs_in_progress Sample.db_one
           Sample.row_old).
  - right. left. reflexivity.
  - vm_compute. intros [H|[]]. discriminate H.
Defined.

(** ** Idempotence of the apply *)

(** *** Unique ids in [tasks_v2] *)

Lemma update_rows_ids now t rows : map row_id (update_rows now t rows) = map row_id rows.
Proof.
  unfold update_rows. rewrite map_map. apply map_ext. intros r.
  destruct (id (row_task r) =? id t)%string; reflexivity.
Qed.


Lemma keys_ok_refl db : keys_ok db db.
Proof. intros H. exact H. Qed.

Lemma keys_ok_trans a b c : keys_ok a b -> keys_ok b c -> keys_ok a c.
Proof. unfold keys_ok. auto. Qed.

Lemma upsert_keys now t db db' : upsert now t db = Ok db' -> keys_ok db db'.
Proof.
  intros H Hnd. apply upsert_inv in H.
  destruct H as (_ & _ & [(r & Hr & ->)|(Hr & _ & ->)]); simpl.
  - rewrite update_rows_ids. exact Hnd.
  - rewrite map_app. simpl. apply find_row_none in Hr.
    apply NoDup_app; [exact Hnd|repeat constructor; intros []|].
    intros x Hx [<-|[]]. exact (Hr Hx).
Qed.

Lemma keys_ok_by_tasks (stmt : Db -> Result Db) :
  (forall db db', stmt db = Ok db' -> tasks db' = tasks db) ->
  keeps keys_ok (run stmt).
Proof.
  intros H. apply keeps_run; [apply keys_ok_refl|].
  intros db db' E Hnd. rewrite (H db db' E). exact Hnd.
Qed.

Lemma apply_diff_keys now d : keeps keys_ok (apply_diff now d).
Proof.
  destruct d as [i t|i ch t dt|i t]; simpl.
  - apply keeps_bind; [apply keys_ok_trans| |intros _].
    + apply keeps_run; [apply keys_ok_refl|]. intros db db'. apply upsert_keys.
    + apply keys_ok_by_tasks. intros db db'. apply insertTransition_tasks.
  - apply keeps_bind; [apply keys_ok_trans| |intros _].
    + apply keeps_run; [apply keys_ok_refl|]. intros db db'. apply upsert_keys.
    + destruct (negb (status dt =? status t)%string).
      * apply keys_ok_by_tasks. intros db db'. apply insertTransition_tasks.
      * apply keeps_ret. apply keys_ok_refl.
  - apply keeps_ret. apply keys_ok_refl.
Qed.

Lemma apply_diffs_keys now diffs c : keeps keys_ok (apply_diffs now diffs c).
Proof.
  revert c. induction diffs as [|d rest IH]; intros c; simpl.
  - apply keeps_ret. apply keys_ok_refl.
  - apply keeps_bind; [apply keys_ok_trans|apply apply_diff_keys|intros _; apply IH].
Qed.

(** *** The rows the loop leaves *)

Lemma synced_by_row t rows rows' :
  find_row (id t) rows' = find_row (id t) rows -> synced t rows -> synced t rows'.
Proof. unfold synced. intros ->. auto. Qed.

Lemma field_changes_self_row now t r :
  row_id r = id t -> field_changes t (row_task (update_row now t r)) = [].
Proof.
  intros E. apply field_changes_nil. simpl. repeat split; reflexivity.
Qed.

Lemma upsert_synced now t db db' : upsert now t db = Ok db' -> synced t (tasks db').
Proof.
  intros H. pose proof (upsert_row now t db db' H) as Hr.
  eexists. split; [exact Hr|].
  destruct (find_row (id t) (tasks db)) as [r|] eqn:E.
  - apply field_changes_self_row. apply find_row_some in E. apply E.
  - simpl. apply field_changes_nil. repeat split; reflexivity.
Qed.

Lemma apply_diff_rows now d db db' u :
  apply_diff now d db = (db', Ok u) ->
  (forall t, In t (target d) -> synced t (tasks db'))
  /\ (forall k, ~ In k (map id (target d)) -> find_row k (tasks db') = find_row k (tasks db)).
Proof.
  destruct d as [i t|i ch t dt|i t]; simpl; intros H.
  - apply bind_ok_inv in H. destruct H as (? & db1 & H1 & H2).
    apply run_ok_inv in H1, H2. apply insertTransition_tasks in H2. rewrite H2. split.
    + intros t' [<-|[]]. eapply upsert_synced. exact H1.
    + intros k Hk. eapply upsert_other; [exact H1|]. intros ->. apply Hk. left. reflexivity.
  - apply bind_ok_inv in H. destruct H as (? & db1 & H1 & H2).
    apply run_ok_inv in H1.
    assert (Ht : tasks db' = tasks db1).
    { destruct (negb (status dt =? status t)%string).
      - apply run_ok_inv in H2. apply insertTransition_tasks in H2. exact H2.
      - injection H2 as <-. reflexivity. }
    rewrite Ht. split.
    + intros t' [<-|[]]. eapply upsert_synced. exact H1.
    + intros k Hk. eapply upsert_other; [exact H1|]. intros ->. apply Hk. left. reflexivity.
  - injection H as <-. split; [intros t' []|reflexivity].
Qed.

Lemma nodup_app_disjoint {A : Type} (l1 l2 : list A) (a : A) :
  NoDup (l1 ++ l2)%list -> In a l1 -> ~ In a l2.
Proof.
  induction l1 as [|x l1 IH]; simpl; intros Hnd Hin; [contradiction|].
  inversion Hnd as [|? ? Hx Hnd']; subst. destruct Hin as [->|Hin].
  - intros H2. apply Hx. apply in_or_app. right. exact H2.
  - apply IH; assumption.
Qed.

Lemma apply_diffs_rows now diffs c db db' c' :
  NoDup (map id (flat_map target diffs)) ->
  apply_diffs now diffs c db = (db', Ok c') ->
  (forall t, In t (flat_map target diffs) -> synced t (tasks db'))
  /\ (forall k, ~ In k (map id (flat_map target diffs)) ->
                find_row k (tasks db') = find_row k (tasks db)).
Proof.
  revert c db. induction diffs as [|d rest IH]; intros c db Hnd H; simpl in *.
  - injection H as <- _. split; [intros t []|reflexivity].
  - apply bind_ok_inv in H. destruct H as (u & db1 & H1 & H2).
    rewrite map_app in Hnd.
    pose proof (NoDup_app_remove_l _ _ Hnd) as Hrest.
    destruct (IH _ _ Hrest H2) as [IH1 IH2].
    destruct (apply_diff_rows _ _ _ _ _ H1) as [D1 D2]. split.
    + intros t Ht. apply in_app_or in Ht. destruct Ht as [Ht|Ht]; [|apply IH1; exact Ht].
      apply (synced_by_row t (tasks db1)); [|apply D1; exact Ht].
      apply IH2. apply (nodup_app_disjoint _ _ _ Hnd). apply in_map. exact Ht.
    + intros k Hk. rewrite map_app in Hk.
      rewrite IH2, D2; [reflexivity| |]; intros Hin; apply Hk; apply in_or_app; auto.
Qed.

(** *** The map of the file side *)

Lemma map_set_keys {V : Type} (k : string) (v : V) (m : JsMap V) :
  map fst (map_set k v m) =
    if map_has k m then map fst m else (map fst m ++ [k])%list.
Proof.
  unfold map_has. induction m as [|[k' v'] m IH]; simpl; [reflexivity|].
  destruct (String.eqb k k'); simpl; [reflexivity|].
  rewrite IH. destruct (map_get k m); reflexivity.
Qed.

Lemma map_set_keys_nodup {V : Type} (k : string) (v : V) (m : JsMap V) :
  NoDup (map fst m) -> NoDup (map fst (map_set k v m)).
Proof.
  intros H. rewrite map_set_keys. unfold map_has.
  destruct (map_get k m) eqn:E; [exact H|].
  apply map_get_none in E.
  apply NoDup_app; [exact H|repeat constructor; intros []|].
  intros x Hx [<-|[]]. exact (E Hx).
Qed.

Lemma map_of_keys_nodup {V : Type} (es : list (string * V)) : NoDup (map fst (map_of es)).
Proof.
  unfold map_of.
  assert (G : forall acc, NoDup (map fst acc) ->
              NoDup (map fst (fold_left (fun m e => map_set (fst e) (snd e) m) es acc))).
  { induction es as [|e es IH]; intros acc H; simpl; [exact H|].
    apply IH. apply map_set_keys_nodup. exact H. }
  apply G. constructor.
Qed.

Lemma nodup_keys_inj {V : Type} (m : JsMap V) (k : string) (a b : V) :
  NoDup (map fst m) -> In (k, a) m -> In (k, b) m -> a = b.
Proof.
  induction m as [|[k' v'] m IH]; simpl; intros Hnd Ha Hb; [contradiction|].
  inversion Hnd as [|? ? Hx Hnd']; subst.
  destruct Ha as [Ha|Ha], Hb as [Hb|Hb].
  - congruence.
  - exfalso. apply Hx. replace k' with k by congruence. apply (in_map fst _ _ Hb).
  - exfalso. apply Hx. replace k' with k by congruence. apply (in_map fst _ _ Ha).
  - apply IH; assumption.
Qed.

Lemma file_map_entry (f : list Task) (k : string) (t : Task) :
  In (k, t) (map_of (task_entries f)) -> id t = k /\ In t f.
Proof.
  intros H. apply map_of_in in H. unfold task_entries in H. apply in_map_iff in H.
  destruct H as (t' & [= <- <-] & Ht). split; [reflexivity|exact Ht].
Qed.


Lemma diff_file_side_flat dbMap fileMap :
  diff_file_side dbMap fileMap = flat_map (file_side_entry dbMap) fileMap.
Proof. reflexivity. Qed.

Lemma file_side_entry_target dbMap e :
  flat_map target (file_side_entry dbMap e) = []
  \/ flat_map target (file_side_entry dbMap e) = [snd e].
Proof.
  unfold file_side_entry. destruct (map_get (fst e) dbMap) as [dt|].
  - destruct (field_changes (snd e) dt); [left|right]; reflexivity.
  - right. reflexivity.
Qed.

Lemma flat_map_flat_map {A B C : Type} (f : A -> list B) (g : B -> list C) (l : list A) :
  flat_map g (flat_map f l) = flat_map (fun x => flat_map g (f x)) l.
Proof.
  induction l as [|a l IH]; simpl; [reflexivity|].
  rewrite flat_map_app, IH. reflexivity.
Qed.

Lemma diff_db_side_target fileMap dbMap :
  flat_map target (diff_db_side fileMap dbMap) = [].
Proof.
  unfold diff_db_side. rewrite flat_map_flat_map. apply flat_map_nil.
  intros e _. destruct (map_has (fst e) fileMap); reflexivity.
Qed.

Lemma diffTasks_target (f dbt : list Task) :
  flat_map target (diffTasks f dbt) =
    flat_map (fun e => flat_map target (file_side_entry (map_of (task_entries dbt)) e))
             (map_of (task_entries f)).
Proof.
  unfold diffTasks. rewrite flat_map_app, diff_db_side_target, app_nil_r.
  rewrite diff_file_side_flat. apply flat_map_flat_map.
Qed.

(** The records a diff writes have distinct ids. *)
Lemma diffTasks_target_nodup (f dbt : list Task) :
  NoDup (map id (flat_map target (diffTasks f dbt))).
Proof.
  rewrite diffTasks_target.
  pose proof (map_of_keys_nodup (task_entries f)) as Hnd.
  assert (He : forall e, In e (map_of (task_entries f)) -> id (snd e) = fst e).
  { intros [k t] H. apply file_map_entry in H. apply H. }
  revert Hnd He. generalize (map_of (task_entries f)) as m.
  generalize (map_of (task_entries dbt)) as dm.
  intros dm m. induction m as [|e m IH]; intros Hnd He; simpl; [constructor|].
  inversion Hnd as [|? ? Hx Hnd']; subst.
  assert (IHm := IH Hnd' (fun e' H => He e' (or_intror H))).
  destruct (file_side_entry_target dm e) as [->| ->]; simpl; [exact IHm|].
  constructor; [|exact IHm].
  intros Hin. apply Hx. rewrite <- (He e (or_introl eq_refl)).
  apply in_map_iff in Hin. destruct Hin as (t & Et & Ht). rewrite <- Et.
  apply in_flat_map in Ht. destruct Ht as (e' & He' & Ht).
  destruct (file_side_entry_target dm e') as [E|E]; rewrite E in Ht; [contradiction|].
  destruct Ht as [<-|[]]. rewrite (He e' (or_intror He')). apply in_map. exact He'.
Qed.

(** An entry of [fileMap] is written by the diff, or the store side holds
    its id with the same compared fields. *)
Lemma diffTasks_entry (f dbt : list Task) (k : string) (t : Task) :
  In (k, t) (map_of (task_entries f)) ->
  In t (flat_map target (diffTasks f dbt))
  \/ exists dt, map_get k (map_of (task_entries dbt)) = Some dt /\ field_changes t dt = [].
Proof.
  intros Hin. rewrite diffTasks_target.
  destruct (map_get k (map_of (task_entries dbt))) as [dt|] eqn:E.
  - destruct (field_changes t dt) as [|c cs] eqn:Ec.
    + right. exists dt. split; [reflexivity|exact Ec].
    + left. apply in_flat_map. exists (k, t). split; [exact Hin|].
      unfold file_side_entry. simpl. rewrite E, Ec. left. reflexivity.
  - left. apply in_flat_map. exists (k, t). split; [exact Hin|].
    unfold file_side_entry. simpl. rewrite E. left. reflexivity.
Qed.

(** *** The map of the store side *)

Lemma getDbTasks_perm (db : Db) : Permutation (getDbTasks db) (map row_task (tasks db)).
Proof. unfold getDbTasks. apply (sort_perm id). Qed.

Lemma getDbTasks_ids_nodup (db : Db) :
  NoDup (map row_id (tasks db)) -> NoDup (map id (getDbTasks db)).
Proof.
  intros H. eapply Permutation_NoDup.
  - apply Permutation_map. symmetry. apply getDbTasks_perm.
  - rewrite map_map. exact H.
Qed.

Lemma db_map_get (db : Db) (k : string) :
  NoDup (map row_id (tasks db)) ->
  map_get k (map_of (task_entries (getDbTasks db))) =
    option_map row_task (find_row k (tasks db)).
Proof.
  intros Hnd. pose proof (getDbTasks_ids_nodup db Hnd) as Hs.
  rewrite map_of_nodup by (rewrite task_entries_keys; exact Hs).
  destruct (find_row k (tasks db)) as [r|] eqn:E; simpl.
  - apply find_row_some in E. destruct E as [Hin <-].
    apply (map_get_entries_in (row_task r) (getDbTasks db) Hs).
    eapply Permutation_in; [symmetry; apply getDbTasks_perm|]. apply in_map. exact Hin.
  - apply map_get_none. rewrite task_entries_keys. apply find_row_none in E.
    intros Hin. apply E.
    assert (Hp : Permutation (map id (getDbTasks db)) (map row_id (tasks db))).
    { rewrite <- (map_map row_task id). apply Permutation_map. apply getDbTasks_perm. }
    eapply Permutation_in; [exact Hp|exact Hin].
Qed.

(** When every entry of [fileMap] is in the store with its compared
    fields, the diff has store-only entries at most. *)
Lemma diffTasks_all_synced (f : list Task) (db : Db) :
  NoDup (map row_id (tasks db)) ->
  (forall k t, In (k, t) (map_of (task_entries f)) -> synced t (tasks db)) ->
  forall d, In d (diffTasks f (getDbTasks db)) -> is_db_only d = true.
Proof.
  intros Hnd Hs d Hd. unfold diffTasks in Hd. apply in_app_or in Hd.
  destruct Hd as [Hd|Hd].
  - exfalso. rewrite diff_file_side_flat in Hd. apply in_flat_map in Hd.
    destruct Hd as ([k t] & Hin & Hd). unfold file_side_entry in Hd. simpl in Hd.
    rewrite (db_map_get db k Hnd) in Hd.
    destruct (Hs k t Hin) as (r & Hr & Hc).
    destruct (file_map_entry f k t Hin) as [Ek _]. rewrite Ek in Hr.
    rewrite Hr in Hd. simpl in Hd. rewrite Hc in Hd. exact Hd.
  - unfold diff_db_side in Hd. apply in_flat_map in Hd. destruct Hd as (e & _ & Hd).
    destruct (map_has (fst e) (map_of (task_entries f))); [contradiction|].
    destruct Hd as [<-|[]]. reflexivity.
Qed.

Lemma apply_diffs_db_only now diffs c db :
  (forall d, In d diffs -> is_db_only d = true) ->
  apply_diffs now diffs c db = (db, Ok c).
Proof.
  revert c. induction diffs as [|d rest IH]; intros c H; simpl; [reflexivity|].
  pose proof (H d (or_introl eq_refl)) as Hd.
  destruct d; try discriminate. unfold bind. simpl.
  apply IH. intros d' Hd'. apply H. right. exact Hd'.
Qed.

(** *** Projects, and what else a run leaves alone *)

Lemma create_missing_projects_total now known missing f db :
  exists db', create_missing_projects now known missing f db = (db', Ok tt).
Proof.
  revert missing db. induction f as [|t f IH]; intros missing db; simpl.
  - exists db. reflexivity.
  - destruct (negb (mem_string (project_id t) known)
              && negb (mem_string (project_id t) missing))%bool; [|apply IH].
    unfold bind, run, upsertProject.
    destruct (project_exists (project_id t) db); apply IH.
Qed.

Lemma project_exists_in pid db :
  project_exists pid db = true <-> In pid (map p_id (projects db)).
Proof.
  unfold project_exists. rewrite existsb_exists. split.
  - intros (p & Hp & E). apply String.eqb_eq in E. subst. apply in_map. exact Hp.
  - intros H. apply in_map_iff in H. destruct H as (p & E & Hp).
    exists p. split; [exact Hp|]. apply String.eqb_eq. exact E.
Qed.

Lemma upsertProject_covers now pid name src db db' :
  upsertProject now pid name src db = Ok db' ->
  In pid (map p_id (projects db'))
  /\ incl (map p_id (projects db)) (map p_id (projects db')).
Proof.
  unfold upsertProject. destruct (project_exists pid db) eqn:E; intros [= <-].
  - split; [apply project_exists_in; exact E|apply incl_refl].
  - simpl. rewrite map_app. split.
    + apply in_or_app. right. left. reflexivity.
    + apply incl_appl. apply incl_refl.
Qed.

(** After the first loop every project a file task names is in the table. *)
Lemma create_missing_projects_covers now known missing f db db' :
  (forall p, In p known -> In p (map p_id (projects db))) ->
  (forall p, In p missing -> In p (map p_id (projects db))) ->
  create_missing_projects now known missing f db = (db', Ok tt) ->
  (forall t, In t f -> In (project_id t) (map p_id (projects db')))
  /\ incl (map p_id (projects db)) (map p_id (projects db')).
Proof.
  revert missing db. induction f as [|t f IH]; intros missing db Hk Hm H; simpl in H.
  - injection H as <-. split; [intros t []|apply incl_refl].
  - destruct (negb (mem_string (project_id t) known)
              && negb (mem_string (project_id t) missing))%bool eqn:Ec.
    + apply bind_ok_inv in H. destruct H as (u & db1 & H1 & H2).
      apply run_ok_inv in H1. apply upsertProject_covers in H1. destruct H1 as [Hp Hi].
      destruct (IH (project_id t :: missing) db1) as [C1 C2]; try exact H2.
      * intros p Hp'. apply Hi. apply Hk. exact Hp'.
      * intros p [<-|Hp']; [exact Hp|]. apply Hi. apply Hm. exact Hp'.
      * split.
        -- intros t' [<-|Ht']; [apply C2; exact Hp|apply C1; exact Ht'].
        -- eapply incl_tran; eassumption.
    + destruct (IH missing db Hk Hm H) as [C1 C2]. split; [|exact C2].
      intros t' [<-|Ht']; [|apply C1; exact Ht'].
      apply C2. apply andb_false_iff in Ec.
      destruct Ec as [Ec|Ec]; apply negb_false_iff in Ec; apply mem_string_in in Ec; auto.
Qed.



Lemma same_rest_refl db : same_rest db db.
Proof. split; reflexivity. Qed.

Lemma same_rest_trans a b c : same_rest a b -> same_rest b c -> same_rest a c.
Proof. unfold same_rest. intros [? ?] [? ?]. split; congruence. Qed.

Lemma same_projects_sync_refl db : same_projects_sync db db.
Proof. split; reflexivity. Qed.

Lemma same_projects_sync_trans a b c :
  same_projects_sync a b -> same_projects_sync b c -> same_projects_sync a c.
Proof. unfold same_projects_sync. intros [? ?] [? ?]. split; congruence. Qed.

Lemma create_missing_projects_rest now known missing f :
  keeps same_rest (create_missing_projects now known missing f).
Proof.
  revert missing. induction f as [|t f IH]; intros missing; simpl.
  - apply keeps_ret. apply same_rest_refl.
  - destruct (negb (mem_string (project_id t) known)
              && negb (mem_string (project_id t) missing))%bool; [|apply IH].
    apply keeps_bind; [apply same_rest_trans| |intros _; apply IH].
    apply keeps_run; [apply same_rest_refl|]. intros a b.
    unfold upsertProject. destruct (project_exists _ a); intros [= <-]; split; reflexivity.
Qed.

Lemma upsert_projects_sync now t db db' :
  upsert now t db = Ok db' -> same_projects_sync db db'.
Proof.
  intros H. apply upsert_inv in H.
  destruct H as (_ & _ & [(r & _ & ->)|(_ & _ & ->)]); split; reflexivity.
Qed.

Lemma insertTransition_projects_sync now tid from to reason db db' :
  insertTransition now tid from to reason db = Ok db' -> same_projects_sync db db'.
Proof. intros H. apply insertTransition_inv in H. subst. split; reflexivity. Qed.

Lemma apply_diff_projects_sync now d : keeps same_projects_sync (apply_diff now d).
Proof.
  pose proof same_projects_sync_refl as Rr. pose proof same_projects_sync_trans as Rt.
  destruct d as [i t|i ch t dt|i t]; simpl.
  - apply keeps_bind; [exact Rt| |intros _]; apply keeps_run; try exact Rr.
    + intros a b. apply upsert_projects_sync.
    + intros a b. apply insertTransition_projects_sync.
  - apply keeps_bind; [exact Rt| |intros _].
    + apply keeps_run; [exact Rr|]. intros a b. apply upsert_projects_sync.
    + destruct (negb (status dt =? status t)%string).
      * apply keeps_run; [exact Rr|]. intros a b. apply insertTransition_projects_sync.
      * apply keeps_ret. exact Rr.
  - apply keeps_ret. exact Rr.
Qed.

Lemma apply_diffs_projects_sync now diffs c : keeps same_projects_sync (apply_diffs now diffs c).
Proof.
  revert c. induction diffs as [|d rest IH]; intros c; simpl.
  - apply keeps_ret. apply same_projects_sync_refl.
  - apply keeps_bind; [apply same_projects_sync_trans|apply apply_diff_projects_sync|].
    intros _. apply IH.
Qed.

(** *** A run on a store that already agrees with the text *)


Lemma target_in_file_map (f dbt : list Task) (t : Task) :
  In t (flat_map target (diffTasks f dbt)) -> In (id t, t) (map_of (task_entries f)).
Proof.
  rewrite diffTasks_target. intros H. apply in_flat_map in H.
  destruct H as ([k t'] & Hin & Ht).
  destruct (file_side_entry_target (map_of (task_entries dbt)) (k, t')) as [E|E];
    rewrite E in Ht; [contradiction|].
  destruct Ht as [<-|[]]. simpl.
  destruct (file_map_entry f k t' Hin) as [-> _]. exact Hin.
Qed.

(** What a successful run leaves: unique ids still, every entry of
    [fileMap] in the store with its compared fields, every project the
    files name in the table, the lock free and both fingerprints recorded. *)
Lemma successful_run (now : Z) (fs fs' : FS) (db db' : Db) :
  NoDup (map row_id (tasks db)) ->
  main FilesToDb now fs db = (fs', db', 0) ->
  fs' = fs
  /\ NoDup (map row_id (tasks db'))
  /\ (forall k t, In (k, t) (map_of (task_entries (parseAllFiles fs))) -> synced t (tasks db'))
  /\ (forall t, In t (parseAllFiles fs) -> In (project_id t) (map p_id (projects db')))
  /\ sync_state db' =
       Some (mkSync (Some (hashTasks (parseAllFiles fs))) (Some (hashTasks (getDbTasks db')))
                    (Some (Clock.toISOString now)) None None (Some "ok")).
Proof.
  intros Hnd H. apply main_files_to_db_ok in H.
  destruct H as (dbA & dbS & c & Ha & Hs & -> & ->).
  apply syncFilesToDb_ok in Hs. destruct Hs as (dbp & dba & c0 & Hp & Hl & Hh & _).
  set (f := parseAllFiles fs) in *. set (dbt := getDbTasks db) in *.
  (* the database after the lock was taken *)
  pose proof (acquireLock_tasks FilesToDb now db) as HtA. rewrite Ha in HtA. simpl in HtA.
  pose proof (proj1 (acquireLock_frame FilesToDb now db)) as HpA. rewrite Ha in HpA.
  simpl in HpA.
  assert (HsA : exists r, sync_state dbA = Some r).
  { revert Ha. unfold acquireLock.
    destruct (lock_free _ _); intros E; inversion E; subst; eexists; reflexivity. }
  destruct HsA as (rA & HsA).
  (* after the projects were created *)
  pose proof (create_missing_projects_rest now (map p_id (projects dbA)) [] f dbA) as Hr.
  rewrite Hp in Hr. destruct Hr as [Htp Hsp]. simpl in Htp, Hsp.
  destruct (create_missing_projects_covers now (map p_id (projects dbA)) [] f dbA dbp)
    as [Hcov _]; [auto|intros p []|exact Hp|].
  (* after the loop *)
  pose proof (apply_diffs_keys now (diffTasks f dbt) (O, O) dbp) as Hk.
  rewrite Hl in Hk. simpl in Hk.
  pose proof (apply_diffs_projects_sync now (diffTasks f dbt) (O, O) dbp) as Hps.
  rewrite Hl in Hps. destruct Hps as [Hpa Hsa]. simpl in Hpa, Hsa.
  destruct (apply_diffs_rows now (diffTasks f dbt) (O, O) dbp dba c0
              (diffTasks_target_nodup f dbt) Hl) as [R1 R2].
  assert (Hnda : NoDup (map row_id (tasks dba))).
  { apply Hk. rewrite Htp, HtA. exact Hnd. }
  assert (Hsync : forall k t, In (k, t) (map_of (task_entries f)) -> synced t (tasks dba)).
  { intros k t Hin. destruct (diffTasks_entry f dbt k t Hin) as [Ht|(dt & Hg & Hc)].
    - apply R1. exact Ht.
    - destruct (file_map_entry f k t Hin) as [Ek _].
      destruct (in_dec string_dec (id t) (map id (flat_map target (diffTasks f dbt))))
        as [Hi|Hi].
      + apply in_map_iff in Hi. destruct Hi as (t' & Et & Ht').
        pose proof (target_in_file_map f dbt t' Ht') as Hin'.
        rewrite Et, Ek in Hin'.
        rewrite (nodup_keys_inj _ k t t' (map_of_keys_nodup _) Hin Hin').
        apply R1. exact Ht'.
      + apply (synced_by_row t (tasks dbp)); [apply R2; exact Hi|].
        rewrite Htp, HtA. unfold dbt in Hg. rewrite (db_map_get db k Hnd) in Hg.
        destruct (find_row k (tasks db)) as [r|] eqn:Er; [|discriminate].
        injection Hg as <-. exists r. rewrite Ek. split; assumption. }
  (* after the fingerprints were recorded and the lock released *)
  unfold update_hashes in Hh. rewrite Hsa, Hsp, HsA in Hh. injection Hh as <-.
  unfold releaseLock. cbn.
  repeat split; try assumption.
  intros t Ht. rewrite Hpa. apply Hcov. exact Ht.
Qed.



(** ** The regular expressions on the projector's lines *)

Lemma append_assoc (a b c : string) : (a ++ b) ++ c = a ++ (b ++ c).
Proof. induction a as [|x a IH]; simpl; [reflexivity|]. rewrite IH. reflexivity. Qed.

Lemma snoc_append (pre : string) (c : ascii) (s : string) :
  Re.snoc pre c ++ s = pre ++ String c s.
Proof. unfold Re.snoc. rewrite append_assoc. reflexivity. Qed.


(** A greedy repetition that can take all of [s] and no more, and whose
    continuation then succeeds, yields that match: it is the first one
    tried. *)
Lemma star_greedy {A : Type} (p : ascii -> bool) (k : string -> string -> option A)
      (s pre rest : string) (x : A) :
  JS.all_chars p s = true -> stops p rest ->
  k (pre ++ s) rest = Some x ->
  Re.star p k pre (s ++ rest) = Some x.
Proof.
  revert pre. induction s as [|c s IH]; intros pre Hs Hr Hk; simpl in *.
  - rewrite append_nil_r in Hk. destruct rest as [|d rest]; simpl; [exact Hk|].
    simpl in Hr. rewrite Hr. exact Hk.
  - apply andb_true_iff in Hs. destruct Hs as [Hc Hs]. rewrite Hc.
    rewrite (IH (Re.snoc pre c) Hs Hr); [reflexivity|].
    rewrite snoc_append. exact Hk.
Qed.

Lemma plus_greedy {A : Type} (p : ascii -> bool) (k : string -> string -> option A)
      (s rest : string) (x : A) :
  s <> "" -> JS.all_chars p s = true -> stops p rest ->
  k s rest = Some x ->
  Re.plus p k (s ++ rest) = Some x.
Proof.
  intros Hne Hs Hr Hk. destruct s as [|c s]; [congruence|]. simpl in *.
  apply andb_true_iff in Hs. destruct Hs as [Hc Hs]. rewrite Hc.
  apply (star_greedy p k s (String c "") rest x Hs Hr). exact Hk.
Qed.

(** No repetition is possible. *)
Lemma star_none {A : Type} (p : ascii -> bool) (k : string -> string -> option A)
      (pre rest : string) :
  stops p rest -> Re.star p k pre rest = k pre rest.
Proof.
  destruct rest as [|c rest]; simpl; [reflexivity|]. intros ->. reflexivity.
Qed.

Lemma bracket_tag_match {A : Type} (k : string -> string -> option A)
      (tag rest : string) (x : A) :
  JS.all_chars Re.not_rbracket tag = true ->
  k tag rest = Some x ->
  Re.bracket_tag k (String "[" (tag ++ String "]" rest)) = Some x.
Proof.
  intros Ht Hk. unfold Re.bracket_tag.
  apply (star_greedy Re.not_rbracket _ tag "" (String "]" rest) x Ht); [reflexivity|].
  simpl. exact Hk.
Qed.

Lemma opt_tag_present {A : Type} (k : option string -> string -> option A)
      (tag rest : string) (x : A) :
  JS.all_chars Re.not_rbracket tag = true ->
  k (Some tag) rest = Some x ->
  Re.opt Re.bracket_tag k (String "[" (tag ++ String "]" rest)) = Some x.
Proof.
  intros Ht Hk. unfold Re.opt.
  rewrite (bracket_tag_match (fun cap r => k (Some cap) r) tag rest x Ht Hk). reflexivity.
Qed.

Lemma opt_tag_absent {A : Type} (k : option string -> string -> option A) (s : string) :
  starts_with_bracket s = false ->
  Re.opt Re.bracket_tag k s = k None s.
Proof.
  intros H. unfold Re.opt, Re.bracket_tag.
  destruct s as [|c s]; [reflexivity|].
  destruct c as [[] [] [] [] [] [] [] []]; try reflexivity. discriminate H.
Qed.

(** *** Titles *)

Lemma trimEnd_length (s : string) : (String.length (JS.trimEnd s) <= String.length s)%nat.
Proof.
  induction s as [|c s IH]; simpl; [lia|].
  destruct (JS.trimEnd s); [destruct (JS.is_space c)|]; simpl in *; lia.
Qed.

Lemma trimStart_length (s : string) : (String.length (JS.trimStart s) <= String.length s)%nat.
Proof.
  induction s as [|c s IH]; simpl; [lia|].
  destruct (JS.is_space c); simpl; lia.
Qed.

Lemma tidy_title_facts (s : string) :
  tidy_title s = true ->
  s <> "" /\ JS.all_chars Re.dot s = true /\ JS.trim s = s /\ stops JS.is_space s.
Proof.
  unfold tidy_title. intros H. apply andb_true_iff in H. destruct H as [H Ht].
  apply andb_true_iff in H. destruct H as [Hne Hd].
  apply String.eqb_eq in Ht. apply negb_true_iff in Hne. apply String.eqb_neq in Hne.
  repeat split; try assumption.
  destruct s as [|c s]; [exact I|]. simpl.
  destruct (JS.is_space c) eqn:Ec; [|reflexivity]. exfalso.
  unfold JS.trim in Ht. simpl in Ht. rewrite Ec in Ht.
  pose proof (trimEnd_length (JS.trimStart s)) as H1.
  pose proof (trimStart_length s) as H2.
  rewrite Ht in H1. simpl in H1. lia.
Qed.

Lemma title_group (ttl : string) (m : string -> Re.TaskMatch) :
  ttl <> "" -> JS.all_chars Re.dot ttl = true ->
  Re.plus Re.dot
    (fun t r => match r with EmptyString => Some (m t) | String _ _ => None end) ttl
  = Some (m ttl).
Proof.
  intros Hne Hd. rewrite <- (append_nil_r ttl) at 1.
  apply plus_greedy; [exact Hne|exact Hd|exact I|reflexivity].
Qed.

(** *** The task line *)

Lemma priority_re_shape (p : string) :
  Re.PRIORITY_RE p = true ->
  exists d, p = String "P" (String d "") /\ JS.is_digit d = true.
Proof.
  destruct p as [|c [|d [|e p]]]; simpl; try discriminate.
  - destruct c as [[] [] [] [] [] [] [] []]; discriminate.
  - destruct c as [[] [] [] [] [] [] [] []]; try discriminate.
    intros H. exists d. split; [reflexivity|exact H].
  - destruct c as [[] [] [] [] [] [] [] []]; discriminate.
Qed.

Lemma digit_not_rbracket (d : ascii) : JS.is_digit d = true -> Re.not_rbracket d = true.
Proof.
  unfold Re.not_rbracket. destruct (Ascii.eqb_spec d "]"%char) as [->|]; [|reflexivity].
  discriminate.
Qed.


Lemma well_formed_facts (t : Task) :
  well_formed t = true ->
  id t <> "" /\ JS.all_chars Re.id_char (id t) = true
  /\ Re.PRIORITY_RE (priority t) = true
  /\ In (status t) STATUS_ORDER
  /\ tidy_title (title t) = true
  /\ (if JS.truthy (owner_model t) then tag_ok (JS.or_empty (owner_model t)) = true
      else starts_with_bracket (title t) = false)
  /\ JS.all_chars Re.dot (JS.or_empty (notes t)) = true.
Proof.
  unfold well_formed, id_ok. intros H. split_andb.
  repeat split; try assumption.
  - apply String.eqb_neq. apply negb_true_iff. assumption.
  - apply mem_string_in. assumption.
  - destruct (JS.truthy (owner_model t)); [assumption|].
    apply negb_true_iff. assumption.
Qed.

(** The task line the projector writes for a well-formed task is matched
    by [TASK_RE], with the groups the task was rendered from. *)
Lemma TASK_RE_task_text (t : Task) :
  well_formed t = true -> Re.TASK_RE (task_text t) = Some (task_match t).
Proof.
  intros Hw. destruct (well_formed_facts t Hw) as (Hid & Hidc & Hp & _ & Ht & Ho & _).
  destruct (tidy_title_facts _ Ht) as (Htne & Htd & _ & Hts).
  destruct (priority_re_shape _ Hp) as (d & Ep & Hd).
  unfold task_text, task_match.
  set (box := if (status t =? "done")%string then "x"%char else " "%char).
  set (own := if JS.truthy (owner_model t) then Some (JS.or_empty (owner_model t)) else None).
  assert (Etext :
    "- " ++ (if (status t =? "done")%string then "[x]" else "[ ]") ++ " (task:" ++ id t
         ++ ") [" ++ priority t ++ "]"
         ++ (if JS.truthy (owner_model t) then " [" ++ JS.or_empty (owner_model t) ++ "]" else "")
         ++ " " ++ title t
    = String "-" (String " " (String "[" (String box
        ("] (task:" ++ id t ++ String ")" (String " " (String "["
           (priority t ++ String "]"
              ((if JS.truthy (owner_model t)
                then " [" ++ JS.or_empty (owner_model t) ++ "]" else "")
               ++ String " " (title t)))))))))).
  { unfold box. destruct (status t =? "done")%string; reflexivity. }
  rewrite Etext. clear Etext.
  unfold Re.TASK_RE. cbn [Re.strip_prefix Ascii.eqb Bool.eqb].
  assert (Ebox : (Ascii.eqb box " " || Ascii.eqb box "x")%bool = true).
  { unfold box. destruct (status t =? "done")%string; reflexivity. }
  rewrite Ebox. cbn [Re.strip_prefix Ascii.eqb Bool.eqb append].
  apply plus_greedy; [exact Hid|exact Hidc|reflexivity|].
  apply (star_greedy JS.is_space _ " " ""); [reflexivity|reflexivity|].
  apply opt_tag_present.
  { rewrite Ep. simpl. rewrite (digit_not_rbracket d Hd). reflexivity. }
  destruct (JS.truthy (owner_model t)) eqn:Eo.
  - unfold tag_ok in Ho. split_andb.
    cbn [append].
    apply (star_greedy JS.is_space _ " " ""); [reflexivity|reflexivity|].
    rewrite append_assoc. cbn [append].
    apply opt_tag_present; [assumption|].
    apply (star_greedy JS.is_space _ " " ""); [reflexivity|exact Hts|].
    unfold own. apply (title_group (title t)); assumption.
  - cbn [append].
    apply (star_greedy JS.is_space _ " " ""); [reflexivity|exact Hts|].
    rewrite (opt_tag_absent _ (title t) Ho).
    rewrite (star_none JS.is_space _ "" (title t) Hts).
    unfold own. apply (title_group (title t)); assumption.
Qed.

(** *** Lines of the rendered text *)

Lemma all_chars_app (p : ascii -> bool) (a b : string) :
  JS.all_chars p (a ++ b) = (JS.all_chars p a && JS.all_chars p b)%bool.
Proof.
  induction a as [|x a IH]; simpl; [reflexivity|]. rewrite IH. apply andb_assoc.
Qed.

Lemma rev_string_acc (acc s : string) : JS.rev_string acc s = JS.rev_string "" s ++ acc.
Proof.
  revert acc. induction s as [|c s IH]; intros acc; simpl; [reflexivity|].
  rewrite IH, (IH (String c "")), append_assoc. reflexivity.
Qed.

Lemma dot_not_lf (c : ascii) :
  Re.dot c = true -> N.eqb (JS.code c) 10 = false /\ N.eqb (JS.code c) 13 = false.
Proof.
  unfold Re.dot, JS.is_line_terminator. intros H. apply negb_true_iff in H.
  apply orb_false_iff in H. exact H.
Qed.

(** A line without line terminators, followed by a line feed, is split
    off as it stands. *)
Lemma split_line (l cur r : string) :
  JS.all_chars Re.dot l = true ->
  JS.split_lines_from cur (l ++ String LFc r) =
    (JS.rev_string "" cur ++ l) :: JS.split_lines_from "" r.
Proof.
  revert cur. induction l as [|c l IH]; intros cur Hl.
  - simpl. rewrite append_nil_r. reflexivity.
  - simpl in Hl. apply andb_true_iff in Hl. destruct Hl as [Hc Hl].
    destruct (dot_not_lf c Hc) as [H10 H13].
    cbn [append JS.split_lines_from]. rewrite H10, H13.
    rewrite (IH (String c cur) Hl). cbn [JS.rev_string].
    rewrite (rev_string_acc (String c "") cur), append_assoc. reflexivity.
Qed.

Lemma unlines_cons (l : string) (ls : list string) :
  unlines (l :: ls) = l ++ String LFc (unlines ls).
Proof. reflexivity. Qed.

Lemma split_unlines (ls : list string) :
  Forall (fun l => JS.all_chars Re.dot l = true) ls ->
  JS.split_lines_from "" (unlines ls) = (ls ++ [""])%list.
Proof.
  induction 1 as [|l ls Hl _ IH]; [reflexivity|].
  rewrite unlines_cons, (split_line l "" (unlines ls) Hl), IH. reflexivity.
Qed.

(** A preamble followed by a line feed: its lines, then those of the rest. *)
Lemma split_after_preamble (h cur r : string) :
  JS.split_lines_from cur (h ++ String LFc r) =
    (lines_before cur h ++ JS.split_lines_from "" r)%list.
Proof.
  remember (String.length h) as n eqn:En.
  assert (Hn : (String.length h <= n)%nat) by lia. clear En.
  revert h cur Hn. induction n as [|n IH]; intros h cur Hn.
  - destruct h; [reflexivity|simpl in Hn; lia].
  - destruct h as [|c h]; [reflexivity|]. simpl in Hn.
    cbn [append JS.split_lines_from lines_before].
    destruct (N.eqb (JS.code c) 10); [rewrite IH by lia; reflexivity|].
    destruct (N.eqb (JS.code c) 13); [|apply IH; lia].
    destruct h as [|d h]; [reflexivity|]. simpl in Hn.
    cbn [append]. destruct (N.eqb (JS.code d) 10).
    + rewrite IH by lia. reflexivity.
    + apply (IH (String d h)). simpl. lia.
Qed.

(** *** The parser on the projector's lines *)

Lemma strip_prefix_none (p s : string) :
  String.prefix p s = false -> Re.strip_prefix p s = None.
Proof.
  revert s. induction p as [|a p IH]; intros s H.
  - destruct s; simpl in H; discriminate.
  - destruct s as [|b s]; [reflexivity|]. simpl in H. simpl.
    destruct (ascii_dec a b) as [->|Hne].
    + rewrite Ascii.eqb_refl. apply IH. exact H.
    + destruct (Ascii.eqb_spec a b); [contradiction|reflexivity].
Qed.

Lemma parse_preamble (slug : string) (pre rest : list string) :
  forallb (fun l => negb (JS.startsWith l "## ")) pre = true ->
  parse_lines slug None (pre ++ rest)%list = parse_lines slug None rest.
Proof.
  induction pre as [|l pre IH]; intros H; [reflexivity|].
  simpl in H. apply andb_true_iff in H. destruct H as [Hl Hpre].
  apply negb_true_iff in Hl. unfold JS.startsWith in Hl.
  cbn [app parse_lines]. unfold Re.HEADER_RE.
  rewrite (strip_prefix_none "## " l Hl). apply IH. exact Hpre.
Qed.

Lemma parse_blank (slug : string) (st : option string) (rest : list string) :
  parse_lines slug st ("" :: rest) = parse_lines slug st rest.
Proof. destruct st; reflexivity. Qed.

Lemma parse_section_header (slug : string) (st : option string) (s : string)
      (rest : list string) :
  In s STATUS_ORDER ->
  parse_lines slug st (("## " ++ STATUS_HEADERS s) :: rest) = parse_lines slug (Some s) rest.
Proof.
  intros H. simpl in H.
  destruct H as [<-|[<-|[<-|[<-|[<-|[]]]]]]; reflexivity.
Qed.

Lemma parse_note_line (slug st n : string) (rest : list string) :
  parse_lines slug (Some st) (("  - note: " ++ n) :: rest) = parse_lines slug (Some st) rest.
Proof. reflexivity. Qed.

Lemma classify_rendered (prio : string) (own : option string) :
  Re.PRIORITY_RE prio = true ->
  (if JS.truthy own then tag_ok (JS.or_empty own) = true else True) ->
  classify_tags [Some prio; if JS.truthy own then Some (JS.or_empty own) else None] "P2" None
  = (prio, if JS.truthy own then Some (JS.or_empty own) else None).
Proof.
  intros Hp Ho. destruct (priority_re_shape prio Hp) as (d & -> & Hd).
  cbn [classify_tags]. change (Re.PRIORITY_RE (String "P" (String d ""))) with (JS.is_digit d).
  rewrite Hd.
  destruct own as [[|c o]|]; cbn [JS.truthy JS.or_empty classify_tags] in *; try reflexivity.
  unfold tag_ok in Ho. split_andb.
  match goal with H : negb _ = true |- _ => apply negb_true_iff in H; rewrite H end.
  reflexivity.
Qed.

(** What the parser makes of the task line of a well-formed task under the
    heading of its status: the compared fields are those of the task. *)
Lemma parse_task_line (slug : string) (t : Task) (rest : list string) :
  well_formed t = true ->
  exists t',
    parse_lines slug (Some (status t)) (task_text t :: rest) =
      t' :: parse_lines slug (Some (status t)) rest
    /\ compared_fields t' = compared_fields t.
Proof.
  intros Hw. destruct (well_formed_facts t Hw) as (_ & _ & Hp & _ & Ht & Ho & _).
  destruct (tidy_title_facts _ Ht) as (_ & _ & Htrim & _).
  cbn [parse_lines].
  assert (Eh : Re.HEADER_RE (task_text t) = None) by reflexivity.
  rewrite Eh, (TASK_RE_task_text t Hw).
  cbn [Re.m_tag1 Re.m_tag2 Re.m_id Re.m_title task_match].
  rewrite classify_rendered;
    [|exact Hp|destruct (JS.truthy (owner_model t)); [exact Ho|exact I]].
  eexists. split; [reflexivity|].
  unfold compared_fields. cbn [id status priority owner_model title].
  rewrite Htrim.
  assert (Eo : JS.or_empty (if JS.truthy (owner_model t)
                            then Some (JS.or_empty (owner_model t)) else None)
               = JS.or_empty (owner_model t)).
  { destruct (owner_model t) as [[|c o]|]; reflexivity. }
  rewrite Eo. reflexivity.
Qed.

Lemma parse_task_lines (slug s : string) (ts : list Task) (rest : list string) :
  Forall (fun t => well_formed t = true /\ status t = s) ts ->
  map compared_fields (parse_lines slug (Some s) (flat_map task_lines ts ++ rest)%list)
  = (map compared_fields ts ++ map compared_fields (parse_lines slug (Some s) rest))%list.
Proof.
  induction 1 as [|t ts [Hw Hs] _ IH]; [reflexivity|].
  cbn [flat_map]. unfold task_lines at 1. rewrite <- !app_assoc. cbn [app].
  subst s.
  match goal with
  | |- context [parse_lines slug (Some (status t)) (task_text t :: ?r)] =>
      destruct (parse_task_line slug t r Hw) as (t' & E & Ec)
  end.
  rewrite E. cbn [map app]. rewrite Ec. f_equal.
  destruct (JS.truthy (notes t)); cbn [app]; [rewrite parse_note_line|]; exact IH.
Qed.

Lemma insert_perm_any {A : Type} (cmp : A -> A -> comparison) (x : A) (l : list A) :
  Permutation (insert cmp x l) (x :: l).
Proof.
  induction l as [|y l IH]; simpl; [reflexivity|].
  destruct (cmp x y); try reflexivity.
  rewrite IH. apply perm_swap.
Qed.

Lemma sort_perm_any {A : Type} (cmp : A -> A -> comparison) (l : list A) :
  Permutation (sort cmp l) l.
Proof.
  induction l as [|x l IH]; simpl; [reflexivity|].
  rewrite insert_perm_any. constructor. exact IH.
Qed.

Lemma section_tasks_perm (tasks : list Task) (s : string) :
  Permutation (section_tasks tasks s) (filter (fun t => (status t =? s)%string) tasks).
Proof. apply sort_perm_any. Qed.

Lemma section_tasks_facts (tasks : list Task) (s : string) :
  Forall (fun t => well_formed t = true) tasks ->
  Forall (fun t => well_formed t = true /\ status t = s) (section_tasks tasks s).
Proof.
  intros H. rewrite Forall_forall in *. intros t Ht.
  apply (Permutation_in _ (section_tasks_perm tasks s)) in Ht.
  apply filter_In in Ht. destruct Ht as [Hin Es]. apply String.eqb_eq in Es.
  split; [apply H; exact Hin|exact Es].
Qed.

Lemma parse_section (slug : string) (st : option string) (tasks : list Task) (s : string)
      (rest : list string) :
  Forall (fun t => well_formed t = true) tasks -> In s STATUS_ORDER ->
  map compared_fields (parse_lines slug st (section_lines tasks s ++ rest)%list)
  = (map compared_fields (section_tasks tasks s)
       ++ map compared_fields (parse_lines slug (Some s) rest))%list.
Proof.
  intros Hw Hs. unfold section_lines. cbn [app].
  rewrite (parse_section_header slug st s _ Hs), <- app_assoc.
  rewrite (parse_task_lines slug s _ _ (section_tasks_facts tasks s Hw)).
  cbn [app]. rewrite parse_blank. reflexivity.
Qed.

Lemma parse_sections (slug : string) (tasks : list Task) (sections : list string)
      (st : option string) (rest : list string) :
  Forall (fun t => well_formed t = true) tasks -> incl sections STATUS_ORDER ->
  exists st',
    map compared_fields
        (parse_lines slug st (flat_map (section_lines tasks) sections ++ rest)%list)
    = (map compared_fields (flat_map (section_tasks tasks) sections)
         ++ map compared_fields (parse_lines slug st' rest))%list.
Proof.
  intros Hw. revert st. induction sections as [|s sections IH]; intros st Hi.
  - exists st. reflexivity.
  - cbn [flat_map]. rewrite <- app_assoc.
    rewrite (parse_section slug st tasks s _ Hw (Hi s (or_introl eq_refl))).
    destruct (IH (Some s) (fun x H => Hi x (or_intror H))) as (st' & ->).
    exists st'. rewrite map_app, app_assoc. reflexivity.
Qed.

(** *** The rendered text, line by line *)

Lemma unlines_app (a b : list string) : unlines (a ++ b)%list = unlines a ++ unlines b.
Proof.
  induction a as [|l a IH]; [reflexivity|].
  cbn [app]. rewrite !unlines_cons, IH, append_assoc. reflexivity.
Qed.

Lemma concat_empty_cons (x : string) (xs : list string) :
  String.concat "" (x :: xs) = x ++ String.concat "" xs.
Proof. destruct xs; simpl; [rewrite append_nil_r|]; reflexivity. Qed.

Lemma render_task_lines (t : Task) : render_task t = unlines (task_lines t).
Proof.
  unfold render_task, task_lines, task_text.
  destruct (JS.truthy (notes t)); cbn [unlines]; rewrite !append_assoc; reflexivity.
Qed.

Lemma render_tasks_lines (ts : list Task) :
  String.concat "" (map render_task ts) = unlines (flat_map task_lines ts).
Proof.
  induction ts as [|t ts IH]; [reflexivity|].
  cbn [map flat_map]. rewrite concat_empty_cons, unlines_app, IH, render_task_lines.
  reflexivity.
Qed.

Lemma render_section_lines (tasks : list Task) (s : string) :
  render_section tasks s = unlines (section_lines tasks s).
Proof.
  unfold render_section, section_lines.
  rewrite unlines_cons, unlines_app, render_tasks_lines. cbn [unlines].
  rewrite !append_assoc. reflexivity.
Qed.

Lemma render_sections_lines (tasks : list Task) (sections : list string) :
  String.concat "" (map (render_section tasks) sections)
  = unlines (flat_map (section_lines tasks) sections).
Proof.
  induction sections as [|s sections IH]; [reflexivity|].
  cbn [map flat_map]. rewrite concat_empty_cons, unlines_app, IH, render_section_lines.
  reflexivity.
Qed.

Lemma render_project_lines (header : string) (tasks : list Task) :
  render_project header tasks = header ++ String LFc (unlines ("" :: body_lines tasks)).
Proof.
  unfold render_project, body_lines. rewrite render_sections_lines. reflexivity.
Qed.

Lemma all_chars_impl (p q : ascii -> bool) (s : string) :
  (forall c, p c = true -> q c = true) ->
  JS.all_chars p s = true -> JS.all_chars q s = true.
Proof.
  intros Hpq. induction s as [|c s IH]; simpl; [reflexivity|].
  intros H. apply andb_true_iff in H. destruct H as [Hc Hs].
  rewrite (Hpq c Hc), (IH Hs). reflexivity.
Qed.

Lemma id_char_dot (c : ascii) : Re.id_char c = true -> Re.dot c = true.
Proof.
  destruct c as [[] [] [] [] [] [] [] []]; intros H; try reflexivity; discriminate H.
Qed.

Lemma digit_dot (c : ascii) : JS.is_digit c = true -> Re.dot c = true.
Proof.
  destruct c as [[] [] [] [] [] [] [] []]; intros H; try reflexivity; discriminate H.
Qed.

Lemma task_text_dot (t : Task) :
  well_formed t = true -> JS.all_chars Re.dot (task_text t) = true.
Proof.
  intros Hw. destruct (well_formed_facts t Hw) as (_ & Hidc & Hp & _ & Ht & Ho & _).
  destruct (tidy_title_facts _ Ht) as (_ & Htd & _ & _).
  destruct (priority_re_shape _ Hp) as (d & Ep & Hd).
  unfold task_text. rewrite !all_chars_app.
  rewrite (all_chars_impl _ _ _ id_char_dot Hidc), Htd, Ep.
  cbn [JS.all_chars]. rewrite (digit_dot d Hd).
  destruct (status t =? "done")%string;
    destruct (JS.truthy (owner_model t)); try reflexivity;
    unfold tag_ok in Ho; split_andb; rewrite !all_chars_app;
    match goal with H : JS.all_chars Re.dot (JS.or_empty _) = true |- _ => rewrite H end;
    reflexivity.
Qed.

Lemma task_lines_dot (t : Task) :
  well_formed t = true -> Forall (fun l => JS.all_chars Re.dot l = true) (task_lines t).
Proof.
  intros Hw. unfold task_lines. constructor; [apply task_text_dot; exact Hw|].
  destruct (well_formed_facts t Hw) as (_ & _ & _ & _ & _ & _ & Hn).
  destruct (JS.truthy (notes t)); constructor; [|constructor].
  rewrite all_chars_app, Hn. reflexivity.
Qed.

Lemma section_lines_dot (tasks : list Task) (s : string) :
  Forall (fun t => well_formed t = true) tasks -> In s STATUS_ORDER ->
  Forall (fun l => JS.all_chars Re.dot l = true) (section_lines tasks s).
Proof.
  intros Hw Hs. unfold section_lines. constructor.
  - simpl in Hs. destruct Hs as [<-|[<-|[<-|[<-|[<-|[]]]]]]; reflexivity.
  - apply Forall_app. split; [|repeat constructor].
    pose proof (section_tasks_facts tasks s Hw) as Hf.
    induction Hf as [|t ts [Ht _] _ IH]; [constructor|].
    cbn [flat_map]. apply Forall_app. split; [apply task_lines_dot; exact Ht|exact IH].
Qed.

Lemma body_lines_dot (tasks : list Task) :
  Forall (fun t => well_formed t = true) tasks ->
  Forall (fun l => JS.all_chars Re.dot l = true) (body_lines tasks).
Proof.
  intros Hw. unfold body_lines.
  assert (G : forall sections, incl sections STATUS_ORDER ->
              Forall (fun l => JS.all_chars Re.dot l = true)
                     (flat_map (section_lines tasks) sections)).
  { induction sections as [|s sections IH]; intros Hi; [constructor|].
    cbn [flat_map]. apply Forall_app. split.
    - apply section_lines_dot; [exact Hw|apply Hi; left; reflexivity].
    - apply IH. intros x Hx. apply Hi. right. exact Hx. }
  apply G. apply incl_refl.
Qed.

(** Re-parsing the file the projector writes for a project gives back, in
    the order of the sections, records with the compared fields of the
    tasks rendered. *)
Lemma parse_render_project (name header : string) (tasks : list Task) :
  Forall (fun t => well_formed t = true) tasks ->
  preamble_ok header = true ->
  map compared_fields (parseTaskFile name (render_project header tasks))
  = map compared_fields (flat_map (section_tasks tasks) STATUS_ORDER).
Proof.
  intros Hw Hh. unfold parseTaskFile, JS.split_lines.
  rewrite render_project_lines, split_after_preamble.
  rewrite split_unlines by (constructor; [reflexivity|apply body_lines_dot; exact Hw]).
  rewrite (parse_preamble _ _ _ Hh). cbn [app]. rewrite parse_blank.
  destruct (parse_sections (slug_of name) tasks STATUS_ORDER None [""] Hw (incl_refl _))
    as (st' & E).
  unfold body_lines. rewrite E, parse_blank. cbn [parse_lines map]. apply app_nil_r.
Qed.

(** *** The sections partition the tasks *)

Lemma flat_map_perm_pointwise {A B : Type} (f g : A -> list B) (l : list A) :
  (forall x, Permutation (f x) (g x)) -> Permutation (flat_map f l) (flat_map g l).
Proof.
  intros H. induction l as [|a l IH]; simpl; [reflexivity|].
  apply Permutation_app; [apply H|exact IH].
Qed.

Lemma flat_map_app_perm {A B : Type} (f g : A -> list B) (l : list A) :
  Permutation (flat_map (fun x => f x ++ g x)%list l) (flat_map f l ++ flat_map g l)%list.
Proof.
  induction l as [|a l IH]; simpl; [reflexivity|].
  rewrite IH, <- !app_assoc. apply Permutation_app_head.
  rewrite !app_assoc. apply Permutation_app_tail. apply Permutation_app_comm.
Qed.

Lemma flat_map_single {B : Type} (k : string) (b : B) (ss : list string) :
  NoDup ss -> In k ss ->
  flat_map (fun s => if String.eqb k s then [b] else []) ss = [b].
Proof.
  induction ss as [|s ss IH]; simpl; intros Hnd Hin; [contradiction|].
  inversion Hnd as [|? ? Hs Hnd']; subst.
  destruct (String.eqb_spec k s) as [->|Hne].
  - simpl. f_equal. apply flat_map_nil. intros x Hx.
    destruct (String.eqb_spec s x) as [->|_]; [contradiction|reflexivity].
  - destruct Hin as [E|Hin]; [congruence|]. simpl. apply IH; assumption.
Qed.

Lemma filter_by_key_perm {A : Type} (key : A -> string) (ss : list string) (l : list A) :
  NoDup ss -> Forall (fun t => In (key t) ss) l ->
  Permutation (flat_map (fun s => filter (fun t => String.eqb (key t) s) l) ss) l.
Proof.
  intros Hnd. induction 1 as [|t l Ht _ IH]; simpl.
  - replace (flat_map (fun _ : string => []) ss) with (@nil A); [reflexivity|].
    symmetry. apply flat_map_nil. reflexivity.
  - assert (E : forall s, (if String.eqb (key t) s
                           then t :: filter (fun t => String.eqb (key t) s) l
                           else filter (fun t => String.eqb (key t) s) l)
                          = ((if String.eqb (key t) s then [t] else [])
                               ++ filter (fun t => String.eqb (key t) s) l)%list).
    { intros s. destruct (String.eqb (key t) s); reflexivity. }
    rewrite (flat_map_ext _ _ E), flat_map_app_perm, (flat_map_single _ t ss Hnd Ht).
    simpl. constructor. exact IH.
Qed.

Lemma sections_perm (tasks : list Task) :
  Forall (fun t => well_formed t = true) tasks ->
  Permutation (flat_map (section_tasks tasks) STATUS_ORDER) tasks.
Proof.
  intros Hw.
  rewrite (flat_map_perm_pointwise _ _ STATUS_ORDER (section_tasks_perm tasks)).
  apply (filter_by_key_perm status).
  - repeat constructor; simpl; intuition discriminate.
  - eapply Forall_impl; [|exact Hw]. intros t Ht. simpl in Ht.
    apply (well_formed_facts t Ht).
Qed.

(** One project: for stored tasks that are well formed (id over
    [a-z0-9-], priority [P<digit>], one of the five statuses, a tidy
    one-line title, an owner that is a proper tag or else a title that does
    not open with a bracket, a one-line note) and have distinct ids, and for
    a preamble without section lines, the file the projector writes
    re-parses to records with the same id, status, priority, owner and title
    as the stored ones, and the diff between the two is empty. *)
Lemma project_round_trip (name header : string) (tasks : list Task) :
  forallb well_formed tasks = true ->
  preamble_ok header = true ->
  NoDup (map id tasks) ->
  Permutation (map compared_fields (parseTaskFile name (render_project header tasks)))
              (map compared_fields tasks)
  /\ diffTasks (parseTaskFile name (render_project header tasks)) tasks = [].
Proof.
  intros Hw Hh Hnd.
  assert (Hw' : Forall (fun t => well_formed t = true) tasks).
  { apply Forall_forall. apply forallb_forall. exact Hw. }
  assert (Hp : Permutation (map compared_fields
                              (parseTaskFile name (render_project header tasks)))
                           (map compared_fields tasks)).
  { rewrite (parse_render_project name header tasks Hw' Hh).
    apply Permutation_map. apply sections_perm. exact Hw'. }
  split; [exact Hp|].
  apply diffTasks_nil_perm; [|exact Hnd|exact Hp].
  rewrite compared_ids. rewrite compared_ids in Hnd.
  eapply Permutation_NoDup; [|exact Hnd].
  apply Permutation_map. symmetry. exact Hp.
Qed.

Example project_round_trip_sample :
  let tasks := [Sample.task_a; Sample.task_b; Sample.task_c] in
  let text := render_project "# Tasks: proj" tasks in
  Permutation (map compared_fields (parseTaskFile "proj-tasks.md" text))
              (map compared_fields tasks)
  /\ diffTasks (parseTaskFile "proj-tasks.md" text) tasks = [].
Proof.
  intros tasks text.
  apply (project_round_trip "proj-tasks.md" "# Tasks: proj" tasks).
  - reflexivity.
  - reflexivity.
  - repeat constructor; simpl; intuition discriminate.
Qed.

(** C4 (counterexample to the claim as stated).  The line
    [- [x] (task:proj-002) [P2] [P1] [WIP] fix] is read as a task with
    priority [P1], no owner and the title [[WIP] fix]; a files-to-db run
    stores it so.  The projector then writes
    [- [x] (task:proj-002) [P1] [WIP] fix], which is read back with owner
    [WIP] and title [fix]: after db-to-files the check reports drift. *)
Lemma C4_counterexample :
  let run1 := main FilesToDb Sample.t1 Sample.fs_bracket_title
                   (mkDb [Sample.proj] [] [] (Some Sample.blank_sync)) in
  let run2 := main DbToFiles Sample.t2 (fst (fst run1)) (snd (fst run1)) in
  let fs' := fst (fst run2) in
  let db' := snd (fst run2) in
  snd run1 = 0 /\ snd run2 = 0
  /\ map compared_fields (getDbTasks db') = [("proj-002", "done", "P1", "", "[WIP] fix")]
  /\ map compared_fields (parseAllFiles fs') = [("proj-002", "done", "P1", "WIP", "fix")]
  /\ diffTasks (parseAllFiles fs') (getDbTasks db') <> []
  /\ snd (main Check Sample.t2 fs' db') = 1.
Proof.
  vm_compute. repeat split; try reflexivity. discriminate.
Qed.

(** ** The preamble the projector keeps *)

Lemma prefix_app (p a b : string) :
  String.prefix p a = true -> String.prefix p (a ++ b) = true.
Proof.
  revert a. induction p as [|x p IH]; intros a H.
  - destruct (a ++ b); reflexivity.
  - destruct a as [|y a]; [discriminate H|]. simpl in *.
    destruct (ascii_dec x y); [apply IH; exact H|discriminate].
Qed.

Lemma not_prefix_of_app (p a b : string) :
  String.prefix p (a ++ b) = false -> String.prefix p a = false.
Proof.
  intros H. destruct (String.prefix p a) eqn:E; [|reflexivity].
  rewrite (prefix_app p a b E) in H. discriminate.
Qed.

(** A prefix that does not hold [c] cannot reach over a [c]. *)
Lemma prefix_before_char (p a r : string) (c : ascii) :
  no_char c p = true -> String.prefix p (a ++ String c r) = true -> String.prefix p a = true.
Proof.
  revert a. induction p as [|x p IH]; intros a Hp H.
  - destruct a; reflexivity.
  - apply no_char_cons in Hp. destruct Hp as [Hx Hp].
    destruct a as [|y a]; simpl in *.
    + destruct (ascii_dec x c); [contradiction|discriminate].
    + destruct (ascii_dec x y); [apply IH; assumption|discriminate].
Qed.

Lemma rev_string_cons (c : ascii) (cur rest : string) :
  JS.rev_string "" (String c cur) ++ rest = JS.rev_string "" cur ++ String c rest.
Proof.
  cbn [JS.rev_string]. rewrite (rev_string_acc (String c "") cur), append_assoc. reflexivity.
Qed.

Lemma heads_ok_lines (h cur : string) :
  heads_ok h = true ->
  String.prefix "## " (JS.rev_string "" cur ++ h) = false ->
  forallb (fun l => negb (JS.startsWith l "## ")) (lines_before cur h) = true.
Proof.
  remember (String.length h) as n eqn:En.
  assert (Hn : (String.length h <= n)%nat) by lia. clear En.
  revert h cur Hn. induction n as [|n IH]; intros h cur Hn Hh Hp.
  - destruct h; [|simpl in Hn; lia]. simpl. rewrite append_nil_r in Hp.
    unfold JS.startsWith. rewrite Hp. reflexivity.
  - destruct h as [|c h].
    + simpl. rewrite append_nil_r in Hp. unfold JS.startsWith. rewrite Hp. reflexivity.
    + simpl in Hn. cbn [heads_ok] in Hh. apply andb_true_iff in Hh. destruct Hh as [Hc Hh].
      assert (Hline : negb (JS.startsWith (JS.rev_string "" cur) "## ") = true).
      { unfold JS.startsWith. rewrite (not_prefix_of_app _ _ _ Hp). reflexivity. }
      cbn [lines_before]. destruct (N.eqb (JS.code c) 10) eqn:E10.
      * cbn [forallb]. rewrite Hline. cbn [andb].
        apply IH; [lia|exact Hh|]. apply negb_true_iff in Hc. exact Hc.
      * destruct (N.eqb (JS.code c) 13) eqn:E13.
        -- destruct h as [|d h].
           ++ cbn [forallb]. rewrite Hline. reflexivity.
           ++ destruct (N.eqb (JS.code d) 10) eqn:Ed.
              ** cbn [forallb]. rewrite Hline. cbn [andb]. simpl in Hn.
                 cbn [heads_ok] in Hh. rewrite Ed in Hh.
                 apply andb_true_iff in Hh. destruct Hh as [Hd Hh].
                 apply IH; [lia|exact Hh|]. apply negb_true_iff in Hd. exact Hd.
              ** apply IH; [lia|exact Hh|]. rewrite rev_string_cons. exact Hp.
        -- apply IH; [lia|exact Hh|]. rewrite rev_string_cons. exact Hp.
Qed.

Lemma no_section_start_ok (h : string) : no_section_start h = true -> preamble_ok h = true.
Proof.
  unfold no_section_start, preamble_ok. intros H. apply andb_true_iff in H.
  destruct H as [Hp Hh]. apply heads_ok_lines; [exact Hh|].
  apply negb_true_iff in Hp. exact Hp.
Qed.

Lemma heads_ok_prefix (a b : string) : heads_ok (a ++ b) = true -> heads_ok a = true.
Proof.
  induction a as [|c a IH]; [reflexivity|]. cbn [append heads_ok].
  intros H. apply andb_true_iff in H. destruct H as [Hc Hh].
  rewrite (IH Hh), andb_true_r.
  destruct (N.eqb (JS.code c) 10); [|reflexivity].
  apply negb_true_iff in Hc. rewrite (not_prefix_of_app _ _ _ Hc). reflexivity.
Qed.

Lemma no_section_start_prefix (a b : string) :
  no_section_start (a ++ b) = true -> no_section_start a = true.
Proof.
  unfold no_section_start. intros H. apply andb_true_iff in H. destruct H as [Hp Hh].
  apply negb_true_iff in Hp.
  rewrite (not_prefix_of_app _ _ _ Hp), (heads_ok_prefix _ _ Hh). reflexivity.
Qed.

Lemma trimEnd_prefix (s : string) : exists b, s = JS.trimEnd s ++ b.
Proof.
  induction s as [|c s [b IH]]; [exists ""; reflexivity|].
  cbn [JS.trimEnd]. destruct (JS.trimEnd s) as [|d r] eqn:E.
  - destruct (JS.is_space c).
    + exists (String c s). reflexivity.
    + exists s. reflexivity.
  - exists b. simpl. f_equal. exact IH.
Qed.

Lemma heads_ok_no_LF (a : string) : no_char LFc a = true -> heads_ok a = true.
Proof.
  induction a as [|c a IH]; [reflexivity|]. intros H.
  apply no_char_cons in H. destruct H as [Hc Ha]. cbn [heads_ok]. rewrite (IH Ha).
  destruct (N.eqb_spec (JS.code c) 10) as [E|_]; [|reflexivity].
  exfalso. apply Hc. unfold JS.code in E.
  rewrite <- (ascii_N_embedding c), E. reflexivity.
Qed.

Lemma heads_ok_app_LF (a r : string) :
  no_char LFc a = true ->
  heads_ok (a ++ String LFc r) = (negb (String.prefix "## " r) && heads_ok r)%bool.
Proof.
  induction a as [|c a IH]; [reflexivity|]. intros H.
  apply no_char_cons in H. destruct H as [Hc Ha]. cbn [append heads_ok]. rewrite (IH Ha).
  destruct (N.eqb_spec (JS.code c) 10) as [E|_]; [|reflexivity].
  exfalso. apply Hc. unfold JS.code in E.
  rewrite <- (ascii_N_embedding c), E. reflexivity.
Qed.

Lemma join_no_section_start (ls : list string) :
  Forall (fun l => no_char LFc l = true /\ String.prefix "## " l = false) ls ->
  no_section_start (JS.join LF ls) = true.
Proof.
  induction 1 as [|a ls [Ha Hp] Hls IH]; [reflexivity|].
  destruct ls as [|b ls].
  - simpl. unfold no_section_start. rewrite Hp, (heads_ok_no_LF a Ha). reflexivity.
  - rewrite join_cons2. unfold no_section_start in *.
    apply andb_true_iff in IH. destruct IH as [IH1 IH2].
    rewrite (heads_ok_app_LF a _ Ha), IH1, IH2.
    destruct (String.prefix "## " (a ++ String LFc (JS.join LF (b :: ls)))) eqn:E;
      [|reflexivity].
    apply prefix_before_char in E; [congruence|reflexivity].
Qed.

(** The lines [split] produces hold no line feed. *)
Lemma split_lines_no_LF (s cur : string) :
  no_char LFc cur = true ->
  Forall (fun l => no_char LFc l = true) (JS.split_lines_from cur s).
Proof.
  assert (Hrev : forall cur, no_char LFc cur = true ->
                 no_char LFc (JS.rev_string "" cur) = true).
  { intros c0. induction c0 as [|x c0 IHc]; [reflexivity|]. intros H.
    apply no_char_cons in H. destruct H as [Hx H0].
    cbn [JS.rev_string]. rewrite rev_string_acc, no_char_app, (IHc H0).
    unfold no_char. simpl. destruct (Ascii.eqb_spec x LFc); [contradiction|reflexivity]. }
  remember (String.length s) as n eqn:En.
  assert (Hn : (String.length s <= n)%nat) by lia. clear En.
  revert s cur Hn. induction n as [|n IH]; intros s cur Hn Hcur.
  - destruct s; [|simpl in Hn; lia]. constructor; [apply Hrev; exact Hcur|constructor].
  - destruct s as [|c s]; [constructor; [apply Hrev; exact Hcur|constructor]|].
    simpl in Hn. cbn [JS.split_lines_from].
    assert (Hpush : N.eqb (JS.code c) 10 = false -> no_char LFc (String c cur) = true).
    { intros E. unfold no_char in *. simpl. rewrite Hcur, andb_true_r.
      destruct (Ascii.eqb_spec c LFc) as [->|]; [discriminate E|reflexivity]. }
    destruct (N.eqb (JS.code c) 10) eqn:E10.
    + constructor; [apply Hrev; exact Hcur|]. apply IH; [lia|reflexivity].
    + destruct (N.eqb (JS.code c) 13).
      * destruct s as [|d s]; [apply IH; [simpl; lia|auto]|].
        destruct (N.eqb (JS.code d) 10).
        -- constructor; [apply Hrev; exact Hcur|]. apply IH; [simpl in Hn; lia|reflexivity].
        -- apply IH; [simpl in *; lia|auto].
      * apply IH; [lia|auto].
Qed.

Lemma take_until_section_facts (ls : list string) :
  Forall (fun l => no_char LFc l = true) ls ->
  Forall (fun l => no_char LFc l = true /\ String.prefix "## " l = false)
         (take_until_section ls).
Proof.
  induction 1 as [|l ls Hl _ IH]; simpl; [constructor|].
  unfold JS.startsWith. destruct (String.prefix "## " l) eqn:E; [constructor|].
  constructor; [split; assumption|exact IH].
Qed.

(** What the projector keeps of an existing file has no section line. *)
Lemma preamble_no_section_start (content : string) :
  no_section_start (preamble content) = true.
Proof.
  unfold preamble.
  destruct (trimEnd_prefix (JS.join LF (take_until_section (JS.split_lines content))))
    as [b Hb].
  apply (no_section_start_prefix _ b). rewrite <- Hb.
  apply join_no_section_start. apply take_until_section_facts.
  apply split_lines_no_LF. reflexivity.
Qed.

Lemma default_header_ok (slug : string) :
  slug_ok slug = true -> no_section_start ("# Tasks: " ++ slug) = true.
Proof.
  unfold slug_ok. intros H. apply andb_true_iff in H. destruct H as [H _].
  unfold no_section_start. cbn. apply heads_ok_no_LF. exact H.
Qed.

Lemma map_get_read_headers (fs : FS) (slug h : string) :
  map_get slug (read_headers fs) = Some h -> exists content, h = preamble content.
Proof.
  unfold read_headers.
  assert (G : forall acc,
             (forall k v, In (k, v) acc -> exists content, v = preamble content) ->
             forall k v,
               In (k, v) (fold_left
                            (fun m e => if is_task_file (fst e)
                                        then map_set (slug_of (fst e)) (preamble (snd e)) m
                                        else m) fs acc) ->
               exists content, v = preamble content).
  { induction fs as [|e fs IH]; intros acc Hacc k v Hin; simpl in Hin.
    - eapply Hacc. exact Hin.
    - eapply IH; [|exact Hin]. intros k' v' Hin'.
      destruct (is_task_file (fst e)); [|eapply Hacc; exact Hin'].
      apply map_set_in in Hin'. destruct Hin' as [Hin'|[= _ ->]].
      + eapply Hacc. exact Hin'.
      + exists (snd e). reflexivity. }
  intros Hget.
  assert (Hin : In (slug, h)
                   (fold_left
                      (fun m e => if is_task_file (fst e)
                                  then map_set (slug_of (fst e)) (preamble (snd e)) m
                                  else m) fs [])).
  { revert Hget. generalize (fold_left
                      (fun m e => if is_task_file (fst e)
                                  then map_set (slug_of (fst e)) (preamble (snd e)) m
                                  else m) fs []) as m.
    induction m as [|[k v] m IHm]; simpl; [discriminate|].
    destruct (String.eqb_spec slug k) as [->|_].
    - intros [= ->]. left. reflexivity.
    - intros H. right. apply IHm. exact H. }
  apply (G [] (fun k v (H : In (k, v) []) => match H with end) slug h Hin).
Qed.

(** The header of every project file the projector writes passes. *)
Lemma project_header_ok (fs : FS) (slug : string) :
  slug_ok slug = true -> preamble_ok (project_header (read_headers fs) slug) = true.
Proof.
  intros Hs. apply no_section_start_ok. unfold project_header.
  destruct (map_get slug (read_headers fs)) as [h|] eqn:E;
    [|apply default_header_ok; exact Hs].
  destruct (JS.truthy (Some h)); [|apply default_header_ok; exact Hs].
  destruct (map_get_read_headers fs slug h E) as [content ->].
  apply preamble_no_section_start.
Qed.

(** ** The tasks directory after the projection *)

Lemma length_append (a b : string) :
  String.length (a ++ b) = (String.length a + String.length b)%nat.
Proof. induction a as [|c a IH]; simpl; [reflexivity|]. rewrite IH. reflexivity. Qed.

Lemma strip_suffix_app (suf p : string) : JS.strip_suffix suf (p ++ suf) = Some p.
Proof.
  induction p as [|c p IH].
  - destruct suf; cbn [append JS.strip_suffix]; rewrite String.eqb_refl; reflexivity.
  - cbn [append JS.strip_suffix].
    destruct (String.eqb_spec (String c (p ++ suf)) suf) as [E|_].
    + exfalso. apply (f_equal String.length) in E. simpl in E.
      rewrite length_append in E. lia.
    + rewrite IH. reflexivity.
Qed.

Lemma strip_suffix_some (suf s p : string) : JS.strip_suffix suf s = Some p -> s = p ++ suf.
Proof.
  revert p. induction s as [|c s IH]; intros p.
  - destruct suf; simpl; [|discriminate]. intros [= <-]. reflexivity.
  - cbn [JS.strip_suffix]. destruct (String.eqb_spec (String c s) suf) as [<-|_].
    + intros [= <-]. reflexivity.
    + destruct (JS.strip_suffix suf s) as [q|]; [|discriminate].
      intros [= <-]. simpl. f_equal. apply IH. reflexivity.
Qed.

Lemma file_name_is_task_file (slug : string) : is_task_file (file_name slug) = true.
Proof. unfold is_task_file, JS.endsWith, file_name. rewrite strip_suffix_app. reflexivity. Qed.

Lemma task_file_name (n : string) : is_task_file n = true -> n = file_name (slug_of n).
Proof.
  unfold is_task_file, JS.endsWith, slug_of, file_name.
  destruct (JS.strip_suffix "-tasks.md" n) as [p|] eqn:E; [|discriminate].
  intros _. apply strip_suffix_some. exact E.
Qed.

Lemma file_name_inj (a b : string) : file_name a = file_name b -> a = b.
Proof.
  intros E. pose proof (strip_suffix_app "-tasks.md" a) as Ha.
  unfold file_name in E. rewrite E, strip_suffix_app in Ha. congruence.
Qed.

(** *** writeFileSync *)

Lemma write_file_names (n c : string) (fs : FS) :
  map fst (write_file n c fs) =
    if mem_string n (map fst fs) then map fst fs else (map fst fs ++ [n])%list.
Proof.
  induction fs as [|[n' c'] fs IH]; [reflexivity|].
  cbn [write_file map fst mem_string existsb]. rewrite (String.eqb_sym n n').
  destruct (String.eqb n' n); [reflexivity|].
  cbn [map fst orb]. rewrite IH. unfold mem_string.
  destruct (existsb (String.eqb n) (map fst fs)); reflexivity.
Qed.

Lemma write_file_nodup (n c : string) (fs : FS) :
  NoDup (map fst fs) -> NoDup (map fst (write_file n c fs)).
Proof.
  intros H. rewrite write_file_names.
  destruct (mem_string n (map fst fs)) eqn:E; [exact H|].
  apply NoDup_app; [exact H|repeat constructor; intros []|].
  intros x Hx [<-|[]]. apply mem_string_in in Hx. congruence.
Qed.

Lemma write_file_in (n c : string) (fs : FS) (e : string * string) :
  NoDup (map fst fs) ->
  (In e (write_file n c fs) <-> e = (n, c) \/ (fst e <> n /\ In e fs)).
Proof.
  induction fs as [|[n' c'] fs IH]; intros Hnd; cbn [write_file].
  - split.
    + intros [<-|[]]. left. reflexivity.
    + intros [->|[_ []]]. left. reflexivity.
  - inversion Hnd as [|? ? Hn' Hnd']; subst. specialize (IH Hnd').
    destruct (String.eqb_spec n' n) as [->|Hne].
    + split.
      * intros [<-|Hin]; [left; reflexivity|].
        right. split; [|right; exact Hin].
        intros E. apply Hn'. rewrite <- E. apply in_map. exact Hin.
      * intros [->|[Hn [<-|Hin]]]; [left; reflexivity|simpl in Hn; congruence|right; exact Hin].
    + split.
      * intros [<-|Hin]; [right; split; [exact Hne|left; reflexivity]|].
        apply IH in Hin. destruct Hin as [->|[Hn Hin]]; [left; reflexivity|].
        right. split; [exact Hn|right; exact Hin].
      * intros [->|[Hn [<-|Hin]]].
        -- right. apply IH. left. reflexivity.
        -- left. reflexivity.
        -- right. apply IH. right. split; assumption.
Qed.

Lemma write_all_spec (files : list (string * string)) (fs : FS) :
  NoDup (map fst fs) -> NoDup (map fst files) ->
  NoDup (map fst (write_all files fs))
  /\ forall e, In e (write_all files fs) <->
               In e files \/ (In e fs /\ ~ In (fst e) (map fst files)).
Proof.
  revert fs. induction files as [|[n c] files IH]; intros fs Hfs Hfiles.
  - split; [exact Hfs|]. intros e. simpl. tauto.
  - inversion Hfiles as [|? ? Hn Hnd]; subst.
    destruct (IH (write_file n c fs) (write_file_nodup n c fs Hfs) Hnd) as [H1 H2].
    split; [exact H1|]. intros e. cbn [write_all fold_left] in *.
    unfold write_all in H2. rewrite H2, (write_file_in n c fs e Hfs). cbn [map fst In].
    split.
    + intros [H|[[->|[Hne Hin]] Hout]].
      * left. right. exact H.
      * left. left. reflexivity.
      * right. split; [exact Hin|]. intros [E|E]; [congruence|contradiction].
    + intros [[<-|H]|[Hin Hout]].
      * right. split; [left; reflexivity|exact Hn].
      * left. exact H.
      * right. split.
        -- right. split; [|exact Hin]. intros E. apply Hout. left. symmetry. exact E.
        -- intros E. apply Hout. right. exact E.
Qed.

Lemma projectDbToFiles_writes (dbTasks : list Task) (fs : FS) (db : Db) :
  fst (projectDbToFiles dbTasks fs db) =
    write_all (map (fun s => (file_name s, file_content fs dbTasks s)) (project_slugs db)) fs.
Proof.
  unfold projectDbToFiles, write_all.
  generalize (project_slugs db) as slugs. generalize O as n. generalize fs at 2 4 as f.
  intros f n slugs. revert f n. induction slugs as [|s slugs IH]; intros f n; [reflexivity|].
  cbn [fold_left map]. rewrite IH. reflexivity.
Qed.

Lemma flat_map_filter {A B : Type} (p : A -> bool) (g : A -> list B) (l : list A) :
  flat_map (fun x => if p x then g x else []) l = flat_map g (filter p l).
Proof.
  induction l as [|a l IH]; [reflexivity|]. simpl.
  destruct (p a); simpl; rewrite IH; reflexivity.
Qed.

(** *** [byProject] *)

Lemma map_get_set_same {V : Type} (k : string) (v : V) (m : JsMap V) :
  map_get k (map_set k v m) = Some v.
Proof.
  induction m as [|[k' v'] m IH]; simpl; [rewrite String.eqb_refl; reflexivity|].
  destruct (String.eqb k k') eqn:E; simpl; rewrite E; [reflexivity|exact IH].
Qed.

Lemma map_get_set_other {V : Type} (k k' : string) (v : V) (m : JsMap V) :
  k <> k' -> map_get k (map_set k' v m) = map_get k m.
Proof.
  intros Hne. induction m as [|[k2 v2] m IH]; simpl.
  - destruct (String.eqb_spec k k'); [contradiction|reflexivity].
  - destruct (String.eqb_spec k' k2) as [->|Hne2]; simpl.
    + destruct (String.eqb_spec k k2); [contradiction|reflexivity].
    + destruct (String.eqb k k2); [reflexivity|exact IH].
Qed.

Lemma project_tasks_group (dbTasks : list Task) (s : string) :
  project_tasks (group_by_project dbTasks) s
  = filter (fun t => String.eqb (project_id t) s) dbTasks.
Proof.
  unfold group_by_project.
  assert (G : forall l acc,
             project_tasks
               (fold_left
                  (fun m t => match map_get (project_id t) m with
                              | Some l0 => map_set (project_id t) (l0 ++ [t])%list m
                              | None => map_set (project_id t) [t] m
                              end) l acc) s
             = (project_tasks acc s ++ filter (fun t => String.eqb (project_id t) s) l)%list).
  { induction l as [|t l IH]; intros acc; cbn [fold_left filter].
    - rewrite app_nil_r. reflexivity.
    - rewrite IH. unfold project_tasks.
      destruct (String.eqb_spec (project_id t) s) as [E|Hne].
      + rewrite E. destruct (map_get s acc) as [l0|] eqn:Ea;
          rewrite map_get_set_same, <- ?app_assoc; reflexivity.
      + destruct (map_get (project_id t) acc) as [l0|];
          rewrite map_get_set_other by congruence; reflexivity. }
  rewrite G. reflexivity.
Qed.

(** ** Round trip of a whole store *)

Lemma nodup_map_inj {A B : Type} (f : A -> B) (l : list A) :
  (forall a b, f a = f b -> a = b) -> NoDup l -> NoDup (map f l).
Proof.
  intros Hinj. induction 1 as [|a l Ha _ IH]; simpl; constructor; [|exact IH].
  intros Hin. apply in_map_iff in Hin. destruct Hin as (b & E & Hb).
  apply Hinj in E. subst. contradiction.
Qed.

Lemma flat_map_map {A B C : Type} (f : A -> B) (g : B -> list C) (l : list A) :
  flat_map g (map f l) = flat_map (fun x => g (f x)) l.
Proof. induction l as [|a l IH]; simpl; [reflexivity|]. rewrite IH. reflexivity. Qed.

Lemma map_flat_map {A B C : Type} (f : B -> C) (g : A -> list B) (l : list A) :
  map f (flat_map g l) = flat_map (fun x => map f (g x)) l.
Proof.
  induction l as [|a l IH]; simpl; [reflexivity|]. rewrite map_app, IH. reflexivity.
Qed.

Lemma project_slugs_perm (db : Db) : Permutation (project_slugs db) (map p_id (projects db)).
Proof. apply sort_perm_any. Qed.

Lemma parseAllFiles_filter (fs : FS) :
  parseAllFiles fs =
    flat_map (fun e => parseTaskFile (fst e) (snd e))
             (filter (fun e => is_task_file (fst e)) fs).
Proof. unfold parseAllFiles. apply flat_map_filter. Qed.

(** After the projection the task files of the directory are the files of
    the projects, each with the rendered text of its project. *)
Lemma projected_task_files (dbTasks : list Task) (fs : FS) (db : Db) :
  NoDup (map p_id (projects db)) ->
  NoDup (map fst fs) ->
  no_stale_files fs (map p_id (projects db)) ->
  Permutation
    (filter (fun e => is_task_file (fst e)) (fst (projectDbToFiles dbTasks fs db)))
    (map (fun s => (file_name s, file_content fs dbTasks s)) (project_slugs db)).
Proof.
  intros Hp Hfs Hstale. rewrite projectDbToFiles_writes.
  set (W := map (fun s => (file_name s, file_content fs dbTasks s)) (project_slugs db)).
  assert (Hslugs : NoDup (project_slugs db)).
  { eapply Permutation_NoDup; [symmetry; apply project_slugs_perm|exact Hp]. }
  assert (HW : map fst W = map file_name (project_slugs db)).
  { unfold W. rewrite map_map. reflexivity. }
  assert (HWnd : NoDup (map fst W)).
  { rewrite HW. apply nodup_map_inj; [apply file_name_inj|exact Hslugs]. }
  destruct (write_all_spec W fs Hfs HWnd) as [Hnd Hin].
  apply NoDup_Permutation.
  - apply NoDup_filter. eapply NoDup_map_inv. exact Hnd.
  - eapply NoDup_map_inv. exact HWnd.
  - intros e. rewrite filter_In, Hin. split.
    + intros [[H|[He Hout]] Htask]; [exact H|]. exfalso. apply Hout.
      destruct e as [n c]. cbn [fst] in *. rewrite HW.
      rewrite (task_file_name n Htask). apply in_map.
      eapply Permutation_in; [symmetry; apply project_slugs_perm|].
      eapply Hstale; eassumption.
    + intros H. split; [left; exact H|].
      unfold W in H. apply in_map_iff in H. destruct H as (s & <- & _).
      apply file_name_is_task_file.
Qed.

Lemma project_file_round_trip (fs : FS) (dbTasks : list Task) (slug : string) :
  Forall (fun t => well_formed t = true) dbTasks ->
  slug_ok slug = true ->
  Permutation
    (map compared_fields (parseTaskFile (file_name slug) (file_content fs dbTasks slug)))
    (map compared_fields (filter (fun t => String.eqb (project_id t) slug) dbTasks)).
Proof.
  intros Hw Hs. unfold file_content. rewrite project_tasks_group.
  set (ts := filter (fun t => String.eqb (project_id t) slug) dbTasks).
  assert (Hts : Forall (fun t => well_formed t = true) ts).
  { rewrite Forall_forall in *. intros t Ht. apply Hw.
    unfold ts in Ht. apply filter_In in Ht. apply Ht. }
  rewrite (parse_render_project _ _ ts Hts (project_header_ok fs slug Hs)).
  apply Permutation_map. apply sections_perm. exact Hts.
Qed.

(** On a store with well-formed tasks, whose projects have usable ids and
    cover the tasks, and a directory without stale task files, the text the
    projector writes re-parses to the compared fields of the stored tasks. *)
Lemma store_round_trip_fields (fs : FS) (db : Db) :
  Forall (fun t => well_formed t = true) (getDbTasks db) ->
  NoDup (map p_id (projects db)) ->
  forallb slug_ok (map p_id (projects db)) = true ->
  Forall (fun t => In (project_id t) (map p_id (projects db))) (getDbTasks db) ->
  NoDup (map fst fs) ->
  no_stale_files fs (map p_id (projects db)) ->
  Permutation
    (map compared_fields
         (parseAllFiles (fst (projectDbToFiles (getDbTasks db) fs db))))
    (map compared_fields (getDbTasks db)).
Proof.
  intros Hw Hp Hok Hfk Hfs Hstale.
  set (dbt := getDbTasks db) in *.
  rewrite parseAllFiles_filter.
  rewrite (Permutation_flat_map _ (projected_task_files dbt fs db Hp Hfs Hstale)).
  rewrite flat_map_map, map_flat_map. cbn [fst snd].
  assert (Hslugs : NoDup (project_slugs db)).
  { eapply Permutation_NoDup; [symmetry; apply project_slugs_perm|exact Hp]. }
  transitivity (flat_map (fun s => map compared_fields
                                      (filter (fun t => String.eqb (project_id t) s) dbt))
                         (project_slugs db)).
  - assert (G : forall slugs,
               (forall s, In s slugs -> slug_ok s = true) ->
               Permutation
                 (flat_map (fun s => map compared_fields
                                       (parseTaskFile (file_name s) (file_content fs dbt s)))
                           slugs)
                 (flat_map (fun s => map compared_fields
                                       (filter (fun t => String.eqb (project_id t) s) dbt))
                           slugs)).
    { induction slugs as [|s slugs IH]; intros Hs; [reflexivity|]. cbn [flat_map].
      apply Permutation_app.
      - apply project_file_round_trip; [exact Hw|apply Hs; left; reflexivity].
      - apply IH. intros x Hx. apply Hs. right. exact Hx. }
    apply G. intros s Hs. rewrite forallb_forall in Hok. apply Hok.
    eapply Permutation_in; [apply project_slugs_perm|exact Hs].
  - rewrite <- map_flat_map. apply Permutation_map.
    apply (filter_by_key_perm project_id); [exact Hslugs|].
    eapply Forall_impl; [|exact Hfk]. intros t Ht.
    eapply Permutation_in; [symmetry; apply project_slugs_perm|exact Ht].
Qed.

(** C4 (as amended).  For a store whose tasks are well formed for the line
    format, hold no NUL and have distinct ids, whose projects have distinct
    ids usable as file names and include the project of every task, and for
    a tasks directory with distinct file names and no task file of an
    unknown project: after the store is projected to text, the text
    re-parses to records with the id, status, priority, owner and title of
    the stored tasks, the diff against the store is empty, and the check
    exits with 0. *)
Theorem C4_store_round_trip (fs : FS) (db : Db) :
  forallb (fun r => well_formed (row_task r)) (tasks db) = true ->
  store_no_nul db = true ->
  NoDup (map row_id (tasks db)) ->
  NoDup (map p_id (projects db)) ->
  forallb slug_ok (map p_id (projects db)) = true ->
  (forall r, In r (tasks db) -> In (project_id (row_task r)) (map p_id (projects db))) ->
  NoDup (map fst fs) ->
  no_stale_files fs (map p_id (projects db)) ->
  Permutation
    (map compared_fields (parseAllFiles (fst (projectDbToFiles (getDbTasks db) fs db))))
    (map compared_fields (getDbTasks db))
  /\ diffTasks (parseAllFiles (fst (projectDbToFiles (getDbTasks db) fs db)))
               (getDbTasks db) = []
  /\ check_exit (check_mode (parseAllFiles (fst (projectDbToFiles (getDbTasks db) fs db)))
                            (getDbTasks db)) = 0.
Proof.
  intros Hw _ Hnd Hp Hok Hfk Hfs Hstale.
  assert (Hin : forall t, In t (getDbTasks db) -> exists r, In r (tasks db) /\ row_task r = t).
  { intros t Ht. apply (Permutation_in _ (getDbTasks_perm db)) in Ht.
    apply in_map_iff in Ht. destruct Ht as (r & E & Hr). exists r. split; assumption. }
  assert (Hw' : Forall (fun t => well_formed t = true) (getDbTasks db)).
  { apply Forall_forall. intros t Ht. destruct (Hin t Ht) as (r & Hr & <-).
    rewrite forallb_forall in Hw. apply (Hw r Hr). }
  assert (Hfk' : Forall (fun t => In (project_id t) (map p_id (projects db))) (getDbTasks db)).
  { apply Forall_forall. intros t Ht. destruct (Hin t Ht) as (r & Hr & <-). apply Hfk. exact Hr. }
  pose proof (store_round_trip_fields fs db Hw' Hp Hok Hfk' Hfs Hstale) as Hperm.
  pose proof (getDbTasks_ids_nodup db Hnd) as Hids.
  assert (Hdiff : diffTasks (parseAllFiles (fst (projectDbToFiles (getDbTasks db) fs db)))
                            (getDbTasks db) = []).
  { apply diffTasks_nil_perm; [|exact Hids|exact Hperm].
    rewrite compared_ids. rewrite compared_ids in Hids.
    eapply Permutation_NoDup; [|exact Hids].
    apply Permutation_map. symmetry. exact Hperm. }
  split; [exact Hperm|]. split; [exact Hdiff|].
  rewrite check_mode_exit, Hdiff. reflexivity.
Qed.

Lemma C4_store_round_trip_witness :
  let fs' := fst (projectDbToFiles (getDbTasks Sample.db_one) Sample.fs_backlog Sample.db_one) in
  Permutation (map compared_fields (parseAllFiles fs'))
              (map compared_fields (getDbTasks Sample.db_one))
  /\ diffTasks (parseAllFiles fs') (getDbTasks Sample.db_one) = []
  /\ check_exit (check_mode (parseAllFiles fs') (getDbTasks Sample.db_one)) = 0.
Proof.
  apply (C4_store_round_trip Sample.fs_backlog Sample.db_one).
  - reflexivity.
  - reflexivity.
  - repeat constructor; simpl; intuition discriminate.
  - repeat constructor; simpl; intuition discriminate.
  - reflexivity.
  - intros r [<-|[<-|[]]]; simpl; auto.
  - repeat constructor; simpl; intuition.
  - intros n c [[= <- <-]|[]] _. left. reflexivity.
Defined.

(* ===================================================================== *)
(** ** Further properties of the lock and of the modes *)
(* ===================================================================== *)

(** X1.  Whatever the row holds and whatever the clock readings are, a
    [releaseLock] leaves the lock free: the next [acquireLock] succeeds,
    records its own owner and an expiry 60 seconds after its clock reading,
    and keeps the result the release recorded. *)
Theorem release_then_acquire (result : string) (t1 t2 : Z) (m : Mode) (db : Db) :
  let db1 := releaseLock result t1 db in
  let db2 := fst (acquireLock m t2 db1) in
  snd (acquireLock m t2 db1) = Acquired
  /\ option_map lock_owner (sync_state db2) = Some (Some ("task-sync:" ++ mode_name m))
  /\ option_map lock_until (sync_state db2) = Some (Some (Clock.toISOString (t2 + 60000)))
  /\ (sync_state db <> None ->
      option_map last_result (sync_state db2) = Some (Some result)
      /\ option_map last_sync_at (sync_state db2) = Some (Some (Clock.toISOString t1)))
  /\ tasks db2 = tasks db /\ projects db2 = projects db /\ transitions db2 = transitions db.
Proof.
  destruct db as [ps ts trs [s|]]; cbn.
  - repeat split; reflexivity.
  - repeat split; try reflexivity; contradiction.
Qed.

(** X2.  [handleSignal]: the exit code is 0 for SIGTERM and 130 for any
    other signal; no task, project or transition is touched; a process that
    does not hold the flag leaves the database as it is; one that holds it
    leaves the lock free, so that the next [acquireLock] succeeds. *)
Theorem interrupt_frees_lock (signal : string) (held : bool) (t1 t2 : Z) (m : Mode) (db : Db) :
  let db1 := fst (handleSignal signal held t1 db) in
  let code := snd (handleSignal signal held t1 db) in
  (code = 0 <-> signal = "SIGTERM") /\ (code <> 0 -> code = 130)
  /\ tasks db1 = tasks db /\ projects db1 = projects db /\ transitions db1 = transitions db
  /\ (held = false -> db1 = db)
  /\ (held = true ->
      snd (acquireLock m t2 db1) = Acquired
      /\ (sync_state db <> None ->
          option_map last_result (sync_state db1) = Some (Some ("interrupted: " ++ signal)))).
Proof.
  unfold handleSignal. cbn [fst snd].
  split; [|split].
  - destruct (String.eqb_spec signal "SIGTERM") as [E|E]; split; intros H;
      try reflexivity; try assumption; try discriminate; contradiction.
  - destruct (String.eqb signal "SIGTERM"); intros H; [contradiction|reflexivity].
  - destruct held.
    + destruct db as [ps ts trs [s|]]; cbn; repeat split; try reflexivity;
        try discriminate; contradiction.
    + repeat split; try reflexivity; discriminate.
Qed.

(** X3.  A files-to-db or db-to-files run that finds the lock held changes
    nothing, neither in the directory nor in the database (the lock row
    included), and exits with 1. *)
Theorem locked_run_changes_nothing (mode : Mode) (now : Z) (fs : FS) (db : Db)
        (o u : option string) :
  mode <> Check ->
  snd (acquireLock mode now db) = Locked o u ->
  main mode now fs db = (fs, db, 1)
  /\ exists r, sync_state db = Some r /\ lock_owner r = o /\ lock_until r = u /\ o <> None.
Proof.
  intros Hm Hl.
  destruct (lock_free now (singleton_row (sync_state db))) eqn:Hfree.
  - rewrite (acquireLock_when_free mode now db Hfree) in Hl. discriminate.
  - pose proof (acquireLock_when_held mode now db Hfree) as E.
    rewrite E in Hl. cbn [snd] in Hl. injection Hl as <- <-.
    destruct db as [ps ts trs [s|]]; [|discriminate Hfree].
    cbn [sync_state singleton_row] in *.
    split.
    + destruct mode; [| contradiction |]; unfold main; rewrite E; reflexivity.
    + exists s. repeat split. intros Ho. unfold lock_free in Hfree. rewrite Ho in Hfree.
      discriminate.
Qed.

Lemma locked_run_changes_nothing_witness :
  let held := fst (acquireLock DbToFiles Sample.t1 Sample.db_one) in
  main FilesToDb (Sample.t1 + 1000) Sample.fs_done held = (Sample.fs_done, held, 1).
Proof.
  intros held.
  refine (proj1 (locked_run_changes_nothing FilesToDb (Sample.t1 + 1000) Sample.fs_done held
                   (Some "task-sync:db-to-files") (Some "2026-02-20T12:06:00.000Z") _ _)).
  - discriminate.
  - vm_compute. reflexivity.
Defined.

(** X4.  On a store without NUL whose project ids name files of the tasks
    directory, so that what is read is what is stored and every write goes
    through: a db-to-files run that gets the lock exits with 0 and writes
    nothing to the database but the lock columns, the time and the result
    of the run: tasks, projects and transitions are as before, and the two
    fingerprints kept in [sync_state] are not refreshed. *)
Theorem db_to_files_database_footprint (now : Z) (fs : FS) (db : Db) :
  snd (acquireLock DbToFiles now db) = Acquired ->
  forallb slug_ok (map p_id (projects db)) = true ->
  store_no_nul db = true ->
  let '(fs', db', code) := main DbToFiles now fs db in
  code = 0
  /\ fs' = fst (projectDbToFiles (getDbTasks db) fs db)
  /\ tasks db' = tasks db /\ projects db' = projects db /\ transitions db' = transitions db
  /\ sync_state db' =
       Some (mkSync (files_hash (singleton_row (sync_state db)))
                    (db_hash (singleton_row (sync_state db)))
                    (Some (Clock.toISOString now)) None None (Some "ok")).
Proof.
  intros Hacq _ _.
  destruct (lock_free now (singleton_row (sync_state db))) eqn:Hfree.
  - unfold main. rewrite (acquireLock_when_free DbToFiles now db Hfree).
    cbn zeta.
    match goal with
    | |- context [projectDbToFiles ?a fs ?b] =>
        assert (E : projectDbToFiles a fs b = projectDbToFiles (getDbTasks db) fs db)
    end.
    { unfold projectDbToFiles, project_slugs, getDbTasks. reflexivity. }
    rewrite E. destruct (projectDbToFiles (getDbTasks db) fs db) as [fs' n].
    cbn. repeat split; reflexivity.
  - rewrite (acquireLock_when_held DbToFiles now db Hfree) in Hacq. discriminate.
Qed.

Lemma db_to_files_database_footprint_witness :
  let '(fs', db', code) := main DbToFiles Sample.t1 Sample.fs_backlog Sample.db_one in
  code = 0
  /\ fs' = fst (projectDbToFiles (getDbTasks Sample.db_one) Sample.fs_backlog Sample.db_one)
  /\ tasks db' = tasks Sample.db_one /\ projects db' = projects Sample.db_one
  /\ transitions db' = transitions Sample.db_one
  /\ sync_state db' =
       Some (mkSync (files_hash (singleton_row (sync_state Sample.db_one)))
                    (db_hash (singleton_row (sync_state Sample.db_one)))
                    (Some (Clock.toISOString Sample.t1)) None None (Some "ok")).
Proof.
  apply (db_to_files_database_footprint Sample.t1 Sample.fs_backlog Sample.db_one);
    vm_compute; reflexivity.
Defined.

(* ===================================================================== *)
(** ** Further properties of the parser *)
(* ===================================================================== *)

(** *** The matchers and the answer of the continuation *)

Lemma rparen_case {A : Type} (c : ascii) (a b : A) :
  match c with ")"%char => a | _ => b end = if Ascii.eqb c ")" then a else b.
Proof. destruct c as [[] [] [] [] [] [] [] []]; reflexivity. Qed.

Lemma lbracket_case {A : Type} (c : ascii) (a b : A) :
  match c with "["%char => a | _ => b end = if Ascii.eqb c "[" then a else b.
Proof. destruct c as [[] [] [] [] [] [] [] []]; reflexivity. Qed.

Lemma rbracket_case {A : Type} (c : ascii) (a b : A) :
  match c with "]"%char => a | _ => b end = if Ascii.eqb c "]" then a else b.
Proof. destruct c as [[] [] [] [] [] [] [] []]; reflexivity. Qed.

Lemma star_map {A B : Type} (f : A -> B) (p : ascii -> bool)
      (k : string -> string -> option A) (k' : string -> string -> option B) :
  (forall a b, k' a b = option_map f (k a b)) ->
  forall s pre, Re.star p k' pre s = option_map f (Re.star p k pre s).
Proof.
  intros Hk s. induction s as [|c s IH]; intros pre; simpl; [apply Hk|].
  destruct (p c); [|apply Hk]. rewrite IH.
  destruct (Re.star p k (Re.snoc pre c) s); simpl; [reflexivity|apply Hk].
Qed.

Lemma plus_map {A B : Type} (f : A -> B) (p : ascii -> bool)
      (k : string -> string -> option A) (k' : string -> string -> option B) :
  (forall a b, k' a b = option_map f (k a b)) ->
  forall s, Re.plus p k' s = option_map f (Re.plus p k s).
Proof.
  intros Hk s. destruct s as [|c s]; simpl; [reflexivity|].
  destruct (p c); [|reflexivity]. apply star_map. exact Hk.
Qed.

Lemma opt_tag_map {A B : Type} (f : A -> B)
      (k : option string -> string -> option A) (k' : option string -> string -> option B) :
  (forall a b, k' a b = option_map f (k a b)) ->
  forall s, Re.opt Re.bracket_tag k' s = option_map f (Re.opt Re.bracket_tag k s).
Proof.
  intros Hk s. unfold Re.opt.
  assert (E : Re.bracket_tag (fun cap rest => k' (Some cap) rest) s
              = option_map f (Re.bracket_tag (fun cap rest => k (Some cap) rest) s)).
  { unfold Re.bracket_tag. destruct s as [|c s]; [reflexivity|].
    rewrite !lbracket_case. destruct (Ascii.eqb c "["); [|reflexivity].
    apply star_map. intros a b. destruct b as [|d b]; [reflexivity|].
    rewrite !rbracket_case. destruct (Ascii.eqb d "]"); [|reflexivity]. apply Hk. }
  rewrite E. destruct (Re.bracket_tag (fun cap rest => k (Some cap) rest) s); simpl;
    [reflexivity|apply Hk].
Qed.

(** The groups of a task line do not depend on its checkbox. *)
Lemma TASK_RE_checkbox (r : string) :
  Re.TASK_RE ("- [x]" ++ r) =
    option_map (fun m => Re.mkMatch "x" (Re.m_id m) (Re.m_tag1 m) (Re.m_tag2 m) (Re.m_title m))
               (Re.TASK_RE ("- [ ]" ++ r)).
Proof.
  unfold Re.TASK_RE.
  change (Re.strip_prefix "- [" ("- [x]" ++ r)) with (Some (String "x" (String "]" r))).
  change (Re.strip_prefix "- [" ("- [ ]" ++ r)) with (Some (String " " (String "]" r))).
  cbv iota beta.
  change (Ascii.eqb "x" " " || Ascii.eqb "x" "x")%bool with true.
  change (Ascii.eqb " " " " || Ascii.eqb " " "x")%bool with true.
  cbv iota.
  destruct (Re.strip_prefix "] (task:" (String "]" r)) as [s2|]; [|reflexivity].
  apply plus_map. intros idv r0. destruct r0 as [|c r1]; [reflexivity|].
  rewrite !rparen_case. destruct (Ascii.eqb c ")"); [|reflexivity].
  apply star_map. intros _ r2. apply opt_tag_map. intros tag1 r3.
  apply star_map. intros _ r4. apply opt_tag_map. intros tag2 r5.
  apply star_map. intros _ r6. apply plus_map. intros ttl r7.
  destruct r7; reflexivity.
Qed.

(** X5.  The checkbox of a task line is decoration: the parser reads the
    same record from [- [x] ...] and from [- [ ] ...], the status being that
    of the heading above the line. *)
Theorem checkbox_is_ignored (slug : string) (st : option string) (r : string)
        (rest : list string) :
  parse_lines slug st (("- [x]" ++ r) :: rest) = parse_lines slug st (("- [ ]" ++ r) :: rest).
Proof.
  cbn [parse_lines].
  assert (E1 : Re.HEADER_RE ("- [x]" ++ r) = None) by reflexivity.
  assert (E2 : Re.HEADER_RE ("- [ ]" ++ r) = None) by reflexivity.
  rewrite E1, E2. destruct st as [s|]; [|reflexivity].
  rewrite TASK_RE_checkbox.
  destruct (Re.TASK_RE ("- [ ]" ++ r)) as [m|]; reflexivity.
Qed.

(** *** Two bracket tags *)

Lemma TASK_RE_two_tags (i a b ttl : string) :
  id_ok i = true ->
  JS.all_chars Re.not_rbracket a = true -> JS.all_chars Re.not_rbracket b = true ->
  tidy_title ttl = true ->
  Re.TASK_RE ("- [ ] (task:" ++ i ++ ") [" ++ a ++ "] [" ++ b ++ "] " ++ ttl)
  = Some (Re.mkMatch " " i (Some a) (Some b) ttl).
Proof.
  intros Hi Ha Hb Ht.
  unfold id_ok in Hi. apply andb_true_iff in Hi. destruct Hi as [Hne Hic].
  apply negb_true_iff in Hne. apply String.eqb_neq in Hne.
  destruct (tidy_title_facts _ Ht) as (Htne & Htd & _ & Hts).
  unfold Re.TASK_RE. cbn [append Re.strip_prefix Ascii.eqb Bool.eqb orb].
  apply plus_greedy; [exact Hne|exact Hic|reflexivity|].
  apply (star_greedy JS.is_space _ " " ""); [reflexivity|reflexivity|].
  apply opt_tag_present; [exact Ha|].
  apply (star_greedy JS.is_space _ " " ""); [reflexivity|reflexivity|].
  apply opt_tag_present; [exact Hb|].
  apply (star_greedy JS.is_space _ " " ""); [reflexivity|exact Hts|].
  apply (title_group ttl); assumption.
Qed.

(** X6.  The two bracket tags are told apart by their form, not by their
    place: with the owner tag in front of the priority tag the parser reads
    the record it reads with the priority tag in front. *)
Theorem tag_order_is_free (slug st i p o ttl : string) (rest : list string) :
  id_ok i = true -> Re.PRIORITY_RE p = true -> tag_ok o = true -> tidy_title ttl = true ->
  let owner_first := "- [ ] (task:" ++ i ++ ") [" ++ o ++ "] [" ++ p ++ "] " ++ ttl in
  let priority_first := "- [ ] (task:" ++ i ++ ") [" ++ p ++ "] [" ++ o ++ "] " ++ ttl in
  parse_lines slug (Some st) (owner_first :: rest)
  = parse_lines slug (Some st) (priority_first :: rest)
  /\ exists t,
       parse_lines slug (Some st) (owner_first :: rest)
       = t :: parse_lines slug (Some st) rest
       /\ id t = i /\ status t = st /\ priority t = p
       /\ owner_model t = JS.or_null (Some o) /\ title t = ttl.
Proof.
  intros Hi Hp Ho Ht owner_first priority_first.
  destruct (tidy_title_facts _ Ht) as (_ & _ & Htrim & _).
  destruct (priority_re_shape p Hp) as (d & Ep & Hd).
  assert (Hpb : JS.all_chars Re.not_rbracket p = true).
  { rewrite Ep. simpl. rewrite (digit_not_rbracket d Hd). reflexivity. }
  unfold tag_ok in Ho. apply andb_true_iff in Ho. destruct Ho as [Ho Hon].
  apply andb_true_iff in Ho. destruct Ho as [Hob _].
  apply negb_true_iff in Hon.
  assert (E1 : Re.HEADER_RE owner_first = None) by reflexivity.
  assert (E2 : Re.HEADER_RE priority_first = None) by reflexivity.
  cbn [parse_lines]. rewrite E1, E2.
  unfold owner_first, priority_first.
  rewrite (TASK_RE_two_tags i o p ttl Hi Hob Hpb Ht).
  rewrite (TASK_RE_two_tags i p o ttl Hi Hpb Hob Ht).
  cbn [Re.m_tag1 Re.m_tag2 Re.m_id Re.m_title].
  assert (Ec1 : classify_tags [Some o; Some p] "P2" None = (p, JS.or_null (Some o))).
  { clear E1 E2. subst p. destruct o as [|c o]; cbn [classify_tags].
    - rewrite Hp. reflexivity.
    - rewrite Hon, Hp. reflexivity. }
  assert (Ec2 : classify_tags [Some p; Some o] "P2" None = (p, JS.or_null (Some o))).
  { clear E1 E2 Ec1. subst p. cbn [classify_tags]. rewrite Hp.
    destruct o as [|c o]; [reflexivity|]. rewrite Hon. reflexivity. }
  rewrite Ec1, Ec2, Htrim. split; [reflexivity|].
  eexists. split; [reflexivity|]. repeat split; reflexivity.
Qed.

Lemma tag_order_is_free_witness :
  parse_lines "proj" (Some "backlog")
     ["- [ ] (task:proj-004) [codex] [P1] Rotate keys"; "  - note: before Friday"]
  = parse_lines "proj" (Some "backlog")
     ["- [ ] (task:proj-004) [P1] [codex] Rotate keys"; "  - note: before Friday"].
Proof.
  exact (proj1 (tag_order_is_free "proj" "backlog" "proj-004" "P1" "codex" "Rotate keys"
                  ["  - note: before Friday"]
                  eq_refl eq_refl eq_refl eq_refl)).
Defined.

(** *** What a match consists of *)

Lemma star_sound {A : Type} (p : ascii -> bool) (k : string -> string -> option A)
      (s pre : string) (x : A) :
  Re.star p k pre s = Some x ->
  exists cap rest,
    JS.all_chars p cap = true /\ s = cap ++ rest /\ k (pre ++ cap) rest = Some x.
Proof.
  revert pre. induction s as [|c s IH]; intros pre H; simpl in H.
  - exists "", "". rewrite (append_nil_r pre). repeat split. exact H.
  - assert (Hstop : k pre (String c s) = Some x ->
                    exists cap rest, JS.all_chars p cap = true
                      /\ String c s = cap ++ rest /\ k (pre ++ cap) rest = Some x).
    { intros Hk. exists "", (String c s). rewrite (append_nil_r pre). repeat split. exact Hk. }
    destruct (p c) eqn:Ec; [|exact (Hstop H)].
    destruct (Re.star p k (Re.snoc pre c) s) as [y|] eqn:E; [|exact (Hstop H)].
    injection H as ->. destruct (IH _ E) as (cap & rest & Hc & Hs & Hk).
    exists (String c cap), rest. simpl. rewrite Ec, Hc, Hs. repeat split.
    rewrite snoc_append in Hk. exact Hk.
Qed.

Lemma plus_sound {A : Type} (p : ascii -> bool) (k : string -> string -> option A)
      (s : string) (x : A) :
  Re.plus p k s = Some x ->
  exists cap rest,
    cap <> "" /\ JS.all_chars p cap = true /\ s = cap ++ rest /\ k cap rest = Some x.
Proof.
  destruct s as [|c s]; simpl; [discriminate|].
  destruct (p c) eqn:Ec; [|discriminate]. intros H.
  destruct (star_sound p k s _ x H) as (cap & rest & Hc & Hs & Hk).
  exists (String c cap), rest. simpl. rewrite Ec, Hc, Hs. repeat split.
  - discriminate.
  - exact Hk.
Qed.

Lemma bracket_tag_sound {A : Type} (k : string -> string -> option A) (s : string) (x : A) :
  Re.bracket_tag k s = Some x ->
  exists cap rest, JS.all_chars Re.not_rbracket cap = true /\ k cap rest = Some x.
Proof.
  unfold Re.bracket_tag. destruct s as [|c s]; [discriminate|].
  rewrite lbracket_case. destruct (Ascii.eqb c "["); [|discriminate].
  intros H. apply star_sound in H. destruct H as (cap & rest & Hc & _ & Hk).
  destruct rest as [|d rest]; [discriminate|].
  rewrite rbracket_case in Hk. destruct (Ascii.eqb d "]"); [|discriminate].
  exists cap, rest. split; [exact Hc|exact Hk].
Qed.

Lemma opt_tag_sound {A : Type} (k : option string -> string -> option A) (s : string) (x : A) :
  Re.opt Re.bracket_tag k s = Some x ->
  exists tag rest,
    (forall a, tag = Some a -> JS.all_chars Re.not_rbracket a = true)
    /\ k tag rest = Some x.
Proof.
  unfold Re.opt. intros H.
  destruct (Re.bracket_tag (fun cap rest => k (Some cap) rest) s) as [y|] eqn:E.
  - injection H as ->. apply bracket_tag_sound in E. destruct E as (cap & rest & Hc & Hk).
    exists (Some cap), rest. split; [|exact Hk]. intros a [= <-]. exact Hc.
  - exists None, s. split; [discriminate|exact H].
Qed.

(** The groups of any match of [TASK_RE]. *)
Lemma TASK_RE_sound (line : string) (m : Re.TaskMatch) :
  Re.TASK_RE line = Some m ->
  id_ok (Re.m_id m) = true
  /\ (forall a, Re.m_tag1 m = Some a -> JS.all_chars Re.not_rbracket a = true)
  /\ (forall a, Re.m_tag2 m = Some a -> JS.all_chars Re.not_rbracket a = true)
  /\ Re.m_title m <> "" /\ JS.all_chars Re.dot (Re.m_title m) = true.
Proof.
  unfold Re.TASK_RE.
  destruct (Re.strip_prefix "- [" line) as [[|box s1]|]; try discriminate.
  destruct (Ascii.eqb box " " || Ascii.eqb box "x")%bool; [|discriminate].
  destruct (Re.strip_prefix "] (task:" s1) as [s2|]; [|discriminate].
  intros H. apply plus_sound in H. destruct H as (idv & r & Hne & Hid & _ & H).
  destruct r as [|c r1]; [discriminate|].
  rewrite rparen_case in H. destruct (Ascii.eqb c ")"); [|discriminate].
  apply star_sound in H. destruct H as (_ & r2 & _ & _ & H).
  apply opt_tag_sound in H. destruct H as (tag1 & r3 & H1 & H).
  apply star_sound in H. destruct H as (_ & r4 & _ & _ & H).
  apply opt_tag_sound in H. destruct H as (tag2 & r5 & H2 & H).
  apply star_sound in H. destruct H as (_ & r6 & _ & _ & H).
  apply plus_sound in H. destruct H as (ttl & r7 & Htne & Htd & _ & H).
  destruct r7; [|discriminate]. injection H as <-.
  cbn [Re.m_id Re.m_tag1 Re.m_tag2 Re.m_title].
  repeat split; try assumption.
  unfold id_ok. rewrite Hid. apply String.eqb_neq in Hne. rewrite Hne. reflexivity.
Qed.

Lemma NOTE_RE_sound (line n : string) :
  Re.NOTE_RE line = Some n -> JS.all_chars Re.dot n = true.
Proof.
  unfold Re.NOTE_RE. intros H.
  apply plus_sound in H. destruct H as (_ & r & _ & _ & _ & H).
  destruct (Re.strip_prefix "- note:" r) as [r1|]; [|discriminate].
  apply star_sound in H. destruct H as (_ & r2 & _ & _ & H).
  apply plus_sound in H. destruct H as (cap & r3 & _ & Hd & _ & H).
  unfold Re.at_end in H. destruct r3; [|discriminate]. injection H as <-. exact Hd.
Qed.

(** *** [trim] *)

Lemma all_chars_trimStart (p : ascii -> bool) (s : string) :
  JS.all_chars p s = true -> JS.all_chars p (JS.trimStart s) = true.
Proof.
  induction s as [|c s IH]; simpl; [reflexivity|]. intros H.
  destruct (JS.is_space c); [|exact H].
  apply andb_true_iff in H. apply IH. apply H.
Qed.

Lemma all_chars_trimEnd (p : ascii -> bool) (s : string) :
  JS.all_chars p s = true -> JS.all_chars p (JS.trimEnd s) = true.
Proof.
  induction s as [|c s IH]; simpl; [reflexivity|]. intros H.
  apply andb_true_iff in H. destruct H as [Hc Hs]. specialize (IH Hs).
  destruct (JS.trimEnd s) as [|d r].
  - destruct (JS.is_space c); simpl; [reflexivity|]. rewrite Hc. reflexivity.
  - cbn [JS.all_chars]. rewrite Hc. exact IH.
Qed.

Lemma all_chars_trim (p : ascii -> bool) (s : string) :
  JS.all_chars p s = true -> JS.all_chars p (JS.trim s) = true.
Proof. intros H. apply all_chars_trimEnd, all_chars_trimStart, H. Qed.

Lemma trimEnd_idem (s : string) : JS.trimEnd (JS.trimEnd s) = JS.trimEnd s.
Proof.
  induction s as [|c s IH]; [reflexivity|]. cbn [JS.trimEnd].
  destruct (JS.trimEnd s) as [|d r] eqn:E.
  - destruct (JS.is_space c) eqn:Ec; [reflexivity|]. simpl. rewrite Ec. reflexivity.
  - change (JS.trimEnd (String c (String d r)))
      with (match JS.trimEnd (String d r) with
            | "" => if JS.is_space c then "" else String c ""
            | String a r0 => String c (String a r0)
            end).
    rewrite IH. reflexivity.
Qed.

Lemma trimStart_stops (s : string) : stops JS.is_space (JS.trimStart s).
Proof.
  induction s as [|c s IH]; simpl; [exact I|].
  destruct (JS.is_space c) eqn:Ec; [exact IH|]. simpl. exact Ec.
Qed.

Lemma trimEnd_stops (s : string) : stops JS.is_space s -> stops JS.is_space (JS.trimEnd s).
Proof.
  destruct s as [|c s]; [intros _; exact I|]. simpl. intros Hc.
  destruct (JS.trimEnd s); [rewrite Hc|]; simpl; exact Hc.
Qed.

Lemma trimStart_fixed (s : string) : stops JS.is_space s -> JS.trimStart s = s.
Proof. destruct s as [|c s]; [reflexivity|]. simpl. intros ->. reflexivity. Qed.

Lemma trim_idem (s : string) : JS.trim (JS.trim s) = JS.trim s.
Proof.
  unfold JS.trim.
  rewrite (trimStart_fixed (JS.trimEnd (JS.trimStart s))).
  - apply trimEnd_idem.
  - apply trimEnd_stops, trimStart_stops.
Qed.

(** *** The records *)

Lemma classify_tags_shape (tags : list (option string)) (prio : string)
      (model : option string) :
  (fst (classify_tags tags prio model) = prio
   \/ Re.PRIORITY_RE (fst (classify_tags tags prio model)) = true)
  /\ (snd (classify_tags tags prio model) = model
      \/ exists o, snd (classify_tags tags prio model) = Some o
                   /\ In (Some o) tags /\ o <> "" /\ Re.PRIORITY_RE o = false).
Proof.
  revert prio model. induction tags as [|tag tags IH]; intros prio model.
  - split; left; reflexivity.
  - assert (Hin : forall pr mo,
              (snd (classify_tags tags pr mo) = mo
               \/ exists o, snd (classify_tags tags pr mo) = Some o
                            /\ In (Some o) tags /\ o <> "" /\ Re.PRIORITY_RE o = false) ->
              (snd (classify_tags tags pr mo) = mo
               \/ exists o, snd (classify_tags tags pr mo) = Some o
                            /\ In (Some o) (tag :: tags) /\ o <> "" /\ Re.PRIORITY_RE o = false)).
    { intros pr mo [H|(o & H1 & H2 & H3)]; [left; exact H|].
      right. exists o. split; [exact H1|]. split; [right; exact H2|exact H3]. }
    destruct tag as [[|c t]|]; cbn [classify_tags].
    + destruct (IH prio model) as [H1 H2]. split; [exact H1|apply Hin; exact H2].
    + destruct (Re.PRIORITY_RE (String c t)) eqn:Ep.
      * destruct (IH (String c t) model) as [H1 H2]. split.
        -- right. destruct H1 as [-> | H1]; [exact Ep|exact H1].
        -- apply Hin. exact H2.
      * destruct (IH prio (Some (String c t))) as [H1 H2]. split; [exact H1|].
        right. destruct H2 as [H2|(o & E1 & E2 & E3)].
        -- exists (String c t). split; [exact H2|]. split; [left; reflexivity|].
           split; [discriminate|exact Ep].
        -- exists o. split; [exact E1|]. split; [right; exact E2|exact E3].
    + destruct (IH prio model) as [H1 H2]. split; [exact H1|apply Hin; exact H2].
Qed.

Lemma parse_lines_shape (slug : string) (lines : list string) (st : option string) (t : Task) :
  (forall s, st = Some s -> exists h, STATUS_MAP h = Some s) ->
  In t (parse_lines slug st lines) -> parsed_shape slug t.
Proof.
  revert st. induction lines as [|line rest IH]; intros st Hst Hin; [destruct Hin|].
  cbn [parse_lines] in Hin.
  destruct (Re.HEADER_RE line) as [h|].
  - apply (IH _ (fun s E => ex_intro _ _ E) Hin).
  - destruct st as [s|]; [|apply (IH None); [discriminate|exact Hin]].
    destruct (Re.TASK_RE line) as [m|] eqn:Em; [|apply (IH (Some s) Hst Hin)].
    destruct (classify_tags [Re.m_tag1 m; Re.m_tag2 m] "P2" None) as [prio model] eqn:Ec.
    destruct Hin as [<-|Hin]; [|apply (IH (Some s) Hst Hin)].
    destruct (TASK_RE_sound line m Em) as (Hid & Ht1 & Ht2 & _ & Htd).
    destruct (classify_tags_shape [Re.m_tag1 m; Re.m_tag2 m] "P2" None) as [Hp Hm].
    rewrite Ec in Hp, Hm. cbn [fst snd] in Hp, Hm.
    unfold parsed_shape.
    cbn [id project_id source_file title priority owner_model notes status].
    split; [exact Hid|]. split; [reflexivity|]. split; [reflexivity|].
    split; [apply all_chars_trim; exact Htd|]. split; [apply trim_idem|].
    split; [exact Hp|]. split; [|split].
    + intros o Eo. destruct Hm as [Hm|(o' & E1 & E2 & E3 & E4)]; [congruence|].
      assert (o' = o) by congruence. subst o'.
      split; [exact E3|]. split; [exact E4|].
      destruct E2 as [E2|[E2|[]]]; [apply Ht1|apply Ht2]; exact E2.
    + intros n En. destruct rest as [|next rest']; [discriminate|].
      destruct (Re.NOTE_RE next) as [n0|] eqn:E0; [|discriminate].
      injection En as <-. split; [|apply trim_idem].
      apply all_chars_trim. apply (NOTE_RE_sound next n0 E0).
    + apply Hst. reflexivity.
Qed.

(** X7.  Every record the parser reads from a task file has the shape
    [parsed_shape]: a non-empty id over [a-z0-9-], the project and source
    file of the file it stands in, a one-line trimmed title, a priority that
    is the default or of the form [P<digit>], an owner that is a non-empty
    tag not of that form, a one-line trimmed note, the status of a
    heading. *)
Theorem parsed_records_shape (fileName content : string) (t : Task) :
  In t (parseTaskFile fileName content) -> parsed_shape (slug_of fileName) t.
Proof.
  unfold parseTaskFile. apply parse_lines_shape. discriminate.
Qed.

Lemma parsed_records_shape_witness :
  parsed_shape "proj"
    (mkTask "proj-002" "proj" "[WIP] fix" "done" "P1" None None "tasks/proj-tasks.md").
Proof.
  apply (parsed_records_shape "proj-tasks.md" (snd (hd ("", "") Sample.fs_bracket_title))).
  vm_compute. left. reflexivity.
Defined.

Lemma headings_checked (lines : list string) :
  forallb (fun l => match Re.HEADER_RE l with
                    | Some h => match STATUS_MAP (JS.toLowerCase (JS.trim h)) with
                                | None => true
                                | Some _ => false
                                end
                    | None => true
                    end) lines = true ->
  forall l h, In l lines -> Re.HEADER_RE l = Some h ->
              STATUS_MAP (JS.toLowerCase (JS.trim h)) = None.
Proof.
  intros H l h Hin E. rewrite forallb_forall in H. specialize (H l Hin).
  rewrite E in H. destruct (STATUS_MAP (JS.toLowerCase (JS.trim h))); [discriminate|].
  reflexivity.
Qed.

(** X8.  Task lines count only under a heading [STATUS_MAP] knows: a file
    none of whose [## ] headings is one of them yields no record, whatever
    task lines it holds. *)
Theorem no_known_heading_no_record (fileName content : string) :
  (forall l h, In l (JS.split_lines content) -> Re.HEADER_RE l = Some h ->
               STATUS_MAP (JS.toLowerCase (JS.trim h)) = None) ->
  parseTaskFile fileName content = [].
Proof.
  unfold parseTaskFile. generalize (JS.split_lines content) as lines.
  induction lines as [|l lines IH]; intros H; [reflexivity|].
  cbn [parse_lines]. destruct (Re.HEADER_RE l) as [h|] eqn:E.
  - rewrite (H l h (or_introl eq_refl) E). apply IH.
    intros l' h' Hin. apply H. right. exact Hin.
  - apply IH. intros l' h' Hin. apply H. right. exact Hin.
Qed.

Lemma no_known_heading_no_record_witness :
  parseTaskFile "proj-tasks.md"
    ("# Tasks" ++ LF ++ "## To do" ++ LF ++ "- [ ] (task:proj-001) [P1] Wire up retries." ++ LF)
  = [].
Proof.
  apply no_known_heading_no_record. apply headings_checked. vm_compute. reflexivity.
Defined.

(* ===================================================================== *)
(** ** Further properties of the fingerprint and of the diff *)
(* ===================================================================== *)

(** *** The form of a fingerprint *)

Lemma hex_digit_is_hex (n : N) : (n < 16)%N -> is_hex (Sha256.hex_digit n) = true.
Proof.
  intros H. destruct n as [|p]; [reflexivity|].
  do 4 (destruct p as [p|p|]; try reflexivity); lia.
Qed.

Lemma fold_chars_shape {I : Type} (f : I -> ascii) (p : ascii -> bool) (l : list I) :
  (forall i, p (f i) = true) ->
  String.length (fold_right (fun i acc => String (f i) acc) "" l) = List.length l
  /\ JS.all_chars p (fold_right (fun i acc => String (f i) acc) "" l) = true.
Proof.
  intros H. induction l as [|i l [IH1 IH2]]; simpl; [split; reflexivity|].
  rewrite IH1, H, IH2. split; reflexivity.
Qed.

Lemma hex_word_shape (w : N) :
  String.length (Sha256.hex_word w) = 8%nat
  /\ JS.all_chars is_hex (Sha256.hex_word w) = true.
Proof.
  unfold Sha256.hex_word.
  apply (fold_chars_shape
           (fun i => Sha256.hex_digit (N.shiftr w (4 * N.of_nat i) mod 16)) is_hex
           (rev (seq 0 8))).
  intros i. apply hex_digit_is_hex. apply N.mod_lt. discriminate.
Qed.

Lemma hex_words_shape (ws : list N) :
  String.length (fold_right (fun w acc => Sha256.hex_word w ++ acc) "" ws)
  = (8 * List.length ws)%nat
  /\ JS.all_chars is_hex (fold_right (fun w acc => Sha256.hex_word w ++ acc) "" ws) = true.
Proof.
  induction ws as [|w ws [IH1 IH2]]; [split; reflexivity|].
  destruct (hex_word_shape w) as [H1 H2]. cbn [fold_right List.length].
  rewrite length_append, all_chars_app, H1, H2, IH1, IH2. split; [lia|reflexivity].
Qed.

Lemma compress_length (h block : list N) :
  List.length h = 8%nat -> List.length (Sha256.compress h block) = 8%nat.
Proof.
  intros H. unfold Sha256.compress. rewrite length_map, length_combine, H. reflexivity.
Qed.

Lemma blocks_length (fuel : nat) (h bytes : list N) :
  List.length h = 8%nat -> List.length (Sha256.blocks fuel h bytes) = 8%nat.
Proof.
  revert h bytes. induction fuel as [|fuel IH]; intros h bytes H; simpl; [exact H|].
  destruct bytes; [exact H|]. apply IH. apply compress_length. exact H.
Qed.

Lemma hex_shape (data : string) :
  String.length (Sha256.hex data) = 64%nat /\ JS.all_chars is_hex (Sha256.hex data) = true.
Proof.
  unfold Sha256.hex. destruct (hex_words_shape (Sha256.digest_words (Sha256.utf8 data)))
    as [H1 H2].
  rewrite H1, H2. split; [|reflexivity].
  unfold Sha256.digest_words. rewrite blocks_length; reflexivity.
Qed.

Lemma substring_shape (p : ascii -> bool) (n : nat) (s : string) :
  (n <= String.length s)%nat -> JS.all_chars p s = true ->
  String.length (String.substring 0 n s) = n
  /\ JS.all_chars p (String.substring 0 n s) = true.
Proof.
  revert s. induction n as [|n IH]; intros s Hn Hs.
  - destruct s; split; reflexivity.
  - destruct s as [|c s]; [simpl in Hn; lia|]. simpl in Hn, Hs |- *.
    apply andb_true_iff in Hs. destruct Hs as [Hc Hs].
    destruct (IH s) as [H1 H2]; [lia|exact Hs|]. rewrite H1, Hc, H2. split; reflexivity.
Qed.

(** X9.  A fingerprint is a string of 16 lower-case hexadecimal digits,
    whatever the records are. *)
Theorem fingerprint_form (l : list Task) :
  String.length (hashTasks l) = 16%nat /\ JS.all_chars is_hex (hashTasks l) = true.
Proof.
  unfold hashTasks. destruct (hex_shape (hash_data l)) as [H1 H2].
  apply substring_shape; [rewrite H1; lia|exact H2].
Qed.

(** *** The entries of a diff *)

Lemma keyed_flat_map {A B : Type} (ka : A -> string) (kb : B -> string)
      (g : A -> list B) (l : list A) :
  (forall a b, In b (g a) -> kb b = ka a) ->
  (forall a, (List.length (g a) <= 1)%nat) ->
  NoDup (map ka l) -> NoDup (map kb (flat_map g l)).
Proof.
  intros Hk H1. induction l as [|a l IH]; intros Hnd; simpl; [constructor|].
  inversion Hnd as [|? ? Hx Hnd']; subst. specialize (IH Hnd').
  specialize (H1 a). pose proof (Hk a) as Hka.
  destruct (g a) as [|b [|b' r]]; simpl in *; [exact IH| |lia].
  constructor; [|exact IH]. intros Hin. apply Hx.
  rewrite (Hka b (or_introl eq_refl)) in Hin.
  apply in_map_iff in Hin. destruct Hin as (b1 & E & Hb1).
  apply in_flat_map in Hb1. destruct Hb1 as (a1 & Ha1 & Hb1).
  rewrite <- E, (Hk a1 b1 Hb1). apply in_map. exact Ha1.
Qed.

Lemma entries_in (l : list Task) (k : string) (t : Task) :
  In (k, t) (task_entries l) <-> In t l /\ id t = k.
Proof.
  unfold task_entries. rewrite in_map_iff. split.
  - intros (t' & [= <- <-] & H). split; [exact H|reflexivity].
  - intros [H <-]. exists t. split; [reflexivity|exact H].
Qed.

(** X10.  With distinct ids on either side, the diff holds exactly: a
    [file_only] entry for every file record whose id the store does not
    have; a [changed] entry for every file record whose id the store has
    with another status, priority, owner or title, carrying both records
    and the list of the changes; a [db_only] entry for every stored record
    whose id no file has; and no id twice. *)
Theorem diff_entries (f d : list Task) :
  NoDup (map id f) -> NoDup (map id d) ->
  (forall k t, In (file_only k t) (diffTasks f d)
               <-> In t f /\ id t = k /\ ~ In k (map id d))
  /\ (forall k ch ft dt, In (changed k ch ft dt) (diffTasks f d)
               <-> In ft f /\ In dt d /\ id ft = k /\ id dt = k
                   /\ ch = field_changes ft dt /\ ch <> [])
  /\ (forall k t, In (db_only k t) (diffTasks f d)
               <-> In t d /\ id t = k /\ ~ In k (map id f))
  /\ NoDup (map diff_id (diffTasks f d)).
Proof.
  intros Hf Hd. unfold diffTasks.
  rewrite !map_of_nodup by (rewrite task_entries_keys; assumption).
  assert (Hfile : forall x, In x (diff_file_side (task_entries d) (task_entries f)) <->
            exists t, In t f /\
              match map_get (id t) (task_entries d) with
              | None => x = file_only (id t) t
              | Some dt => field_changes t dt <> []
                           /\ x = changed (id t) (field_changes t dt) t dt
              end).
  { intros x. unfold diff_file_side. rewrite in_flat_map. split.
    - intros ([k t] & Hin & Hx). apply entries_in in Hin. destruct Hin as [Ht <-].
      exists t. split; [exact Ht|]. cbn [fst snd] in Hx.
      destruct (map_get (id t) (task_entries d)) as [dt|].
      + destruct (field_changes t dt) as [|c cs]; [destruct Hx|].
        destruct Hx as [<-|[]]. split; [discriminate|reflexivity].
      + destruct Hx as [<-|[]]. reflexivity.
    - intros (t & Ht & Hx). exists (id t, t). split; [apply entries_in; auto|].
      cbn [fst snd]. destruct (map_get (id t) (task_entries d)) as [dt|].
      + destruct Hx as [Hne ->]. destruct (field_changes t dt); [congruence|].
        left. reflexivity.
      + left. symmetry. exact Hx. }
  assert (Hdb : forall x, In x (diff_db_side (task_entries f) (task_entries d)) <->
            exists t, In t d /\ ~ In (id t) (map id f) /\ x = db_only (id t) t).
  { intros x. unfold diff_db_side. rewrite in_flat_map. split.
    - intros ([k t] & Hin & Hx). apply entries_in in Hin. destruct Hin as [Ht <-].
      exists t. split; [exact Ht|]. cbn [fst snd] in Hx. unfold map_has in Hx.
      destruct (map_get (id t) (task_entries f)) eqn:E; [destruct Hx|].
      apply map_get_none in E. rewrite task_entries_keys in E.
      destruct Hx as [<-|[]]. split; [exact E|reflexivity].
    - intros (t & Ht & Hn & ->). exists (id t, t). split; [apply entries_in; auto|].
      cbn [fst snd]. unfold map_has.
      destruct (map_get (id t) (task_entries f)) eqn:E.
      + apply map_get_entries_some in E. destruct E as [Hin E].
        exfalso. apply Hn. rewrite <- E. apply in_map. exact Hin.
      + left. reflexivity. }
  split; [|split; [|split]].
  - intros k t. rewrite in_app_iff, Hfile, Hdb. split.
    + intros [(t' & Ht' & Hx)|(t' & _ & _ & Hx)]; [|discriminate].
      destruct (map_get (id t') (task_entries d)) eqn:E.
      * destruct Hx as [_ Hx]. discriminate.
      * injection Hx as -> ->. apply map_get_none in E. rewrite task_entries_keys in E.
        repeat split; assumption.
    + intros (Ht & <- & Hn). left. exists t. split; [exact Ht|].
      destruct (map_get (id t) (task_entries d)) eqn:E; [|reflexivity].
      apply map_get_entries_some in E. destruct E as [Hin E].
      exfalso. apply Hn. rewrite <- E. apply in_map. exact Hin.
  - intros k ch ft dt. rewrite in_app_iff, Hfile, Hdb. split.
    + intros [(t' & Ht' & Hx)|(t' & _ & _ & Hx)]; [|discriminate].
      destruct (map_get (id t') (task_entries d)) as [dt'|] eqn:E; [|discriminate].
      destruct Hx as [Hne Hx]. injection Hx as -> -> -> ->.
      apply map_get_entries_some in E. destruct E as [Hin E].
      repeat split; assumption.
    + intros (Hft & Hdt & <- & E & -> & Hne). left. exists ft. split; [exact Hft|].
      rewrite <- E. rewrite (map_get_entries_in dt d Hd Hdt). rewrite E.
      split; [exact Hne|reflexivity].
  - intros k t. rewrite in_app_iff, Hfile, Hdb. split.
    + intros [(t' & Ht' & Hx)|(t' & Ht' & Hn & Hx)].
      * destruct (map_get (id t') (task_entries d)); [destruct Hx|]; discriminate.
      * injection Hx as -> ->. repeat split; assumption.
    + intros (Ht & <- & Hn). right. exists t. repeat split; assumption.
  - rewrite map_app. apply NoDup_app.
    + unfold diff_file_side.
      apply (keyed_flat_map fst diff_id); [| |rewrite task_entries_keys; exact Hf].
      * intros [k t] b. cbn [fst snd]. destruct (map_get k (task_entries d)) as [dt|].
        -- destruct (field_changes t dt); [intros []|]. intros [<-|[]]. reflexivity.
        -- intros [<-|[]]. reflexivity.
      * intros [k t]. cbn [fst snd]. destruct (map_get k (task_entries d)) as [dt|];
          [destruct (field_changes t dt)|]; simpl; lia.
    + unfold diff_db_side.
      apply (keyed_flat_map fst diff_id); [| |rewrite task_entries_keys; exact Hd].
      * intros [k t] b. cbn [fst snd]. destruct (map_has k (task_entries f));
          [intros []|]. intros [<-|[]]. reflexivity.
      * intros [k t]. cbn [fst snd]. destruct (map_has k (task_entries f)); simpl; lia.
    + intros k H1 H2.
      apply in_map_iff in H1. destruct H1 as (x & Ex & Hx).
      apply in_map_iff in H2. destruct H2 as (y & Ey & Hy).
      apply Hfile in Hx. apply Hdb in Hy.
      destruct Hx as (t & Ht & Hx). destruct Hy as (u & Hu & Hn & ->).
      simpl in Ey. apply Hn. rewrite Ey, <- Ex.
      destruct (map_get (id t) (task_entries d)); [destruct Hx as [_ ->]|subst x];
        simpl; apply in_map; exact Ht.
Qed.

Lemma diff_entries_witness :
  In (db_only "old-007" (row_task Sample.row_old))
     (diffTasks (parseAllFiles Sample.fs_backlog) (getDbTasks Sample.db_one))
  <-> In (row_task Sample.row_old) (getDbTasks Sample.db_one)
      /\ id (row_task Sample.row_old) = "old-007"
      /\ ~ In "old-007" (map id (parseAllFiles Sample.fs_backlog)).
Proof.
  refine (proj1 (proj2 (proj2 (diff_entries (parseAllFiles Sample.fs_backlog)
                                 (getDbTasks Sample.db_one) _ _)))
                "old-007" (row_task Sample.row_old)).
  - vm_compute. repeat constructor; simpl; intuition discriminate.
  - vm_compute. repeat constructor; simpl; intuition discriminate.
Defined.

(** *** An id that stands twice in the files *)

Lemma map_get_fold {V : Type} (es acc : list (string * V)) (k : string) :
  map_get k (fold_left (fun m e => map_set (fst e) (snd e) m) es acc) =
    match map_get k (rev es) with
    | Some v => Some v
    | None => map_get k acc
    end.
Proof.
  revert acc. induction es as [|[k' v'] es IH]; intros acc; [reflexivity|].
  cbn [fold_left rev fst snd]. rewrite IH, map_get_app.
  destruct (map_get k (rev es)); [reflexivity|]. cbn [map_get].
  destruct (String.eqb_spec k k') as [->|Hne].
  - apply map_get_set_same.
  - apply map_get_set_other. exact Hne.
Qed.

Lemma map_get_map_of {V : Type} (es : list (string * V)) (k : string) :
  map_get k (map_of es) = map_get k (rev es).
Proof.
  unfold map_of. rewrite map_get_fold. destruct (map_get k (rev es)); reflexivity.
Qed.

Lemma map_get_in {V : Type} (m : JsMap V) (k : string) (v : V) :
  NoDup (map fst m) -> (In (k, v) m <-> map_get k m = Some v).
Proof.
  induction m as [|[k' v'] m IH]; intros Hnd; simpl.
  - split; [intros []|discriminate].
  - inversion Hnd as [|? ? Hx Hnd']; subst.
    destruct (String.eqb_spec k k') as [->|Hne].
    + split.
      * intros [[= ->]|H]; [reflexivity|]. exfalso. apply Hx.
        apply (in_map fst _ _ H).
      * intros [= ->]. left. reflexivity.
    + rewrite <- (IH Hnd'). split.
      * intros [[= E _]|H]; [congruence|exact H].
      * intros H. right. exact H.
Qed.

(** The last of two entries with one key decides what the map holds. *)
Lemma map_of_shadowed {V : Type} (es1 es2 : list (string * V)) (k : string) (v : V)
      (k' : string) :
  In k (map fst es2) ->
  map_get k' (map_of (es1 ++ (k, v) :: es2)) = map_get k' (map_of (es1 ++ es2)).
Proof.
  intros Hin. rewrite !map_get_map_of, !rev_app_distr. cbn [rev].
  rewrite <- app_assoc, !map_get_app. cbn [app map_get].
  destruct (map_get k' (rev es2)) eqn:E; [reflexivity|].
  destruct (String.eqb_spec k' k) as [->|Hne]; [|reflexivity].
  exfalso. apply map_get_none in E. apply E. rewrite map_rev. apply in_rev in Hin.
  exact Hin.
Qed.

(** X11.  When an id stands twice in the files, the later record is the
    one the diff sees: the entries of the diff are those of the files
    without the earlier record. *)
Theorem later_duplicate_wins (f1 f2 : list Task) (t : Task) (dbt : list Task) :
  In (id t) (map id f2) ->
  forall d, In d (diffTasks (f1 ++ t :: f2) dbt) <-> In d (diffTasks (f1 ++ f2) dbt).
Proof.
  intros Hin d.
  assert (Hget : forall k, map_get k (map_of (task_entries (f1 ++ t :: f2)))
                           = map_get k (map_of (task_entries (f1 ++ f2)))).
  { intros k. unfold task_entries. rewrite !map_app. cbn [map].
    apply map_of_shadowed. rewrite map_map. exact Hin. }
  assert (Hent : forall e, In e (map_of (task_entries (f1 ++ t :: f2)))
                           <-> In e (map_of (task_entries (f1 ++ f2)))).
  { intros [k v]. rewrite !map_get_in by apply map_of_keys_nodup.
    rewrite Hget. reflexivity. }
  unfold diffTasks. rewrite !in_app_iff.
  unfold diff_file_side, diff_db_side, map_has. rewrite !in_flat_map.
  split; (intros [(e & He & Hd)|(e & He & Hd)]; [left|right]; exists e; split;
          try exact He; try (apply Hent; exact He)).
  - exact Hd.
  - rewrite <- Hget. exact Hd.
  - exact Hd.
  - rewrite Hget. exact Hd.
Qed.

Lemma later_duplicate_wins_witness :
  let later := mkTask "proj-001" "proj" "Wire up retries, then alert" "done" "P1"
                      None None "tasks/proj-tasks.md" in
  In (file_only "proj-001" later) (diffTasks ([] ++ Sample.task_a :: [later]) [])
  <-> In (file_only "proj-001" later) (diffTasks ([] ++ [later]) []).
Proof.
  intros later.
  apply (later_duplicate_wins [] [later] Sample.task_a [] (or_introl eq_refl)
           (file_only "proj-001" later)).
Defined.

(* ===================================================================== *)
(** ** Further properties of the apply *)
(* ===================================================================== *)

(** *** The counters *)

Lemma apply_diffs_counts now diffs c db db' c' :
  apply_diffs now diffs c db = (db', Ok c') ->
  fst c' = (fst c + List.length (filter is_file_only diffs))%nat
  /\ snd c' = (snd c + List.length (filter is_changed diffs))%nat.
Proof.
  revert c db. induction diffs as [|d rest IH]; intros c db H; simpl in H.
  - injection H as _ <-. simpl. split; lia.
  - apply bind_ok_inv in H. destruct H as (u & db1 & _ & H2).
    apply IH in H2. destruct H2 as [E1 E2]. rewrite E1, E2.
    destruct d; simpl; split; lia.
Qed.

Lemma kinds_partition (diffs : list Diff) :
  (List.length (filter is_file_only diffs) + List.length (filter is_changed diffs)
   + List.length (filter is_db_only diffs) = List.length diffs)%nat.
Proof.
  induction diffs as [|d rest IH]; [reflexivity|]. destruct d; simpl; lia.
Qed.

(** X12.  The three numbers a successful apply reports are the numbers of
    [file_only], [changed] and [db_only] entries of the diff it was given;
    together they count every entry once. *)
Theorem sync_counts now fs f dbt diffs db db' c :
  syncFilesToDb now fs f dbt diffs db = (db', Ok c) ->
  added c = List.length (filter is_file_only diffs)
  /\ updated c = List.length (filter is_changed diffs)
  /\ dbOnly c = List.length (filter is_db_only diffs)
  /\ (added c + updated c + dbOnly c = List.length diffs)%nat.
Proof.
  intros H. apply syncFilesToDb_ok in H. destruct H as (dbp & dba & c0 & _ & Hl & _ & ->).
  apply apply_diffs_counts in Hl. destruct Hl as [E1 E2]. simpl in E1, E2.
  cbn [added updated dbOnly]. rewrite E1, E2.
  repeat split. apply kinds_partition.
Qed.

Lemma sync_counts_witness :
  let f := parseAllFiles Sample.fs_in_progress in
  let dbt := getDbTasks Sample.db_one in
  exists db',
    syncFilesToDb Sample.t1 Sample.fs_in_progress f dbt (diffTasks f dbt) Sample.db_one
    = (db', Ok (mkCounts 0 1 1))
    /\ List.length (diffTasks f dbt) = 2%nat.
Proof.
  intros f dbt. eexists. split; [vm_compute; reflexivity|].
  match goal with
  | |- _ = ?n =>
      assert (E : syncFilesToDb Sample.t1 Sample.fs_in_progress f dbt (diffTasks f dbt)
                    Sample.db_one
                  = (fst (syncFilesToDb Sample.t1 Sample.fs_in_progress f dbt (diffTasks f dbt)
                            Sample.db_one), Ok (mkCounts 0 1 1)))
        by (vm_compute; reflexivity)
  end.
  destruct (sync_counts _ _ _ _ _ _ _ _ E) as (_ & _ & _ & H).
  symmetry. exact H.
Defined.

(** *** The projects created on the way *)



(** *** When the apply succeeds *)








(** *** What an upsert keeps of the row in conflict *)

Lemma compared_differ_fields (old t : Task) :
  id old = id t ->
  (compared_differ old t = false <-> compared_fields old = compared_fields t).
Proof.
  intros Eid. unfold compared_differ, compared_fields. rewrite !orb_false_iff, !negb_false_iff.
  rewrite !String.eqb_eq. split.
  - intros (((-> & ->) & ->) & ->). rewrite Eid. reflexivity.
  - intros [= _ -> -> -> ->]. repeat split.
Qed.

(** X15.  An upsert that meets a row with its id keeps the row's project,
    creation time and legacy key: only title, status, priority, owner and
    source file are taken from the file record (and the note, unless it is
    absent).  [updated_at] moves to the time of the statement when status,
    priority, owner or title differ, and stays when they do not - a new
    note or source file alone does not move it. *)
Theorem upsert_keeps_identity now t db db' r :
  upsert now t db = Ok db' ->
  find_row (id t) (tasks db) = Some r ->
  exists r',
    find_row (id t) (tasks db') = Some r'
    /\ project_id (row_task r') = project_id (row_task r)
    /\ created_at r' = created_at r
    /\ legacy_key r' = legacy_key r
    /\ compared_fields (row_task r') = compared_fields t
    /\ source_file (row_task r') = source_file t
    /\ (compared_fields (row_task r) = compared_fields t -> updated_at r' = updated_at r)
    /\ (compared_fields (row_task r) <> compared_fields t ->
        updated_at r' = Clock.sqlite_strftime_iso now)
    /\ map row_id (tasks db') = map row_id (tasks db).
Proof.
  intros H Hr. pose proof (upsert_row now t db db' H) as Hrow. rewrite Hr in Hrow.
  pose proof (find_row_some _ _ _ Hr) as [_ Eid]. unfold row_id in Eid.
  exists (update_row now t r). split; [exact Hrow|].
  pose proof (compared_differ_fields (row_task r) t Eid) as Hc.
  unfold update_row. cbn [row_task created_at legacy_key updated_at project_id source_file].
  repeat split.
  - unfold compared_fields. cbn [id status priority owner_model title]. rewrite Eid.
    reflexivity.
  - intros E. apply Hc in E. rewrite E. reflexivity.
  - intros E. destruct (compared_differ (row_task r) t); [reflexivity|].
    exfalso. apply E. apply Hc. reflexivity.
  - apply upsert_inv in H. destruct H as (_ & _ & [(r0 & _ & ->)|(Hn & _)]).
    + cbn [tasks set_tasks]. apply update_rows_ids.
    + congruence.
Qed.

Lemma upsert_keeps_identity_witness :
  exists r',
    find_row "proj-001"
      (tasks (set_tasks Sample.db_one
                (update_rows Sample.t1
                   (mkTask "proj-001" "elsewhere" "Wire up retries." "backlog" "P2" None
                           (Some "ops agreed") "tasks/elsewhere-tasks.md")
                   (tasks Sample.db_one)))) = Some r'
    /\ project_id (row_task r') = "proj"
    /\ updated_at r' = "2026-02-19T08:00:00.000Z".
Proof.
  destruct (upsert_keeps_identity Sample.t1
              (mkTask "proj-001" "elsewhere" "Wire up retries." "backlog" "P2" None
                      (Some "ops agreed") "tasks/elsewhere-tasks.md")
              Sample.db_one _ Sample.row1 eq_refl eq_refl)
    as (r' & H1 & H2 & _ & _ & _ & _ & H3 & _).
  exists r'. split; [exact H1|]. split; [exact H2|]. apply H3. reflexivity.
Defined.

(** *** A note that is the only change *)

(** X16.  The apply writes the records of the diff, and the diff does not
    look at notes: on a store without NUL, which hands back what it holds,
    when every file record has its id in the store with the same status,
    priority, owner and title, a files-to-db run succeeds and leaves every
    row and the audit trail as they were - a note that was added or edited
    in the file is not stored. *)
Theorem note_only_edit_not_stored (now : Z) (fs : FS) (db : Db) :
  snd (acquireLock FilesToDb now db) = Acquired ->
  NoDup (map row_id (tasks db)) ->
  store_no_nul db = true ->
  (forall t, In t (parseAllFiles fs) ->
     exists r, In r (tasks db) /\ compared_fields (row_task r) = compared_fields t) ->
  exists db',
    main FilesToDb now fs db = (fs, db', 0)
    /\ tasks db' = tasks db /\ transitions db' = transitions db.
Proof.
  intros Hacq Hnd _ Hsame. unfold main.
  pose proof (acquireLock_tasks FilesToDb now db) as Ht1.
  pose proof (acquireLock_frame FilesToDb now db) as Hf1.
  destruct (acquireLock FilesToDb now db) as [db1 res] eqn:Ea.
  cbn [snd fst] in *. subst res.
  rewrite (getDbTasks_tasks db db1 Ht1).
  set (f := parseAllFiles fs) in *.
  assert (Hsync : forall k t, In (k, t) (map_of (task_entries f)) -> synced t (tasks db)).
  { intros k t Hin. apply file_map_entry in Hin. destruct Hin as [_ Hin].
    destruct (Hsame t Hin) as (r & Hr & Ec).
    assert (Eid : id (row_task r) = id t) by (unfold compared_fields in Ec; congruence).
    exists r. split.
    - destruct (find_row (id t) (tasks db)) as [r0|] eqn:E.
      + apply find_row_some in E. destruct E as [Hr0 E0]. f_equal.
        clear - Hnd Hr Hr0 E0 Eid. unfold row_id in *.
        induction (tasks db) as [|x l IH]; [destruct Hr|].
        simpl in Hnd. inversion Hnd as [|? ? Hx Hnd']; subst.
        destruct Hr as [->|Hr], Hr0 as [->|Hr0].
        * reflexivity.
        * exfalso. apply Hx. rewrite Eid, <- E0. apply (in_map (fun r => id (row_task r))).
          exact Hr0.
        * exfalso. apply Hx. rewrite E0, <- Eid. apply (in_map (fun r => id (row_task r))).
          exact Hr.
        * apply IH; assumption.
      + apply find_row_none in E. exfalso. apply E. rewrite <- Eid.
        apply (in_map row_id). exact Hr.
    - apply field_changes_compared; [symmetry; exact Eid|exact Ec]. }
  unfold syncFilesToDb.
  destruct (create_missing_projects_total now (map p_id (projects db1)) [] f db1) as (dbp & Ep).
  pose proof (create_missing_projects_rest now (map p_id (projects db1)) [] f db1) as Hr.
  pose proof (create_missing_projects_transitions now (map p_id (projects db1)) [] f db1) as Htr.
  rewrite Ep in Hr, Htr. cbn [fst] in Hr, Htr. destruct Hr as [Htp Hsp].
  unfold bind at 1. rewrite Ep.
  unfold bind at 1.
  rewrite apply_diffs_db_only by (apply diffTasks_all_synced; assumption).
  unfold bind, run, update_hashes, ret.
  destruct (sync_state dbp) as [s|] eqn:Es; eexists; (split; [reflexivity|]).
  - rewrite releaseLock_tasks. cbn [tasks set_sync]. split; [congruence|].
    unfold releaseLock. cbn. destruct Hf1 as [_ Hf1]. congruence.
  - rewrite releaseLock_tasks. split; [congruence|].
    unfold releaseLock. rewrite Es. destruct Hf1 as [_ Hf1]. congruence.
Qed.

Lemma note_only_edit_not_stored_witness :
  let fs := Sample.file ("## Backlog" ++ LF ++ "- [ ] (task:proj-001) [P2] Wire up retries."
                         ++ LF ++ "  - note: ops agreed" ++ LF) in
  map notes (parseAllFiles fs) = [Some "ops agreed"]
  /\ exists db',
       main FilesToDb Sample.t1 fs Sample.db_one = (fs, db', 0)
       /\ tasks db' = tasks Sample.db_one /\ transitions db' = transitions Sample.db_one.
Proof.
  intros fs. split; [vm_compute; reflexivity|].
  apply note_only_edit_not_stored.
  - vm_compute. reflexivity.
  - vm_compute. repeat constructor; simpl; intuition discriminate.
  - vm_compute. reflexivity.
  - intros t Ht. vm_compute in Ht. destruct Ht as [<-|[]].
    exists Sample.row1. split; [left; reflexivity|reflexivity].
Defined.

(** *** The name of an auto-created project *)

Lemma name_char_round_trip (c : ascii) (b : bool) :
  Re.id_char c = true ->
  (let c' := if Ascii.eqb c "-" then " "%char else c in
   let n := if (JS.is_word c' && negb b)%bool then JS.upper_char c' else c' in
   if Ascii.eqb (JS.lower_char n) " " then "-"%char else JS.lower_char n) = c.
Proof.
  destruct c as [[] [] [] [] [] [] [] []]; destruct b; intros H;
    try discriminate H; reflexivity.
Qed.

Lemma title_case_round_trip (b : bool) (s : string) :
  JS.all_chars Re.id_char s = true ->
  JS.map_chars (fun c => if Ascii.eqb c " " then "-"%char else c)
    (JS.map_chars JS.lower_char
       (title_case b (JS.map_chars (fun c => if Ascii.eqb c "-" then " "%char else c) s)))
  = s.
Proof.
  revert b. induction s as [|c s IH]; intros b H; [reflexivity|].
  simpl in H. apply andb_true_iff in H. destruct H as [Hc Hs].
  cbn [JS.map_chars title_case]. cbv beta.
  pose proof (name_char_round_trip c b Hc) as E1.
  cbv zeta in E1. rewrite E1. f_equal. apply IH. exact Hs.
Qed.

(** X17.  The display name given to an auto-created project determines its
    slug: for a slug over [a-z0-9-], putting the name in lower case and the
    hyphens back in place of the blanks gives the slug again. *)
Theorem project_name_round_trip (slug : string) :
  JS.all_chars Re.id_char slug = true ->
  JS.map_chars (fun c => if Ascii.eqb c " " then "-"%char else c)
               (JS.toLowerCase (project_name slug)) = slug.
Proof. apply title_case_round_trip. Qed.

Lemma project_name_round_trip_witness :
  project_name "my-app-2" = "My App 2"
  /\ JS.map_chars (fun c => if Ascii.eqb c " " then "-"%char else c)
                  (JS.toLowerCase (project_name "my-app-2")) = "my-app-2".
Proof.
  split; [reflexivity|]. apply project_name_round_trip. reflexivity.
Defined.

(* ===================================================================== *)
(** ** Further properties of the projector *)
(* ===================================================================== *)

(** *** Lines without carriage returns *)

Lemma code_13 (c : ascii) : N.eqb (JS.code c) 13 = Ascii.eqb c CRc.
Proof.
  destruct (Ascii.eqb_spec c CRc) as [->|Hne]; [reflexivity|].
  destruct (N.eqb_spec (JS.code c) 13) as [E|_]; [|reflexivity].
  exfalso. apply Hne. unfold JS.code in E. rewrite <- (ascii_N_embedding c), E. reflexivity.
Qed.

Lemma code_10 (c : ascii) : N.eqb (JS.code c) 10 = Ascii.eqb c LFc.
Proof.
  destruct (Ascii.eqb_spec c LFc) as [->|Hne]; [reflexivity|].
  destruct (N.eqb_spec (JS.code c) 10) as [E|_]; [|reflexivity].
  exfalso. apply Hne. unfold JS.code in E. rewrite <- (ascii_N_embedding c), E. reflexivity.
Qed.

Lemma all_chars_rev_string (p : ascii -> bool) (acc s : string) :
  JS.all_chars p (JS.rev_string acc s) = (JS.all_chars p s && JS.all_chars p acc)%bool.
Proof.
  revert acc. induction s as [|c s IH]; intros acc; simpl; [reflexivity|].
  rewrite IH. simpl. rewrite andb_assoc, (andb_comm (JS.all_chars p s)). reflexivity.
Qed.

(** The lines of a text with Unix or Windows line ends hold no carriage
    return. *)
Lemma split_lines_no_CR (s cur : string) :
  crlf_only s = true -> no_char CRc cur = true ->
  Forall (fun l => no_char CRc l = true) (JS.split_lines_from cur s).
Proof.
  assert (Hrev : forall cur, no_char CRc cur = true ->
                 no_char CRc (JS.rev_string "" cur) = true).
  { intros c0 H. unfold no_char in *. rewrite all_chars_rev_string, H. reflexivity. }
  remember (String.length s) as n eqn:En.
  assert (Hn : (String.length s <= n)%nat) by lia. clear En.
  revert s cur Hn. induction n as [|n IH]; intros s cur Hn Hs Hcur.
  - destruct s; [|simpl in Hn; lia]. constructor; [apply Hrev; exact Hcur|constructor].
  - destruct s as [|c s]; [constructor; [apply Hrev; exact Hcur|constructor]|].
    simpl in Hn. cbn [crlf_only] in Hs. apply andb_true_iff in Hs. destruct Hs as [Hc Hs].
    cbn [JS.split_lines_from].
    destruct (N.eqb (JS.code c) 10) eqn:E10.
    + constructor; [apply Hrev; exact Hcur|]. apply IH; [lia|exact Hs|reflexivity].
    + destruct (N.eqb (JS.code c) 13) eqn:E13.
      * destruct s as [|d s]; [discriminate Hc|]. rewrite Hc.
        constructor; [apply Hrev; exact Hcur|].
        cbn [crlf_only] in Hs. apply andb_true_iff in Hs. destruct Hs as [_ Hs].
        apply IH; [simpl in Hn; lia|exact Hs|reflexivity].
      * apply IH; [lia|exact Hs|].
        unfold no_char in *. simpl. rewrite Hcur, <- code_13, E13. reflexivity.
Qed.

Lemma join_cons_more (x : string) (l : list string) :
  l <> [] -> JS.join LF (x :: l) = x ++ String LFc (JS.join LF l).
Proof. destruct l as [|y l]; [congruence|]. intros _. apply join_cons2. Qed.

(** Without carriage returns, joining the lines gives the text back. *)
Lemma lines_before_join (h cur : string) :
  no_char CRc h = true ->
  lines_before cur h <> []
  /\ JS.join LF (lines_before cur h) = JS.rev_string "" cur ++ h.
Proof.
  revert cur. induction h as [|c h IH]; intros cur H.
  - split; [discriminate|]. simpl. rewrite append_nil_r. reflexivity.
  - apply no_char_cons in H. destruct H as [Hc Hh].
    assert (E13 : N.eqb (JS.code c) 13 = false).
    { rewrite code_13. destruct (Ascii.eqb_spec c CRc); [contradiction|reflexivity]. }
    cbn [lines_before]. rewrite E13.
    destruct (N.eqb (JS.code c) 10) eqn:E10.
    + split; [discriminate|]. destruct (IH "" Hh) as [Hne Hj].
      rewrite (join_cons_more _ _ Hne), Hj. cbn [JS.rev_string append].
      rewrite code_10 in E10. apply Ascii.eqb_eq in E10. subst c. reflexivity.
    + destruct (IH (String c cur) Hh) as [Hne Hj]. split; [exact Hne|].
      rewrite Hj. apply rev_string_cons.
Qed.

Lemma join_lines_no_CR (ls : list string) :
  Forall (fun l => no_char CRc l = true) ls -> no_char CRc (JS.join LF ls) = true.
Proof.
  induction 1 as [|a ls Ha Hls IH]; [reflexivity|].
  destruct ls as [|b ls]; [exact Ha|].
  rewrite join_cons2, no_char_app_cons, Ha, IH. reflexivity.
Qed.

Lemma take_until_section_sub (P : string -> Prop) (ls : list string) :
  Forall P ls -> Forall P (take_until_section ls).
Proof.
  induction 1 as [|l ls Hl _ IH]; simpl; [constructor|].
  destruct (JS.startsWith l "## "); constructor; assumption.
Qed.

Lemma preamble_no_CR (content : string) :
  crlf_only content = true -> no_char CRc (preamble content) = true.
Proof.
  intros H. unfold preamble, no_char. apply all_chars_trimEnd.
  apply join_lines_no_CR. apply take_until_section_sub.
  apply split_lines_no_CR; [exact H|reflexivity].
Qed.

(** *** The preamble of a projected file *)

Lemma trimEnd_app_space (a w : string) :
  JS.all_chars JS.is_space w = true -> JS.trimEnd (a ++ w) = JS.trimEnd a.
Proof.
  intros Hw.
  assert (E : JS.trimEnd w = "").
  { induction w as [|c w IH]; [reflexivity|]. simpl in Hw.
    apply andb_true_iff in Hw. destruct Hw as [Hc Hw]. simpl. rewrite (IH Hw), Hc.
    reflexivity. }
  induction a as [|c a IH]; [exact E|]. cbn [append JS.trimEnd]. rewrite IH. reflexivity.
Qed.

Lemma take_until_section_app (pre : list string) (s : string) (rest : list string) :
  forallb (fun l => negb (JS.startsWith l "## ")) pre = true ->
  JS.startsWith s "## " = true ->
  take_until_section (pre ++ s :: rest)%list = pre.
Proof.
  intros Hp Hs. induction pre as [|l pre IH]; simpl in *; [rewrite Hs; reflexivity|].
  apply andb_true_iff in Hp. destruct Hp as [Hl Hp]. apply negb_true_iff in Hl.
  rewrite Hl, (IH Hp). reflexivity.
Qed.

Lemma join_snoc_empty (ls : list string) :
  ls <> [] -> JS.join LF (ls ++ [""])%list = JS.join LF ls ++ LF.
Proof.
  induction ls as [|a ls IH]; [congruence|]. intros _.
  destruct ls as [|b ls]; [reflexivity|].
  cbn [app]. rewrite !join_cons2. cbn [app] in IH. rewrite IH by discriminate.
  rewrite append_assoc. reflexivity.
Qed.

(** The projector finds, in a file it has written, the header it wrote. *)
Lemma preamble_render (h : string) (tasks : list Task) :
  no_char CRc h = true -> preamble_ok h = true -> JS.trimEnd h = h ->
  preamble (render_project h tasks) = h.
Proof.
  intros Hcr Hok Htrim. unfold preamble, JS.split_lines.
  rewrite render_project_lines.
  assert (Eb : exists R, unlines ("" :: body_lines tasks)
                         = String LFc ("## In Progress" ++ String LFc R)).
  { eexists. unfold body_lines, STATUS_ORDER. cbn [flat_map].
    unfold section_lines at 1. cbn [app unlines]. reflexivity. }
  destruct Eb as [R ->].
  rewrite split_after_preamble.
  change (JS.split_lines_from "" (String LFc ("## In Progress" ++ String LFc R)))
    with ("" :: JS.split_lines_from "" ("## In Progress" ++ String LFc R)).
  rewrite (split_line "## In Progress" "" R) by reflexivity.
  change (JS.rev_string "" "" ++ "## In Progress") with "## In Progress".
  replace (lines_before "" h ++ "" :: "## In Progress" :: JS.split_lines_from "" R)%list
    with ((lines_before "" h ++ [""]) ++ "## In Progress" :: JS.split_lines_from "" R)%list
    by (rewrite <- app_assoc; reflexivity).
  rewrite take_until_section_app.
  - destruct (lines_before_join h "" Hcr) as [Hne Hj].
    rewrite (join_snoc_empty _ Hne), Hj. cbn [JS.rev_string append].
    rewrite trimEnd_app_space by reflexivity. exact Htrim.
  - rewrite forallb_app. unfold preamble_ok in Hok. rewrite Hok. reflexivity.
  - reflexivity.
Qed.

(** *** The headers read from a directory *)

Lemma read_headers_entries (fs : FS) :
  read_headers fs =
    map_of (map (fun e => (slug_of (fst e), preamble (snd e)))
                (filter (fun e => is_task_file (fst e)) fs)).
Proof.
  unfold read_headers, map_of. generalize (@nil (string * string)) as acc.
  induction fs as [|e fs IH]; intros acc; [reflexivity|].
  cbn [fold_left filter]. destruct (is_task_file (fst e)); cbn [map fold_left fst snd];
    apply IH.
Qed.

Lemma slug_of_file_name (slug : string) : slug_of (file_name slug) = slug.
Proof. unfold slug_of, file_name. rewrite strip_suffix_app. reflexivity. Qed.

Lemma header_keys_nodup (fs : FS) :
  NoDup (map fst fs) ->
  NoDup (map fst (map (fun e : string * string => (slug_of (fst e), preamble (snd e)))
                      (filter (fun e => is_task_file (fst e)) fs))).
Proof.
  intros Hnd. rewrite map_map. cbn [fst].
  induction fs as [|[n c] fs IH]; [constructor|].
  inversion Hnd as [|? ? Hn Hnd']; subst. specialize (IH Hnd').
  cbn [filter fst]. destruct (is_task_file n) eqn:En; [|exact IH].
  cbn [map fst]. constructor; [|exact IH].
  intros Hin. apply in_map_iff in Hin. destruct Hin as ([n' c'] & E & Hin').
  apply filter_In in Hin'. destruct Hin' as [Hin' En']. cbn [fst] in *.
  apply Hn. rewrite (task_file_name n En), <- E, <- (task_file_name n' En').
  apply (in_map fst _ _ Hin').
Qed.

(** With distinct file names, the header kept for a slug is the preamble
    of the file of that slug. *)
Lemma read_headers_get (fs : FS) (slug : string) :
  NoDup (map fst fs) ->
  (forall c, In (file_name slug, c) fs ->
             map_get slug (read_headers fs) = Some (preamble c))
  /\ (forall h, map_get slug (read_headers fs) = Some h ->
                exists c, In (file_name slug, c) fs /\ h = preamble c).
Proof.
  intros Hnd. pose proof (header_keys_nodup fs Hnd) as Hk.
  rewrite read_headers_entries, (map_of_nodup _ Hk).
  split.
  - intros c Hin. apply (map_get_in _ _ _ Hk). apply in_map_iff.
    exists (file_name slug, c). cbn [fst snd]. rewrite slug_of_file_name.
    split; [reflexivity|]. apply filter_In. split; [exact Hin|].
    apply file_name_is_task_file.
  - intros h Hget. apply (map_get_in _ _ _ Hk) in Hget. apply in_map_iff in Hget.
    destruct Hget as ([n c] & [= E <-] & Hin). apply filter_In in Hin.
    destruct Hin as [Hin Hn]. cbn [fst snd] in *.
    exists c. split; [|reflexivity]. rewrite <- E, <- (task_file_name n Hn). exact Hin.
Qed.

(** *** The header the projector writes *)

Lemma id_char_plain (c : ascii) :
  Re.id_char c = true ->
  negb (Ascii.eqb c LFc) = true /\ negb (Ascii.eqb c "/") = true
  /\ negb (Ascii.eqb c CRc) = true /\ JS.is_space c = false.
Proof.
  destruct c as [[] [] [] [] [] [] [] []]; intros H; try discriminate H;
    repeat split; reflexivity.
Qed.

Lemma trimEnd_no_space (a s : string) :
  s <> "" -> JS.all_chars (fun c => negb (JS.is_space c)) s = true ->
  JS.trimEnd (a ++ s) = a ++ s.
Proof.
  intros Hne Hs.
  assert (E : JS.trimEnd s = s).
  { clear Hne. induction s as [|c s IH]; [reflexivity|]. simpl in Hs.
    apply andb_true_iff in Hs. destruct Hs as [Hc Hs]. apply negb_true_iff in Hc.
    cbn [JS.trimEnd]. rewrite (IH Hs), Hc. destruct s; reflexivity. }
  induction a as [|x a IH]; [exact E|]. cbn [append JS.trimEnd]. rewrite IH.
  destruct a; [destruct s; [congruence|]|]; reflexivity.
Qed.

Lemma id_ok_slug_ok (slug : string) : id_ok slug = true -> slug_ok slug = true.
Proof.
  unfold id_ok, slug_ok, no_char. intros H. apply andb_true_iff in H. destruct H as [_ H].
  rewrite (all_chars_impl Re.id_char _ slug (fun c Hc => proj1 (id_char_plain c Hc)) H).
  rewrite (all_chars_impl Re.id_char _ slug
             (fun c Hc => proj1 (proj2 (id_char_plain c Hc))) H).
  reflexivity.
Qed.

Lemma project_header_fixed (fs : FS) (slug : string) :
  NoDup (map fst fs) ->
  (forall n c, In (n, c) fs -> is_task_file n = true -> crlf_only c = true) ->
  id_ok slug = true ->
  no_char CRc (project_header (read_headers fs) slug) = true
  /\ preamble_ok (project_header (read_headers fs) slug) = true
  /\ JS.trimEnd (project_header (read_headers fs) slug)
     = project_header (read_headers fs) slug
  /\ JS.truthy (Some (project_header (read_headers fs) slug)) = true.
Proof.
  intros Hnd Hcr Hid.
  split; [|split; [apply project_header_ok, id_ok_slug_ok, Hid|]].
  - unfold project_header.
    assert (Hdef : no_char CRc ("# Tasks: " ++ slug) = true).
    { unfold id_ok in Hid. apply andb_true_iff in Hid. destruct Hid as [_ Hid].
      rewrite no_char_app. unfold no_char at 2.
      rewrite (all_chars_impl Re.id_char _ slug
                 (fun c Hc => proj1 (proj2 (proj2 (id_char_plain c Hc)))) Hid).
      reflexivity. }
    destruct (map_get slug (read_headers fs)) as [h|] eqn:E; [|exact Hdef].
    destruct (JS.truthy (Some h)); [|exact Hdef].
    destruct (proj2 (read_headers_get fs slug Hnd) h E) as (c & Hin & ->).
    apply preamble_no_CR. apply (Hcr _ _ Hin). apply file_name_is_task_file.
  - unfold project_header.
    assert (Hdef : JS.trimEnd ("# Tasks: " ++ slug) = "# Tasks: " ++ slug
                   /\ JS.truthy (Some ("# Tasks: " ++ slug)) = true).
    { split; [|reflexivity]. unfold id_ok in Hid. apply andb_true_iff in Hid.
      destruct Hid as [Hne Hid]. apply negb_true_iff in Hne. apply String.eqb_neq in Hne.
      apply trimEnd_no_space; [exact Hne|].
      apply (all_chars_impl Re.id_char _ slug); [|exact Hid].
      intros c Hc. rewrite (proj2 (proj2 (proj2 (id_char_plain c Hc)))). reflexivity. }
    destruct (map_get slug (read_headers fs)) as [h|] eqn:E; [|exact Hdef].
    destruct (JS.truthy (Some h)) eqn:Et; [|exact Hdef].
    split; [|exact Et].
    destruct (proj2 (read_headers_get fs slug Hnd) h E) as (c & _ & ->).
    unfold preamble. apply trimEnd_idem.
Qed.

(** *** Projecting twice *)

Lemma write_file_same (n c : string) (fs : FS) :
  NoDup (map fst fs) -> In (n, c) fs -> write_file n c fs = fs.
Proof.
  induction fs as [|[n' c'] fs IH]; intros Hnd Hin; [destruct Hin|].
  inversion Hnd as [|? ? Hn' Hnd']; subst. cbn [write_file].
  destruct (String.eqb_spec n' n) as [->|Hne].
  - destruct Hin as [[= ->]|Hin]; [reflexivity|].
    exfalso. apply Hn'. apply (in_map fst _ _ Hin).
  - destruct Hin as [[= E _]|Hin]; [congruence|]. rewrite (IH Hnd' Hin). reflexivity.
Qed.

Lemma write_all_same (files : list (string * string)) (fs : FS) :
  NoDup (map fst fs) -> (forall e, In e files -> In e fs) -> write_all files fs = fs.
Proof.
  intros Hnd H. unfold write_all. induction files as [|[n c] files IH]; [reflexivity|].
  cbn [fold_left fst snd]. rewrite (write_file_same n c fs Hnd (H _ (or_introl eq_refl))).
  apply IH. intros e He. apply H. right. exact He.
Qed.

Lemma projectDbToFiles_count (dbTasks : list Task) (fs : FS) (db : Db) :
  snd (projectDbToFiles dbTasks fs db) = List.length (projects db).
Proof.
  unfold projectDbToFiles.
  assert (G : forall slugs acc,
             snd (fold_left
                    (fun (acc : FS * nat) slug =>
                       (write_file (slug ++ "-tasks.md")
                          (render_project (project_header (read_headers fs) slug)
                             (project_tasks (group_by_project dbTasks) slug)) (fst acc),
                        S (snd acc))) slugs acc)
             = (snd acc + List.length slugs)%nat).
  { induction slugs as [|s slugs IH]; intros acc; simpl; [lia|]. rewrite IH. simpl. lia. }
  rewrite G. cbn [snd plus].
  rewrite (Permutation_length (project_slugs_perm db)). apply length_map.
Qed.

(** X18.  Projecting twice is projecting once.  For a directory with
    distinct file names whose task files have Unix or Windows line ends,
    and projects with distinct ids over [a-z0-9-]: a second db-to-files
    projection of the same records rewrites every project file with the
    text it already has - the header the first projection kept or made is
    found again - and reports the same number of files, one for each
    project, with or without tasks. *)
Theorem projection_is_idempotent (dbTasks : list Task) (fs : FS) (db : Db) :
  NoDup (map fst fs) ->
  (forall n c, In (n, c) fs -> is_task_file n = true -> crlf_only c = true) ->
  NoDup (map p_id (projects db)) ->
  forallb id_ok (map p_id (projects db)) = true ->
  projectDbToFiles dbTasks (fst (projectDbToFiles dbTasks fs db)) db
  = projectDbToFiles dbTasks fs db
  /\ snd (projectDbToFiles dbTasks fs db) = List.length (projects db).
Proof.
  intros Hfs Hcr Hp Hid. split; [|apply projectDbToFiles_count].
  apply injective_projections; [|rewrite !projectDbToFiles_count; reflexivity].
  rewrite (projectDbToFiles_writes dbTasks (fst (projectDbToFiles dbTasks fs db)) db).
  rewrite (projectDbToFiles_writes dbTasks fs db).
  set (W := map (fun s => (file_name s, file_content fs dbTasks s)) (project_slugs db)).
  assert (Hslugs : NoDup (project_slugs db)).
  { eapply Permutation_NoDup; [symmetry; apply project_slugs_perm|exact Hp]. }
  assert (HWnd : NoDup (map fst W)).
  { unfold W. rewrite map_map. cbn [fst].
    apply nodup_map_inj; [apply file_name_inj|exact Hslugs]. }
  destruct (write_all_spec W fs Hfs HWnd) as [Hnd1 Hin1].
  set (fs1 := write_all W fs) in *.
  assert (HW1 : map (fun s => (file_name s, file_content fs1 dbTasks s)) (project_slugs db)
                = W).
  { unfold W. apply map_ext_in. intros s Hs. f_equal.
    assert (Hs_id : id_ok s = true).
    { rewrite forallb_forall in Hid. apply Hid.
      eapply Permutation_in; [apply project_slugs_perm|exact Hs]. }
    destruct (project_header_fixed fs s Hfs Hcr Hs_id) as (H1 & H2 & H3 & H4).
    unfold file_content. f_equal.
    set (h := project_header (read_headers fs) s) in *.
    assert (Hin : In (file_name s, render_project h (project_tasks (group_by_project dbTasks) s))
                     fs1).
    { apply Hin1. left. unfold W. apply in_map_iff. exists s. split; [reflexivity|exact Hs]. }
    unfold project_header at 1.
    rewrite (proj1 (read_headers_get fs1 s Hnd1) _ Hin).
    rewrite (preamble_render h _ H1 H2 H3), H4. reflexivity. }
  rewrite HW1. apply write_all_same; [exact Hnd1|].
  intros e He. apply Hin1. left. exact He.
Qed.

Lemma projection_is_idempotent_witness :
  let fs := [("notes.txt", "keep"); ("proj-tasks.md", "# Proj" ++ String CRc LF ++ "intro"
                                       ++ String CRc LF ++ "## Backlog" ++ String CRc LF)] in
  let db := mkDb [mkProject "proj" "Proj" "" "active" "tasks/proj-tasks.md" "";
                  mkProject "old" "Old" "" "paused" "tasks/old-tasks.md" ""]
                 (tasks Sample.db_one) [] None in
  projectDbToFiles (getDbTasks db) (fst (projectDbToFiles (getDbTasks db) fs db)) db
  = projectDbToFiles (getDbTasks db) fs db
  /\ snd (projectDbToFiles (getDbTasks db) fs db) = 2%nat.
Proof.
  intros fs db. apply (projection_is_idempotent (getDbTasks db) fs db).
  - repeat constructor; simpl; intuition discriminate.
  - intros n c [[= <- <-]|[[= <- <-]|[]]]; [discriminate|]. intros _. reflexivity.
  - repeat constructor; simpl; intuition discriminate.
  - reflexivity.
Defined.

(* ===================================================================== *)
(** ** Further properties of the modes, one after the other *)
(* ===================================================================== *)

Lemma map_get_known {V : Type} (es : list (string * V)) (k : string) :
  In k (map fst es) -> map_has k (map_of es) = true.
Proof.
  intros Hin. unfold map_has. rewrite map_get_map_of.
  destruct (map_get k (rev es)) eqn:E; [reflexivity|].
  apply map_get_none in E. exfalso. apply E. rewrite map_rev. apply in_rev in Hin.
  exact Hin.
Qed.

(** *** A run stores no NUL that it did not read *)

Lemma keeps_no_nul_refl (db : Db) : keeps_no_nul db db.
Proof. intros H. exact H. Qed.

Lemma keeps_no_nul_trans (a b c : Db) :
  keeps_no_nul a b -> keeps_no_nul b c -> keeps_no_nul a c.
Proof. intros H1 H2 H. apply H2, H1, H. Qed.

Lemma keeps_no_nul_same (db db' : Db) :
  tasks db' = tasks db -> projects db' = projects db -> keeps_no_nul db db'.
Proof. intros Ht Hp. unfold keeps_no_nul, store_no_nul. rewrite Ht, Hp. intros H. exact H. Qed.

Lemma update_row_no_nul now t r :
  task_no_nul t = true -> task_no_nul (row_task r) = true ->
  task_no_nul (row_task (update_row now t r)) = true.
Proof.
  unfold task_no_nul, update_row. cbn [row_task id project_id title status priority owner_model
                                        notes source_file].
  intros Ht Hr. split_andb.
  repeat (apply andb_true_iff; split); try assumption.
  unfold coalesce. destruct (notes t); assumption.
Qed.

Lemma upsert_no_nul now t db db' :
  task_no_nul t = true -> upsert now t db = Ok db' -> keeps_no_nul db db'.
Proof.
  intros Ht H. apply upsert_inv in H.
  destruct H as (_ & _ & [(r & _ & ->)|(_ & _ & ->)]); unfold keeps_no_nul, store_no_nul;
    cbn [tasks projects set_tasks]; intros Hs; apply andb_true_iff in Hs; destruct Hs as [H1 H2];
    apply andb_true_iff; (split; [|exact H2]).
  - unfold update_rows. rewrite forallb_forall in *. intros x Hx.
    apply in_map_iff in Hx. destruct Hx as (r0 & <- & Hr0).
    destruct (String.eqb (id (row_task r0)) (id t)); [|apply H1; exact Hr0].
    apply update_row_no_nul; [exact Ht|apply H1; exact Hr0].
  - rewrite forallb_app. rewrite H1. cbn [forallb row_task]. rewrite Ht. reflexivity.
Qed.

Lemma create_missing_projects_no_nul now known missing f :
  (forall t, In t f -> task_no_nul t = true) ->
  keeps keeps_no_nul (create_missing_projects now known missing f).
Proof.
  revert missing. induction f as [|t f IH]; intros missing Hf; cbn [create_missing_projects].
  - apply keeps_ret. exact keeps_no_nul_refl.
  - destruct (negb (mem_string (project_id t) known)
              && negb (mem_string (project_id t) missing))%bool.
    + apply keeps_bind; [exact keeps_no_nul_trans| |].
      * apply keeps_run; [exact keeps_no_nul_refl|].
        intros db db'. unfold upsertProject.
        destruct (project_exists (project_id t) db); intros [= <-];
          [apply keeps_no_nul_refl|].
        unfold keeps_no_nul, store_no_nul. cbn [tasks projects set_projects].
        intros Hs. apply andb_true_iff in Hs. destruct Hs as [H1 H2].
        rewrite H1, forallb_app, H2. cbn [forallb p_id andb].
        pose proof (Hf t (or_introl eq_refl)) as Ht. unfold task_no_nul in Ht.
        split_andb. rewrite andb_true_r. assumption.
      * intros _. apply IH. intros x Hx. apply Hf. right. exact Hx.
    + apply IH. intros x Hx. apply Hf. right. exact Hx.
Qed.

Lemma insertTransition_no_nul now tid from to reason db db' :
  insertTransition now tid from to reason db = Ok db' -> keeps_no_nul db db'.
Proof.
  intros H. apply insertTransition_inv in H. subst db'.
  apply keeps_no_nul_same; reflexivity.
Qed.

Lemma apply_diff_no_nul now d :
  (forall t, In t (target d) -> task_no_nul t = true) ->
  keeps keeps_no_nul (apply_diff now d).
Proof.
  intros Hd. destruct d as [i t|i ch t dt|i t]; cbn [apply_diff].
  - apply keeps_bind; [exact keeps_no_nul_trans| |].
    + apply keeps_run; [exact keeps_no_nul_refl|]. intros db db'.
      apply upsert_no_nul. apply Hd. left. reflexivity.
    + intros _. apply keeps_run; [exact keeps_no_nul_refl|]. intros db db'.
      apply insertTransition_no_nul.
  - apply keeps_bind; [exact keeps_no_nul_trans| |].
    + apply keeps_run; [exact keeps_no_nul_refl|]. intros db db'.
      apply upsert_no_nul. apply Hd. left. reflexivity.
    + intros _. destruct (negb (status dt =? status t)%string).
      * apply keeps_run; [exact keeps_no_nul_refl|]. intros db db'.
        apply insertTransition_no_nul.
      * apply keeps_ret. exact keeps_no_nul_refl.
  - apply keeps_ret. exact keeps_no_nul_refl.
Qed.

Lemma apply_diffs_no_nul now diffs c :
  (forall d t, In d diffs -> In t (target d) -> task_no_nul t = true) ->
  keeps keeps_no_nul (apply_diffs now diffs c).
Proof.
  revert c. induction diffs as [|d rest IH]; intros c Hd; cbn [apply_diffs].
  - apply keeps_ret. exact keeps_no_nul_refl.
  - apply keeps_bind; [exact keeps_no_nul_trans| |].
    + apply apply_diff_no_nul. intros t Ht. apply (Hd d t); [left; reflexivity|exact Ht].
    + intros _. apply IH. intros d' t Hd' Ht. apply (Hd d' t); [right; exact Hd'|exact Ht].
Qed.

Lemma syncFilesToDb_no_nul now fs f dbt :
  (forall t, In t f -> task_no_nul t = true) ->
  keeps keeps_no_nul (syncFilesToDb now fs f dbt (diffTasks f dbt)).
Proof.
  intros Hf db. unfold syncFilesToDb.
  refine (keeps_bind keeps_no_nul keeps_no_nul_trans _ _ _ _ db).
  - apply create_missing_projects_no_nul. exact Hf.
  - intros _. apply keeps_bind; [exact keeps_no_nul_trans| |].
    + apply apply_diffs_no_nul. intros d t Hd Ht. apply Hf.
      apply (diffTasks_targets f dbt d t Hd Ht).
    + intros c. apply keeps_bind; [exact keeps_no_nul_trans| |].
      * intros db'. unfold run, update_hashes. destruct (sync_state db');
          apply keeps_no_nul_same; reflexivity.
      * intros _. apply keeps_ret. exact keeps_no_nul_refl.
Qed.

(** A files-to-db run, however it ends, leaves a store without NUL when
    it found one and the records of the files hold none. *)
Lemma main_files_to_db_no_nul (now : Z) (fs : FS) (db : Db) :
  store_no_nul db = true ->
  forallb task_no_nul (parseAllFiles fs) = true ->
  store_no_nul (snd (fst (main FilesToDb now fs db))) = true.
Proof.
  intros Hs Hf. unfold main.
  pose proof (acquireLock_tasks FilesToDb now db) as Ht.
  pose proof (acquireLock_frame FilesToDb now db) as [Hp _].
  destruct (acquireLock FilesToDb now db) as [db1 [|o u]]; cbn [fst snd] in *.
  - assert (H1 : store_no_nul db1 = true).
    { apply (keeps_no_nul_same db db1 Ht Hp). exact Hs. }
    rewrite forallb_forall in Hf.
    pose proof (syncFilesToDb_no_nul now fs (parseAllFiles fs) (getDbTasks db1) Hf db1) as K.
    destruct (syncFilesToDb now fs (parseAllFiles fs) (getDbTasks db1)
                (diffTasks (parseAllFiles fs) (getDbTasks db1)) db1) as [db2 [c|e]];
      cbn [fst snd] in *;
      (apply (keeps_no_nul_same db2);
       [apply releaseLock_tasks|apply releaseLock_frame|apply K; exact H1]).
  - apply (keeps_no_nul_same db db1 Ht Hp). exact Hs.
Qed.

(** X19.  Check after apply.  Take a store with distinct ids and files
    such that neither the store nor the records of the files hold a NUL.
    After a files-to-db run that succeeded the store still holds none, so
    that it hands back what was written, and the drift check on the same
    files exits with 0 exactly when every stored record has its id in the
    files: what the apply leaves behind as drift are the store-only
    records, and nothing else. *)
Theorem check_after_apply (now now' : Z) (fs fs' : FS) (db db' : Db) :
  NoDup (map row_id (tasks db)) ->
  store_no_nul db = true ->
  forallb task_no_nul (parseAllFiles fs) = true ->
  main FilesToDb now fs db = (fs', db', 0) ->
  store_no_nul db' = true
  /\ (snd (main Check now' fs' db') = 0
      <-> forall r, In r (tasks db') -> In (row_id r) (map id (parseAllFiles fs')))
  /\ forall d, In d (diffTasks (parseAllFiles fs') (getDbTasks db')) -> is_db_only d = true.
Proof.
  intros Hnd Hnul Hf H.
  split.
  { pose proof (main_files_to_db_no_nul now fs db Hnul Hf) as K. rewrite H in K. exact K. }
  clear Hnul Hf.
  destruct (successful_run now fs fs' db db' Hnd H) as (-> & Hnd' & Hsync & _ & _).
  pose proof (diffTasks_all_synced (parseAllFiles fs) db' Hnd' Hsync) as Hall.
  split; [|exact Hall].
  cbn [main snd]. rewrite check_mode_exit.
  set (f := parseAllFiles fs) in *. set (dbt := getDbTasks db') in *.
  split.
  - intros E r Hr.
    assert (Ed : diffTasks f dbt = []) by (destruct (diffTasks f dbt); [reflexivity|discriminate]).
    unfold diffTasks in Ed. apply app_eq_nil in Ed. destruct Ed as [_ Ed].
    unfold diff_db_side in Ed. rewrite flat_map_nil in Ed.
    pose proof (getDbTasks_ids_nodup db' Hnd') as Hs. fold dbt in Hs.
    assert (Hin : In (row_id r, row_task r) (map_of (task_entries dbt))).
    { rewrite map_of_nodup by (rewrite task_entries_keys; exact Hs).
      apply entries_in. split; [|reflexivity].
      eapply Permutation_in; [symmetry; apply getDbTasks_perm|]. apply in_map. exact Hr. }
    specialize (Ed _ Hin). cbn [fst snd] in Ed. unfold map_has in Ed.
    destruct (map_get (row_id r) (map_of (task_entries f))) as [t|] eqn:Eg; [|discriminate].
    assert (Hin' : In (row_id r, t) (map_of (task_entries f))).
    { apply map_get_in; [apply map_of_keys_nodup|exact Eg]. }
    apply file_map_entry in Hin'. destruct Hin' as [<- Ht]. apply in_map. exact Ht.
  - intros Hcov. destruct (diffTasks f dbt) as [|d0 ds] eqn:Ed; [reflexivity|]. exfalso.
    pose proof (Hall d0 (or_introl eq_refl)) as Hk.
    assert (Hd0 : In d0 (diffTasks f dbt)) by (rewrite Ed; left; reflexivity).
    unfold diffTasks in Hd0. apply in_app_or in Hd0. destruct Hd0 as [Hd0|Hd0].
    + rewrite diff_file_side_flat in Hd0. apply in_flat_map in Hd0.
      destruct Hd0 as (e & _ & Hd0). unfold file_side_entry in Hd0.
      destruct (map_get (fst e) (map_of (task_entries dbt))) as [dt|].
      * destruct (field_changes (snd e) dt); [destruct Hd0|].
        destruct Hd0 as [<-|[]]. discriminate Hk.
      * destruct Hd0 as [<-|[]]. discriminate Hk.
    + unfold diff_db_side in Hd0. apply in_flat_map in Hd0.
      destruct Hd0 as ([k t] & Hin & Hd0). cbn [fst snd] in Hd0.
      apply map_of_in in Hin. apply entries_in in Hin. destruct Hin as [Ht <-].
      assert (Hr : exists r, In r (tasks db') /\ row_id r = id t).
      { assert (Hp : In t (map row_task (tasks db'))).
        { eapply Permutation_in; [apply getDbTasks_perm|exact Ht]. }
        apply in_map_iff in Hp. destruct Hp as (r & <- & Hr). exists r. split; auto. }
      destruct Hr as (r & Hr & Er).
      rewrite map_get_known in Hd0; [destruct Hd0|].
      rewrite task_entries_keys, <- Er. apply Hcov. exact Hr.
Qed.

Lemma check_after_apply_witness :
  let run := main FilesToDb Sample.t1 Sample.fs_in_progress Sample.db_one in
  (snd (main Check Sample.t2 (fst (fst run)) (snd (fst run))) = 0
   <-> forall r, In r (tasks (snd (fst run))) ->
                 In (row_id r) (map id (parseAllFiles (fst (fst run)))))
  /\ snd (main Check Sample.t2 (fst (fst run)) (snd (fst run))) = 1.
Proof.
  intros run.
  assert (E : run = (fst (fst run), snd (fst run), 0)) by (vm_compute; reflexivity).
  split; [|vm_compute; reflexivity].
  refine (proj1 (proj2 (check_after_apply Sample.t1 Sample.t2 Sample.fs_in_progress
                          (fst (fst run)) Sample.db_one (snd (fst run)) _ _ _ E))).
  - vm_compute. repeat constructor; simpl; intuition discriminate.
  - vm_compute. reflexivity.
  - vm_compute. reflexivity.
Defined.

(* ===================================================================== *)
(** ** Line ends *)
(* ===================================================================== *)

Lemma split_lines_to_crlf (s cur : string) :
  no_char CRc s = true ->
  JS.split_lines_from cur (to_crlf s) = JS.split_lines_from cur s.
Proof.
  revert cur. induction s as [|c s IH]; intros cur H; [reflexivity|].
  apply no_char_cons in H. destruct H as [Hc Hs].
  cbn [to_crlf]. destruct (Ascii.eqb_spec c LFc) as [->|Hne].
  - change (JS.split_lines_from cur (String CRc (String LFc (to_crlf s))))
      with (JS.rev_string "" cur :: JS.split_lines_from "" (to_crlf s)).
    change (JS.split_lines_from cur (String LFc s))
      with (JS.rev_string "" cur :: JS.split_lines_from "" s).
    rewrite (IH "" Hs). reflexivity.
  - assert (E10 : N.eqb (JS.code c) 10 = false).
    { rewrite code_10. destruct (Ascii.eqb_spec c LFc); [contradiction|reflexivity]. }
    assert (E13 : N.eqb (JS.code c) 13 = false).
    { rewrite code_13. destruct (Ascii.eqb_spec c CRc); [contradiction|reflexivity]. }
    cbn [JS.split_lines_from]. rewrite E10, E13.
    rewrite (IH (String c cur) Hs).
    destruct s as [|d s]; reflexivity.
Qed.

(** X20.  Windows line ends read like Unix line ends: a task file saved
    with a carriage return in front of every line feed yields the records
    of the file without them. *)
Theorem crlf_reads_alike (fileName content : string) :
  no_char CRc content = true ->
  parseTaskFile fileName (to_crlf content) = parseTaskFile fileName content.
Proof.
  intros H. unfold parseTaskFile, JS.split_lines.
  rewrite (split_lines_to_crlf content "" H). reflexivity.
Qed.

Lemma crlf_reads_alike_witness :
  let content := "## Done" ++ LF ++ "- [x] (task:proj-002) [P1] [codex] Add metrics" ++ LF
                 ++ "  - note: shipped" ++ LF in
  parseTaskFile "proj-tasks.md" (to_crlf content)
  = [mkTask "proj-002" "proj" "Add metrics" "done" "P1" (Some "codex") (Some "shipped")
            "tasks/proj-tasks.md"].
Proof.
  intros content. rewrite (crlf_reads_alike "proj-tasks.md" content eq_refl). reflexivity.
Defined.

(* ===================================================================== *)
(** ** Properties of splitStatements (scripts/init-db.mjs) *)
(* ===================================================================== *)

(** *** Texts without comment opener *)

Lemma no_double_dash_cons (c : ascii) (s : string) :
  no_double_dash (String c s) = true -> no_double_dash s = true.
Proof. cbn [no_double_dash]. intros H. apply andb_true_iff in H. apply H. Qed.

Lemma no_double_dash_suffix (a s : string) :
  no_double_dash (a ++ s) = true -> no_double_dash s = true.
Proof.
  induction a as [|c a IH]; [auto|]. intros H. apply IH.
  apply (no_double_dash_cons c). exact H.
Qed.

Lemma no_double_dash_prefix (s b : string) :
  no_double_dash (s ++ b) = true -> no_double_dash s = true.
Proof.
  induction s as [|c s IH]; [reflexivity|]. cbn [append no_double_dash]. intros H.
  apply andb_true_iff in H. destruct H as [H1 H2]. rewrite (IH H2), andb_true_r.
  destruct s as [|d s]; [reflexivity|exact H1].
Qed.

Lemma strip_comments_head (s : string) :
  match InitDb.strip_comments true s with
  | EmptyString => True
  | String x _ => x = LFc
  end
  /\ match s with
     | EmptyString => True
     | String c _ =>
         match InitDb.strip_comments false s with
         | EmptyString => True
         | String x _ => x = c \/ x = LFc
         end
     end.
Proof.
  induction s as [|c s [IH1 IH2]]; [split; exact I|]. split.
  - cbn [InitDb.strip_comments]. rewrite code_10.
    destruct (Ascii.eqb_spec c LFc) as [->|_]; [reflexivity|exact IH1].
  - cbn [InitDb.strip_comments]. destruct s as [|d s]; [left; reflexivity|].
    destruct (Ascii.eqb c "-" && Ascii.eqb d "-")%bool; [|left; reflexivity].
    destruct (InitDb.strip_comments true (String d s)); [exact I|right; exact IH1].
Qed.

(** What is left of a text once the comments are dropped has no comment
    opener. *)
Lemma strip_comments_clean (b : bool) (s : string) :
  no_double_dash (InitDb.strip_comments b s) = true.
Proof.
  revert b. induction s as [|c s IH]; intros b; [destruct b; reflexivity|].
  destruct b; cbn [InitDb.strip_comments].
  - rewrite code_10. destruct (Ascii.eqb_spec c LFc) as [->|_]; [|apply IH].
    cbn [no_double_dash]. rewrite (IH false).
    destruct (InitDb.strip_comments false s); reflexivity.
  - destruct s as [|d s]; [reflexivity|].
    destruct (Ascii.eqb c "-" && Ascii.eqb d "-")%bool eqn:E; [apply IH|].
    cbn [no_double_dash]. rewrite (IH false), andb_true_r.
    pose proof (proj2 (strip_comments_head (String d s))) as Hh. cbv beta iota in Hh.
    destruct (InitDb.strip_comments false (String d s)) as [|x r]; [reflexivity|].
    destruct Hh as [->| ->]; [rewrite E; reflexivity|].
    rewrite andb_false_r. reflexivity.
Qed.

Lemma strip_comments_fixed (s : string) :
  no_double_dash s = true -> InitDb.strip_comments false s = s.
Proof.
  induction s as [|c s IH]; [reflexivity|]. cbn [no_double_dash InitDb.strip_comments].
  intros H. apply andb_true_iff in H. destruct H as [H1 H2].
  destruct s as [|d s]; [reflexivity|]. apply negb_true_iff in H1. rewrite H1.
  rewrite (IH H2). reflexivity.
Qed.

Lemma no_double_dash_app_semi (a b : string) :
  no_double_dash (a ++ String ";" b) = (no_double_dash a && no_double_dash b)%bool.
Proof.
  induction a as [|c a IH].
  - cbn [append no_double_dash andb]. destruct b; reflexivity.
  - cbn [append no_double_dash]. rewrite IH. destruct a as [|d a].
    + cbn [append]. rewrite andb_false_r. reflexivity.
    + cbn [append]. rewrite andb_assoc. reflexivity.
Qed.

(** *** The pieces of a split *)

Lemma split_head (sep : ascii) (s : string) :
  exists p ps tail, InitDb.split sep s = p :: ps /\ s = p ++ tail.
Proof.
  induction s as [|c s (p & ps & tail & E & Es)].
  - exists "", [], "". split; reflexivity.
  - cbn [InitDb.split]. destruct (Ascii.eqb c sep).
    + exists "", (InitDb.split sep s), (String c s). split; reflexivity.
    + rewrite E. exists (String c p), ps, tail. split; [reflexivity|].
      cbn [append]. rewrite <- Es. reflexivity.
Qed.

Lemma split_no_sep (sep : ascii) (s : string) :
  Forall (fun p => no_char sep p = true) (InitDb.split sep s).
Proof.
  induction s as [|c s IH]; [repeat constructor|]. cbn [InitDb.split].
  destruct (Ascii.eqb c sep) eqn:E; [constructor; [reflexivity|exact IH]|].
  destruct (InitDb.split sep s) as [|p ps]; [repeat constructor; unfold no_char; simpl;
                                              rewrite E; reflexivity|].
  inversion IH as [|? ? Hp Hps]; subst. constructor; [|exact Hps].
  unfold no_char in *. simpl. rewrite E, Hp. reflexivity.
Qed.

Lemma split_clean (sep : ascii) (s : string) :
  no_double_dash s = true ->
  Forall (fun p => no_double_dash p = true) (InitDb.split sep s).
Proof.
  induction s as [|c s IH]; [repeat constructor|]. intros H.
  pose proof (no_double_dash_cons c s H) as Hs. specialize (IH Hs).
  cbn [InitDb.split]. destruct (Ascii.eqb c sep); [constructor; [reflexivity|exact IH]|].
  destruct (split_head sep s) as (p & ps & tail & E & Es). rewrite E in IH |- *.
  apply Forall_cons_iff in IH. destruct IH as [Hp Hps]. constructor; [|exact Hps].
  apply (no_double_dash_prefix (String c p) tail). cbn [append]. rewrite <- Es. exact H.
Qed.

Lemma split_single (sep : ascii) (x : string) :
  no_char sep x = true -> InitDb.split sep x = [x].
Proof.
  induction x as [|c x IH]; [reflexivity|]. intros H.
  apply no_char_cons in H. destruct H as [Hc Hx]. cbn [InitDb.split].
  destruct (Ascii.eqb_spec c sep); [contradiction|]. rewrite (IH Hx). reflexivity.
Qed.

Lemma split_app_sep (sep : ascii) (x r : string) :
  no_char sep x = true -> InitDb.split sep (x ++ String sep r) = x :: InitDb.split sep r.
Proof.
  induction x as [|c x IH]; intros H.
  - cbn [append InitDb.split]. rewrite Ascii.eqb_refl. reflexivity.
  - apply no_char_cons in H. destruct H as [Hc Hx]. cbn [append InitDb.split].
    destruct (Ascii.eqb_spec c sep); [contradiction|]. rewrite (IH Hx). reflexivity.
Qed.

Lemma split_join (l : list string) :
  l <> [] -> Forall (fun p => no_char ";" p = true) l ->
  InitDb.split ";" (JS.join ";" l) = l.
Proof.
  intros Hne H. induction H as [|x l Hx Hl IH]; [congruence|].
  destruct l as [|y l]; [apply split_single; exact Hx|].
  change (JS.join ";" (x :: y :: l)) with (x ++ String ";" (JS.join ";" (y :: l))).
  rewrite (split_app_sep ";" x _ Hx), IH by discriminate. reflexivity.
Qed.

Lemma join_clean (l : list string) :
  Forall (fun p => no_double_dash p = true) l -> no_double_dash (JS.join ";" l) = true.
Proof.
  induction 1 as [|x l Hx Hl IH]; [reflexivity|].
  destruct l as [|y l]; [exact Hx|].
  change (JS.join ";" (x :: y :: l)) with (x ++ String ";" (JS.join ";" (y :: l))).
  rewrite no_double_dash_app_semi, Hx, IH. reflexivity.
Qed.

(** *** The statements *)

Lemma trimStart_suffix (s : string) : exists a, s = a ++ JS.trimStart s.
Proof.
  induction s as [|c s [a IH]]; [exists ""; reflexivity|]. cbn [JS.trimStart].
  destruct (JS.is_space c); [|exists ""; reflexivity].
  exists (String c a). cbn [append]. rewrite <- IH. reflexivity.
Qed.

Lemma trim_clean (s : string) : no_double_dash s = true -> no_double_dash (JS.trim s) = true.
Proof.
  intros H. unfold JS.trim.
  destruct (trimStart_suffix s) as [a Ha].
  destruct (trimEnd_prefix (JS.trimStart s)) as [b Hb].
  apply (no_double_dash_prefix _ b). rewrite <- Hb.
  apply (no_double_dash_suffix a). rewrite <- Ha. exact H.
Qed.

Lemma splitStatements_ok (sql s : string) :
  In s (InitDb.splitStatements sql) -> statement_ok s.
Proof.
  unfold InitDb.splitStatements. intros H. apply filter_In in H. destruct H as [Hin Hne].
  apply in_map_iff in Hin. destruct Hin as (p & <- & Hp).
  apply negb_true_iff in Hne. apply String.eqb_neq in Hne.
  pose proof (split_no_sep ";" (InitDb.strip_comments false sql)) as H1.
  pose proof (split_clean ";" _ (strip_comments_clean false sql)) as H2.
  rewrite Forall_forall in H1, H2.
  repeat split.
  - exact Hne.
  - apply trim_idem.
  - apply all_chars_trim. apply (H1 p Hp).
  - apply trim_clean. apply (H2 p Hp).
Qed.

Lemma statements_fixed (l : list string) :
  (forall s, In s l -> statement_ok s) -> InitDb.splitStatements (JS.join ";" l) = l.
Proof.
  intros H. destruct l as [|x l]; [reflexivity|].
  unfold InitDb.splitStatements.
  rewrite strip_comments_fixed
    by (apply join_clean; apply Forall_forall; intros s Hs; apply (H s Hs)).
  rewrite split_join;
    [|discriminate|apply Forall_forall; intros s Hs; apply (H s Hs)].
  rewrite (map_ext_in JS.trim (fun s => s)) by (intros s Hs; apply (H s Hs)).
  rewrite map_id. apply forallb_filter_id. apply forallb_forall. intros s Hs.
  destruct (H s Hs) as [Hne _]. apply negb_true_iff. apply String.eqb_neq. exact Hne.
Qed.

(** X21.  What [splitStatements] hands to the database is in normal
    form: every statement is not empty, has no white space at either end
    and holds neither a semicolon nor two hyphens in a row; joined with
    semicolons and split again, the statements come back as they are, in
    number and in order. *)
Theorem statements_normal_form (sql : string) :
  (forall s, In s (InitDb.splitStatements sql) ->
     s <> "" /\ JS.trim s = s /\ no_char ";" s = true /\ no_double_dash s = true)
  /\ InitDb.splitStatements (JS.join ";" (InitDb.splitStatements sql))
     = InitDb.splitStatements sql.
Proof.
  split.
  - intros s Hs. exact (splitStatements_ok sql s Hs).
  - apply statements_fixed. intros s Hs. exact (splitStatements_ok sql s Hs).
Qed.

(** *** Comments *)

Lemma strip_comments_tail (c : string) (b : string) :
  no_char LFc c = true ->
  InitDb.strip_comments true (c ++ String LFc b) = String LFc (InitDb.strip_comments false b)
  /\ InitDb.strip_comments true c = "".
Proof.
  induction c as [|x c IH]; intros H; [split; reflexivity|].
  apply no_char_cons in H. destruct H as [Hx Hc]. cbn [append InitDb.strip_comments].
  rewrite code_10. destruct (Ascii.eqb_spec x LFc); [contradiction|]. apply IH. exact Hc.
Qed.

Lemma strip_comments_LF (st : bool) (b : string) :
  InitDb.strip_comments st (String LFc b) = String LFc (InitDb.strip_comments false b).
Proof. destruct st; [reflexivity|]. destruct b; reflexivity. Qed.

Lemma strip_comments_comment (st : bool) (a c b : string) :
  ends_with_dash a = false -> no_char LFc c = true ->
  InitDb.strip_comments st (a ++ "--" ++ c ++ String LFc b)
  = InitDb.strip_comments st (a ++ String LFc b)
  /\ InitDb.strip_comments st (a ++ "--" ++ c) = InitDb.strip_comments st a.
Proof.
  intros Ha Hc. revert st Ha. induction a as [|x a IH]; intros st Ha.
  - cbn [append]. rewrite strip_comments_LF.
    assert (Hc' : no_char LFc (String "-" c) = true) by (unfold no_char in *; simpl; exact Hc).
    destruct (strip_comments_tail (String "-" c) b Hc') as [E1 E2].
    destruct st.
    + split.
      * change (InitDb.strip_comments true (String "-" (String "-" (c ++ String LFc b))))
          with (InitDb.strip_comments true (String "-" c ++ String LFc b)).
        rewrite E1. reflexivity.
      * change (InitDb.strip_comments true (String "-" (String "-" c)))
          with (InitDb.strip_comments true (String "-" c)).
        rewrite E2. reflexivity.
    + split.
      * change (InitDb.strip_comments false (String "-" (String "-" (c ++ String LFc b))))
          with (InitDb.strip_comments true (String "-" c ++ String LFc b)).
        rewrite E1. reflexivity.
      * change (InitDb.strip_comments false (String "-" (String "-" c)))
          with (InitDb.strip_comments true (String "-" c)).
        rewrite E2. reflexivity.
  - assert (Ha' : ends_with_dash a = false).
    { cbn [ends_with_dash] in Ha. destruct a; [reflexivity|exact Ha]. }
    destruct (IH true Ha') as [T1 T2]. destruct (IH false Ha') as [F1 F2].
    cbn [append] in T1, T2, F1, F2 |- *. destruct st; cbn [InitDb.strip_comments].
    + destruct (N.eqb (JS.code x) 10); rewrite ?T1, ?T2, ?F1, ?F2; split; reflexivity.
    + destruct a as [|y a].
      * cbn [ends_with_dash] in Ha. cbn [append]. rewrite Ha. cbn [andb].
        cbn [append] in F1, F2. rewrite F1, F2. split; reflexivity.
      * cbn [append] in *.
        destruct (Ascii.eqb x "-" && Ascii.eqb y "-")%bool;
          rewrite ?T1, ?T2, ?F1, ?F2; split; reflexivity.
Qed.

(** X22.  A comment counts for nothing, whatever it holds: the statements
    of a text with a [--] comment (up to its line feed, or up to the end of
    the text) are those of the text without it - a semicolon inside the
    comment ends no statement.  The comment opener is looked for without
    regard to quotes; the text in front of it must not end with a hyphen,
    which would open the comment one character earlier. *)
Theorem comment_is_dropped (a c b : string) :
  ends_with_dash a = false -> no_char LFc c = true ->
  InitDb.splitStatements (a ++ "--" ++ c ++ LF ++ b) = InitDb.splitStatements (a ++ LF ++ b)
  /\ InitDb.splitStatements (a ++ "--" ++ c) = InitDb.splitStatements a.
Proof.
  intros Ha Hc. unfold InitDb.splitStatements.
  destruct (strip_comments_comment false a c b Ha Hc) as [E1 E2].
  change (c ++ LF ++ b) with (c ++ String LFc b). change (LF ++ b) with (String LFc b).
  rewrite E1, E2. split; reflexivity.
Qed.

Lemma comment_is_dropped_witness :
  InitDb.splitStatements ("INSERT INTO t VALUES ('a" ++ "--" ++ "b');" ++ LF ++ "SELECT 1;")
  = ["INSERT INTO t VALUES ('a" ++ LF ++ "SELECT 1"].
Proof.
  rewrite (proj1 (comment_is_dropped "INSERT INTO t VALUES ('a" "b');" "SELECT 1;"
                    eq_refl eq_refl)).
  reflexivity.
Defined.

(* ===================================================================== *)
(** ** Properties of escapeHtml and ul (scripts/apple-notes-export.mjs) *)
(* ===================================================================== *)

(** The four passes amount to one pass that replaces each character on
    its own: no pass touches what an earlier one has put in. *)
Lemma escapeHtml_cons (c : ascii) (s : string) :
  AppleNotes.escapeHtml (String c s) = escape_char c ++ AppleNotes.escapeHtml s.
Proof.
  unfold AppleNotes.escapeHtml, escape_char. cbn [AppleNotes.replace_char].
  destruct (Ascii.eqb_spec c "&") as [->|H1]; [reflexivity|].
  cbn [AppleNotes.replace_char].
  destruct (Ascii.eqb_spec c "<") as [->|H2]; [reflexivity|].
  cbn [AppleNotes.replace_char].
  destruct (Ascii.eqb_spec c ">") as [->|H3]; [reflexivity|].
  cbn [AppleNotes.replace_char].
  destruct (Ascii.eqb_spec c AppleNotes.DQ) as [->|H4]; reflexivity.
Qed.

Lemma escape_char_inert (c : ascii) :
  no_char "<" (escape_char c) = true /\ no_char ">" (escape_char c) = true
  /\ no_char AppleNotes.DQ (escape_char c) = true.
Proof.
  unfold escape_char.
  destruct (Ascii.eqb_spec c "&"); [repeat split; reflexivity|].
  destruct (Ascii.eqb_spec c "<"); [repeat split; reflexivity|].
  destruct (Ascii.eqb_spec c ">"); [repeat split; reflexivity|].
  destruct (Ascii.eqb_spec c AppleNotes.DQ); [repeat split; reflexivity|].
  unfold no_char. simpl.
  destruct (Ascii.eqb_spec c "<"); [contradiction|].
  destruct (Ascii.eqb_spec c ">"); [contradiction|].
  destruct (Ascii.eqb_spec c AppleNotes.DQ); [contradiction|].
  repeat split; reflexivity.
Qed.

Lemma escapeHtml_inert (s : string) :
  no_char "<" (AppleNotes.escapeHtml s) = true
  /\ no_char ">" (AppleNotes.escapeHtml s) = true
  /\ no_char AppleNotes.DQ (AppleNotes.escapeHtml s) = true.
Proof.
  induction s as [|c s (I1 & I2 & I3)]; [repeat split; reflexivity|].
  rewrite escapeHtml_cons, !no_char_app, I1, I2, I3.
  destruct (escape_char_inert c) as (H1 & H2 & H3). rewrite H1, H2, H3.
  repeat split; reflexivity.
Qed.

Lemma escape_char_inj (c d : ascii) (a b : string) :
  escape_char c ++ a = escape_char d ++ b -> c = d /\ a = b.
Proof.
  unfold escape_char. intros H.
  repeat match type of H with
         | context [if Ascii.eqb ?x ?y then _ else _] => destruct (Ascii.eqb_spec x y)
         end;
    cbn [append] in H; subst;
    try (injection H; intros; subst; split; congruence);
    try discriminate H; try (injection H; intros; subst; contradiction).
Qed.

Lemma escapeHtml_inj (a b : string) :
  AppleNotes.escapeHtml a = AppleNotes.escapeHtml b -> a = b.
Proof.
  revert b. induction a as [|c a IH]; intros b H.
  - destruct b as [|d b]; [reflexivity|]. rewrite escapeHtml_cons in H.
    exfalso. change (AppleNotes.escapeHtml "") with "" in H.
    unfold escape_char in H.
    repeat match type of H with
           | context [if Ascii.eqb ?x ?y then _ else _] => destruct (Ascii.eqb x y)
           end; discriminate H.
  - destruct b as [|d b].
    + rewrite escapeHtml_cons in H. exfalso. change (AppleNotes.escapeHtml "") with "" in H.
      unfold escape_char in H.
      repeat match type of H with
             | context [if Ascii.eqb ?x ?y then _ else _] => destruct (Ascii.eqb x y)
             end; discriminate H.
    + rewrite !escapeHtml_cons in H. apply escape_char_inj in H. destruct H as [-> H].
      f_equal. apply IH. exact H.
Qed.

(** X23.  Escaped text is inert and faithful: it holds no [<], no [>] and
    no double quote, whatever the text was, and two texts that escape to
    the same string are the same text. *)
Theorem escaped_text (a b : string) :
  no_char "<" (AppleNotes.escapeHtml a) = true
  /\ no_char ">" (AppleNotes.escapeHtml a) = true
  /\ no_char AppleNotes.DQ (AppleNotes.escapeHtml a) = true
  /\ (AppleNotes.escapeHtml a = AppleNotes.escapeHtml b <-> a = b).
Proof.
  destruct (escapeHtml_inert a) as (H1 & H2 & H3). repeat split; try assumption.
  - apply escapeHtml_inj.
  - intros ->. reflexivity.
Qed.

(** *** The list *)

Lemma li_split (x r : string) :
  AppleNotes.li x ++ r = "<li>" ++ (AppleNotes.escapeHtml x ++ String "<" ("/li>" ++ r)).
Proof.
  unfold AppleNotes.li. rewrite !append_assoc. reflexivity.
Qed.

Lemma items_inj (a b : list string) :
  JS.join "" (map AppleNotes.li a) ++ "</ul>" = JS.join "" (map AppleNotes.li b) ++ "</ul>" ->
  a = b.
Proof.
  unfold JS.join. revert b. induction a as [|x a IH]; intros b H.
  - destruct b as [|y b]; [reflexivity|]. exfalso. cbn [map] in H.
    rewrite concat_empty_cons, append_assoc, li_split in H. discriminate H.
  - destruct b as [|y b].
    + exfalso. cbn [map] in H.
      rewrite concat_empty_cons, append_assoc, li_split in H. discriminate H.
    + cbn [map] in H. rewrite !concat_empty_cons, !append_assoc, !li_split in H.
      cbn [append] in H. injection H as H.
      apply app_delim_inj in H; try apply escapeHtml_inert.
      destruct H as [Hx Hr]. apply escapeHtml_inj in Hx. subst y. f_equal.
      apply IH. cbn [append] in Hr. injection Hr as Hr. exact Hr.
Qed.

(** X24.  The markup of a list determines the list: two lists of items
    with the same markup are equal, item by item - no item can close its
    own element or pass for two, and the placeholder of the empty list is
    the markup of no list of items. *)
Theorem ul_injective (a b : list string) : AppleNotes.ul a = AppleNotes.ul b <-> a = b.
Proof.
  split; [|intros ->; reflexivity].
  assert (Hempty : forall y l, AppleNotes.ul [] <> AppleNotes.ul (y :: l)).
  { intros y l H. unfold AppleNotes.ul, JS.join in H. cbn [map] in H.
    rewrite concat_empty_cons, append_assoc, li_split in H.
    cbn [append] in H. injection H as H.
    apply (app_delim_inj "<" "" (AppleNotes.escapeHtml y)) in H;
      [|reflexivity|apply escapeHtml_inert].
    destruct H as [_ H]. discriminate H. }
  destruct a as [|x a], b as [|y b]; intros H.
  - reflexivity.
  - exfalso. exact (Hempty y b H).
  - exfalso. exact (Hempty x a (eq_sym H)).
  - apply items_inj. unfold AppleNotes.ul in H. cbn [append] in H. injection H as H.
    exact H.
Qed.
